(** * prestogres: PL/Python glue between PostgreSQL and Presto

    A shallow embedding of [src/pgsql/prestogres.py] (Python 2, running
    inside PL/Python) and the properties of it that the specification
    states.

    Conventions of the embedding:
    - Python [str] is [string]; [%d] and [%s] of an integer print decimal
      ([pretty]); a [dict] keyed by strings is a [gmap string _]; a [set] of
      strings is a [gset string].
    - Values whose Python type the code does not fix (cells of a result
      row, session settings, the SQL NULL of an argument) are [pyval].
    - [plpy], [presto_client] and [time] are outside the repository: the
      local session is an abstract state [db] with transition functions,
      the remote engine and the clock are an abstract [env].
    - A statement sequence is a computation in the monad [M]: it threads
      the interpreter state and either returns or raises. *)

From Equations Require Import Equations.
From Stdlib Require Import Ascii QArith.QArith_base.
From stdpp Require Import base option list gmap strings sorting pretty.

Close Scope Q_scope.

(** ** Python values *)

#[local] Set Warnings "-register-all".

Inductive pyval : Type :=
| PyNone
| PyBool (b : bool)
| PyInt (n : Z)
| PyStr (s : string)
| PyList (items : list pyval).

(** [a == b]. A bool is an int in Python, so [True == 1]. *)
Fixpoint py_eq (a b : pyval) {struct a} : bool :=
  match a, b with
  | PyNone, PyNone => true
  | PyBool x, PyBool y => bool_decide (x = y)
  | PyBool x, PyInt n => bool_decide ((if x then 1 else 0)%Z = n)
  | PyInt n, PyBool x => bool_decide (n = (if x then 1 else 0)%Z)
  | PyInt m, PyInt n => bool_decide (m = n)
  | PyStr s, PyStr t => bool_decide (s = t)
  | PyList l, PyList m =>
      (fix go (l m : list pyval) {struct l} : bool :=
         match l, m with
         | [], [] => true
         | x :: l', y :: m' => py_eq x y && go l' m'
         | _, _ => false
         end) l m
  | _, _ => false
  end.

(** [bool(a)], as used by [not a] and [if a:]. *)
Definition py_truthy (a : pyval) : bool :=
  match a with
  | PyNone => false
  | PyBool b => b
  | PyInt n => negb (bool_decide (n = 0%Z))
  | PyStr s => negb (bool_decide (s = ""))
  | PyList l => negb (bool_decide (l = []))
  end.

(** ** Constants *)

(** Maximum length for identifiers, from pg_config_manual.h. *)
Definition PG_NAMEDATALEN : nat := 64.

(** ** Type mappers *)

(** convert Presto query result field types to PostgreSQL types *)
Definition _pg_result_type (presto_type : string) : string :=
  if bool_decide (presto_type = "varchar") then "varchar(255)"
  else if bool_decide (presto_type = "varbinary") then "bytea"
  else if bool_decide (presto_type = "double") then "double precision"
  else presto_type.

(** convert Presto table column types to PostgreSQL types *)
Definition _pg_table_type (presto_type : string) : string :=
  if bool_decide (presto_type = "varchar") then "varchar(255)"
  else if bool_decide (presto_type = "varbinary") then "bytea"
  else if bool_decide (presto_type = "double") then "double precision"
  else presto_type.

(** ** The inner loop of the identifier deduplicator

    [while name in used_names: name += "_"].  Every turn makes [name]
    one character longer, and a name longer than every used name is not
    used, so the loop ends. *)

Definition longest (used : gset string) : nat :=
  foldr Nat.max 0 (String.length <$> elements used).

Lemma longest_bound (used : gset string) (name : string) :
  name ∈ used → String.length name ≤ longest used.
Proof.
  unfold longest. rewrite <- elem_of_elements.
  induction (elements used) as [|u us IH]; intros Hin.
  - by apply elem_of_nil in Hin.
  - rewrite fmap_cons. cbn [foldr].
    apply elem_of_cons in Hin as [->|Hin].
    + apply Nat.le_max_l.
    + etrans; [exact (IH Hin)|apply Nat.le_max_r].
Qed.

Lemma length_append_underscore (name : string) :
  String.length (name +:+ "_") = S (String.length name).
Proof. induction name as [|a name IH]; simpl; [done|]. by rewrite IH. Qed.

Equations? first_unused (used : gset string) (name : string) : string
  by wf (S (longest used) - String.length name) lt :=
  first_unused used name with decide (name ∈ used) => {
    | left _ := first_unused used (name +:+ "_");
    | right _ := name }.
Proof.
  rewrite length_append_underscore.
  pose proof (longest_bound used name e). lia.
Qed.

(** ** Exceptions, records and the objects of the two client libraries *)

Inductive exn : Type :=
| SPIError (msg : string)          (* plpy.SPIError and its subclasses *)
| PrestoException (msg : string)   (* presto_client.PrestoException *)
| UnboundLocalError (var : string)
| IndexError
| KeyError (key : string)
| TypeError
| ValueError
| OtherError (class_name : string).

(** The class named in an [except] clause, the "category" of a failure. *)
Inductive exn_class : Type :=
| CSPIError | CPrestoException | CUnboundLocalError | CIndexError
| CKeyError | CTypeError | CValueError | COther (class_name : string).

Definition class_of (e : exn) : exn_class :=
  match e with
  | SPIError _ => CSPIError
  | PrestoException _ => CPrestoException
  | UnboundLocalError _ => CUnboundLocalError
  | IndexError => CIndexError
  | KeyError _ => CKeyError
  | TypeError => CTypeError
  | ValueError => CValueError
  | OtherError c => COther c
  end.

(** [Column = namedtuple("Column", ("name", "type", "nullable"))] *)
Record Column : Type := {
  Column_name : string;
  Column_type : string;
  Column_nullable : pyval;
}.

(** [QueryResult = namedtuple("QueryResult",
      ("column_names", "column_types", "result"))] *)
Record QueryResult : Type := {
  QueryResult_column_names : list string;
  QueryResult_column_types : list pyval;
  QueryResult_result : list (list pyval);
}.

(** [presto_client.Client(server=, user=, catalog=, schema=, time_zone=)] *)
Record Client : Type := {
  Client_server : pyval;
  Client_user : pyval;
  Client_catalog : pyval;
  Client_schema : pyval;
  Client_time_zone : pyval;
}.

(** One row of
    [select table_schema, table_name, column_name, is_nullable, data_type
     from information_schema.columns] as the remote engine answers it.
    The code takes [len] of the three names and compares the type with
    strings; it only negates [is_nullable]. *)
Record catalog_row : Type := {
  table_schema : string;
  table_name : string;
  column_name : string;
  is_nullable : pyval;
  data_type : string;
}.

(** A one-pass row generator: it ends, or raises after some rows. *)
Inductive rows_iter : Type :=
| RowsEnd
| RowsRaise (e : exn)
| RowsNext (row : list pyval) (rest : rows_iter).

Fixpoint iter_of_list (rows : list (list pyval)) : rows_iter :=
  match rows with
  | [] => RowsEnd
  | row :: rest => RowsNext row (iter_of_list rest)
  end.

(** The object [client.query(query)] returns. *)
Record presto_query : Type := {
  q_columns : exn + list (string * string);   (* [(column.name, column.type)] *)
  q_results : rows_iter;
}.

(** What [plpy.execute] returns: [colnames()]/[coltypes()] (absent when the
    command produced no result set) and the rows, each a dict keyed by
    column name. *)
Record spi_result : Type := {
  res_columns : option (list (string * Z));
  res_rows : list (gmap string pyval);
}.

(** What [plpy.prepare] returns. *)
Record plan : Type := {
  plan_query : string;
  plan_argtypes : list string;
}.

(** [class SchemaCache]. A field holds [None] until [set_cache] runs;
    [query_cache] holds a reference to a dict object. *)
Record SchemaCache : Type := {
  self_server : pyval;
  self_user : pyval;
  self_catalog : pyval;
  self_schema : pyval;
  self_schema_names : option (list string);
  self_statements : option (list string);
  self_expire_time : option Q;
  self_query_cache : nat;
}.

(** Calls that leave the interpreter, in the order they are made. *)
Inductive event : Type :=
| EWarning (msg : string)
| EExecute (sql : string)
| ECursor (sql : string)
| EPrepare (sql : string) (argtypes : list string)
| EExecutePlan (p : plan) (args : list pyval)
| ESubxactEnter
| ESubxactExit (rollback : bool)
| EPrestoRun (c : Client) (sql : string)
| EPrestoQuery (c : Client) (sql : string)
| EPrestoClose.

(** ** The world outside the module *)

Record World (db env : Type) : Type := {
  (* plpy.quote_ident, plpy.quote_literal *)
  quote_ident : string → string;
  quote_literal : string → string;
  (* plpy.execute(sql): a failed statement leaves the session as it was *)
  spi_execute : string → db → exn + (spi_result * db);
  (* plpy.cursor(sql): the rows the cursor yields *)
  spi_cursor : string → db → exn + list (gmap string pyval);
  (* plpy.prepare(sql, argtypes) *)
  spi_prepare : string → list string → db → option exn;
  (* plpy.execute(plan, args) *)
  spi_execute_plan : plan → list pyval → db → exn + db;
  (* time.time() *)
  time_time : env → Q * env;
  (* client.run(sql): the rows, or None *)
  presto_run :
    Client → string → env → (exn + option (list catalog_row)) * env;
  (* client.query(sql) *)
  presto_submit : Client → string → env → (exn + presto_query) * env;
}.
Arguments quote_ident {db env}.
Arguments quote_literal {db env}.
Arguments spi_execute {db env}.
Arguments spi_cursor {db env}.
Arguments spi_prepare {db env}.
Arguments spi_execute_plan {db env}.
Arguments time_time {db env}.
Arguments presto_run {db env}.
Arguments presto_submit {db env}.

(** ** Interpreter state *)

Record state (db env : Type) : Type := {
  st_db : db;                          (* the local session: catalog, data, role *)
  st_env : env;                        (* the remote engine and the clock *)
  st_subxacts : list db;               (* open plpy.subtransaction scopes *)
  st_trace : list event;
  SchemaCacheEntry : SchemaCache;      (* module global *)
  st_dicts : list (gmap string QueryResult);  (* the dict objects, by reference *)
  OidToTypeNameMapping : gmap Z pyval; (* module global *)
  st_main_classes : list exn_class;    (* classes whose __module__ is "__main__" *)
}.
Arguments st_db {db env}.
Arguments st_env {db env}.
Arguments st_subxacts {db env}.
Arguments st_trace {db env}.
Arguments SchemaCacheEntry {db env}.
Arguments st_dicts {db env}.
Arguments OidToTypeNameMapping {db env}.
Arguments st_main_classes {db env}.

Section Setters.
Context {db env : Type}.
Implicit Types s : state db env.

Definition set_db (d : db) s : state db env :=
  {| st_db := d; st_env := st_env s; st_subxacts := st_subxacts s;
     st_trace := st_trace s; SchemaCacheEntry := SchemaCacheEntry s;
     st_dicts := st_dicts s; OidToTypeNameMapping := OidToTypeNameMapping s;
     st_main_classes := st_main_classes s |}.
Definition set_env (e : env) s : state db env :=
  {| st_db := st_db s; st_env := e; st_subxacts := st_subxacts s;
     st_trace := st_trace s; SchemaCacheEntry := SchemaCacheEntry s;
     st_dicts := st_dicts s; OidToTypeNameMapping := OidToTypeNameMapping s;
     st_main_classes := st_main_classes s |}.
Definition set_subxacts (x : list db) s : state db env :=
  {| st_db := st_db s; st_env := st_env s; st_subxacts := x;
     st_trace := st_trace s; SchemaCacheEntry := SchemaCacheEntry s;
     st_dicts := st_dicts s; OidToTypeNameMapping := OidToTypeNameMapping s;
     st_main_classes := st_main_classes s |}.
Definition set_trace (t : list event) s : state db env :=
  {| st_db := st_db s; st_env := st_env s; st_subxacts := st_subxacts s;
     st_trace := t; SchemaCacheEntry := SchemaCacheEntry s;
     st_dicts := st_dicts s; OidToTypeNameMapping := OidToTypeNameMapping s;
     st_main_classes := st_main_classes s |}.
Definition set_SchemaCacheEntry (c : SchemaCache) s : state db env :=
  {| st_db := st_db s; st_env := st_env s; st_subxacts := st_subxacts s;
     st_trace := st_trace s; SchemaCacheEntry := c;
     st_dicts := st_dicts s; OidToTypeNameMapping := OidToTypeNameMapping s;
     st_main_classes := st_main_classes s |}.
Definition set_dicts (h : list (gmap string QueryResult)) s : state db env :=
  {| st_db := st_db s; st_env := st_env s; st_subxacts := st_subxacts s;
     st_trace := st_trace s; SchemaCacheEntry := SchemaCacheEntry s;
     st_dicts := h; OidToTypeNameMapping := OidToTypeNameMapping s;
     st_main_classes := st_main_classes s |}.
Definition set_OidToTypeNameMapping (m : gmap Z pyval) s : state db env :=
  {| st_db := st_db s; st_env := st_env s; st_subxacts := st_subxacts s;
     st_trace := st_trace s; SchemaCacheEntry := SchemaCacheEntry s;
     st_dicts := st_dicts s; OidToTypeNameMapping := m;
     st_main_classes := st_main_classes s |}.
Definition set_main_classes (l : list exn_class) s : state db env :=
  {| st_db := st_db s; st_env := st_env s; st_subxacts := st_subxacts s;
     st_trace := st_trace s; SchemaCacheEntry := SchemaCacheEntry s;
     st_dicts := st_dicts s; OidToTypeNameMapping := OidToTypeNameMapping s;
     st_main_classes := l |}.
End Setters.

(** ** The monad of statement sequences *)

Definition M (db env A : Type) : Type :=
  state db env → (exn + A) * state db env.

Section Monad.
Context {db env : Type}.
#[local] Abbreviation M := (M db env).

Definition ret {A} (a : A) : M A := λ s, (inr a, s).
Definition raise {A} (e : exn) : M A := λ s, (inl e, s).
Definition bind {A B} (m : M A) (k : A → M B) : M B :=
  λ s, match m s with
       | (inl e, s') => (inl e, s')
       | (inr a, s') => k a s'
       end.

(** [try: m finally: fin]; an exception of [fin] replaces the pending one. *)
Definition try_finally {A} (m : M A) (fin : M unit) : M A :=
  λ s, match m s with
       | (r, s') =>
           match fin s' with
           | (inl e, s'') => (inl e, s'')
           | (inr _, s'') => (r, s'')
           end
       end.

(** [try: m except <classes> as e: h e] *)
Definition try_except {A} (m : M A) (catches : exn → bool) (h : exn → M A) : M A :=
  λ s, match m s with
       | (inl e, s') => if catches e then h e s' else (inl e, s')
       | (inr a, s') => (inr a, s')
       end.

(** [for x in xs: body], with the loop-carried locals as accumulator. *)
Fixpoint for_each {A B} (xs : list A) (body : B → A → M B) (acc : B) : M B :=
  match xs with
  | [] => ret acc
  | x :: xs' => bind (body acc x) (for_each xs' body)
  end.

Definition lift {A} (r : exn + A) : M A := λ s, (r, s).
Definition get_state : M (state db env) := λ s, (inr s, s).
Definition modify (f : state db env → state db env) : M unit :=
  λ s, (inr (), f s).
End Monad.

Notation "x <- m ;; k" := (bind m (λ x, k))
  (at level 100, m at next level, right associativity,
   format "'[v' x  <-  m  ;;  '/' k ']'").
Notation "m >> k" := (bind m (λ _, k))
  (at level 100, right associativity,
   format "'[v' m  >>  '/' k ']'").

(** ** Small pieces of Python *)

(** The newline of ["\n"]. *)
Definition NL : string := String "010"%char "".

(** [current_time < expire_time] on the clock's readings. *)
Definition Qltb (x y : Q) : bool :=
  (Qnum x * Zpos (Qden y) <? Qnum y * Zpos (Qden x))%Z.

(** [''.join(pieces)]: TypeError on an item that is not a string. *)
Fixpoint join (pieces : list pyval) : exn + string :=
  match pieces with
  | [] => inr ""
  | PyStr s :: rest =>
      match join rest with
      | inr r => inr (s +:+ r)
      | inl e => inl e
      end
  | _ :: _ => inl TypeError
  end.

(** The strings of a list whose items are all [str]. *)
Fixpoint strings_of (l : list pyval) : option (list string) :=
  match l with
  | [] => Some []
  | PyStr s :: rest => cons s <$> strings_of rest
  | _ :: _ => None
  end.

(** [len(v)] *)
Definition py_len (v : pyval) : exn + nat :=
  match v with
  | PyStr s => inr (String.length s)
  | PyList l => inr (length l)
  | _ => inl TypeError
  end.

(** [v[0]] *)
Definition py_first (v : pyval) : exn + pyval :=
  match v with
  | PyStr (String a _) => inr (PyStr (String a ""))
  | PyList (x :: _) => inr x
  | PyStr "" | PyList [] => inl IndexError
  | _ => inl TypeError
  end.

(** [int(v)] for a decimal string, an int or a bool. *)
Fixpoint digits_value (s : string) (acc : Z) : option Z :=
  match s with
  | "" => Some acc
  | String a rest =>
      d ← Ascii.is_nat a; digits_value rest (10 * acc + Z.of_nat d)%Z
  end.

Definition py_int (v : pyval) : exn + Z :=
  match v with
  | PyInt n => inr n
  | PyBool b => inr (if b then 1 else 0)%Z
  | PyStr "" => inl ValueError
  | PyStr (String "-"%char s) =>
      match s, digits_value s 0 with
      | String _ _, Some n => inr (- n)%Z
      | _, _ => inl ValueError
      end
  | PyStr s => from_option inr (inl ValueError) (digits_value s 0)
  | _ => inl TypeError
  end.

(** [row.values()] and [row.get(key)] of a result row. *)
Definition row_values (row : gmap string pyval) : list pyval :=
  (map_to_list row).*2.
Definition row_get (row : gmap string pyval) (key : string) : pyval :=
  default PyNone (row !! key).

(** ** The module, over a world *)

Section Program.
Context {db env : Type} (W : World db env).
#[local] Abbreviation M := (M db env).

(** *** plpy, presto_client and time as computations *)

Definition log (e : event) : M unit :=
  modify (λ s, set_trace (st_trace s ++ [e]) s).

Definition plpy_warning (msg : string) : M unit := log (EWarning msg).

Definition plpy_execute (sql : string) : M spi_result :=
  log (EExecute sql) >>
  λ s, match spi_execute W sql (st_db s) with
       | inl e => (inl e, s)
       | inr (r, d) => (inr r, set_db d s)
       end.

Definition plpy_cursor (sql : string) : M (list (gmap string pyval)) :=
  log (ECursor sql) >> λ s, (spi_cursor W sql (st_db s), s).

Definition plpy_prepare (sql : string) (argtypes : list string) : M plan :=
  log (EPrepare sql argtypes) >>
  λ s, match spi_prepare W sql argtypes (st_db s) with
       | Some e => (inl e, s)
       | None => (inr {| plan_query := sql; plan_argtypes := argtypes |}, s)
       end.

Definition plpy_execute_plan (p : plan) (args : list pyval) : M unit :=
  log (EExecutePlan p args) >>
  λ s, match spi_execute_plan W p args (st_db s) with
       | inl e => (inl e, s)
       | inr d => (inr (), set_db d s)
       end.

(** [subxact = plpy.subtransaction(); subxact.enter()] *)
Definition subxact_enter : M unit :=
  log ESubxactEnter >>
  modify (λ s, set_subxacts (st_db s :: st_subxacts s) s).

(** [subxact.exit(exc_type, exc_value, traceback)]: PL/Python releases
    (commits) the subtransaction when [exc_type] is the object [None]
    and rolls it back to the state at [enter] otherwise. *)
Definition subxact_exit (exc_type : pyval) : M unit :=
  let rollback := match exc_type with PyNone => false | _ => true end in
  s <- get_state ;;
  match st_subxacts s with
  | [] => raise ValueError   (* this subtransaction has not been entered *)
  | saved :: outer =>
      log (ESubxactExit rollback) >>
      modify (λ s, set_subxacts outer (if rollback then set_db saved s else s))
  end.

Definition time_time_ : M Q :=
  λ s, let '(t, e) := time_time W (st_env s) in (inr t, set_env e s).

Definition client_run (client : Client) (sql : string)
  : M (option (list catalog_row)) :=
  log (EPrestoRun client sql) >>
  λ s, let '(r, e) := presto_run W client sql (st_env s) in (r, set_env e s).

Definition client_query (client : Client) (sql : string) : M presto_query :=
  log (EPrestoQuery client sql) >>
  λ s, let '(r, e) := presto_submit W client sql (st_env s) in (r, set_env e s).

Definition q_close : M unit := log EPrestoClose.

(** [d = {}], [d.get(key)], [d[key] = value] on a dict object. *)
Definition new_dict : M nat :=
  s <- get_state ;;
  modify (set_dicts (st_dicts s ++ [∅])) >> ret (length (st_dicts s)).

Definition dict_get (d : nat) (key : string) : M (option QueryResult) :=
  s <- get_state ;;
  ret (st_dicts s !! d ≫= λ m, m !! key).

Definition dict_set (d : nat) (key : string) (value : QueryResult) : M unit :=
  modify (λ s, set_dicts (alter (insert key value) d (st_dicts s)) s).

(** *** Identifier deduplicator *)

(** queries can include same column name twice but tables can't. *)
(** One turn of [for original_name in column_names]; the accumulator
    is [renamed] and [used_names]. *)
Definition rename_one
    (acc : list string * gset string) (original_name : string)
  : M (list string * gset string) :=
  let '(renamed, used_names) := acc in
  let name := first_unused used_names original_name in
  (if bool_decide (name ≠ original_name)
   then plpy_warning
          ("Result column " +:+ quote_ident W original_name
           +:+ " is renamed to " +:+ quote_ident W name
           +:+ " because the name appears twice in a query result")
   else ret ()) >>
  ret (renamed ++ [name], {[name]} ∪ used_names).

Definition _rename_duplicated_column_names (column_names : list string)
  : M (list string) :=
  r <- for_each column_names rename_one ([], ∅) ;;
  ret r.1.

(** *** SQL builders *)

(** build CREATE TEMPORARY TABLE statement *)
Definition _build_create_temp_table_sql
    (table_name : string) (column_names : list string)
    (column_types : list pyval) : exn + string :=
  let create_sql :=
    [PyStr ("create temporary table " +:+ quote_ident W table_name
            +:+ " (" +:+ NL +:+ "  ")] in
  let '(create_sql, first) :=
    foldl (λ '(create_sql, first) '(column_name, column_type),
             let create_sql :=
               if first : bool then create_sql
               else create_sql ++ [PyStr ("," +:+ NL +:+ "  ")] in
             (create_sql ++ [PyStr (quote_ident W column_name); PyStr " ";
                             column_type], false))
          (create_sql, true) (zip column_names column_types) in
  join (create_sql ++ [PyStr (NL +:+ ")")]).

(** build CREATE TABLE statement *)
Definition _build_alter_table_holder_sql
    (schema_name table_name : string) (column_names column_types : list string)
    (not_nulls : list bool) : string :=
  let alter_sql :=
    ["alter table " +:+ quote_ident W schema_name +:+ "."
     +:+ quote_ident W table_name +:+ " " +:+ NL +:+ "  "] in
  let '(alter_sql, first) :=
    foldl (λ '(alter_sql, first) '(column_name, (column_type, not_null)),
             let alter_sql :=
               if first : bool then alter_sql
               else alter_sql ++ ["," +:+ NL +:+ "  "] in
             let alter_sql :=
               alter_sql ++ ["add " +:+ quote_ident W column_name +:+ " "
                             +:+ column_type] in
             (if not_null : bool then alter_sql ++ [" not null"] else alter_sql,
              false))
          (alter_sql, true) (zip column_names (zip column_types not_nulls)) in
  String.concat "" alter_sql.

(** build INSERT INTO statement and string format to build VALUES (..), ... *)
Definition _build_insert_into_sql
    (table_name : string) (column_names : list string) : string :=
  let insert_sql :=
    ["insert into " +:+ quote_ident W table_name +:+ " (" +:+ NL +:+ "  "] in
  let '(insert_sql, first) :=
    foldl (λ '(insert_sql, first) column_name,
             let insert_sql :=
               if first : bool then insert_sql
               else insert_sql ++ ["," +:+ NL +:+ "  "] in
             (insert_sql ++ [quote_ident W column_name], false))
          (insert_sql, true) column_names in
  String.concat "" (insert_sql ++ [NL +:+ ") values" +:+ NL]).

(** *** Batch loader *)

(** The text [_plan_batch] joins: [batch_size] value lists, the place
    holders numbered from 1 across the whole statement. *)
Definition batch_insert_text
    (insert_sql : string) (column_types : list string) (batch_size : nat)
  : string :=
  let '(batch_isnert_sql, first, index) :=
    foldl (λ '(batch_isnert_sql, first, index) (i : nat),
             let batch_isnert_sql :=
               if first : bool then batch_isnert_sql
               else batch_isnert_sql ++ [", "] in
             let batch_isnert_sql := batch_isnert_sql ++ ["("] in
             let '(batch_isnert_sql, value_first, index) :=
               foldl (λ '(batch_isnert_sql, value_first, index) column_type,
                        let batch_isnert_sql :=
                          if value_first : bool then batch_isnert_sql
                          else batch_isnert_sql ++ [", "] in
                        (batch_isnert_sql
                           ++ ["$" +:+ pretty (index : nat) +:+ "::" +:+ column_type],
                         false, S index))
                     (batch_isnert_sql, true, index) column_types in
             (batch_isnert_sql ++ [")"], false, index))
          ([insert_sql], true, 1) (seq 0 batch_size) in
  String.concat "" batch_isnert_sql.

(** create a prepared statement for batch INSERT.

    [plpy.prepare] refuses an argument type that is not a [str] with an
    SPIError; the argument list is [column_types * batch_size], so when
    it is accepted and [batch_size] is positive every column type is a
    [str], the one [%s] prints. *)
Definition _plan_batch
    (insert_sql : string) (column_types : list pyval) (batch_size : nat)
  : M plan :=
  match strings_of (mjoin (replicate batch_size column_types)) with
  | None => raise (SPIError "plpy.prepare: type name is not a string")
  | Some argtypes =>
      plpy_prepare
        (batch_insert_text insert_sql
           (take (length column_types) argtypes) batch_size)
        argtypes
  end.

(** The [for row in rows] loop of [_batch_insert]; it returns the
    rows still buffered when the generator ends. *)
Fixpoint _batch_insert_loop
    (insert_sql : string) (batch_size : Z) (column_types : list pyval)
    (rows : rows_iter) (full_batch_plan : option plan)
    (batch : list (list pyval)) : M (list (list pyval)) :=
  match rows with
  | RowsEnd => ret batch
  | RowsRaise e => raise e
  | RowsNext row rows =>
      let batch := batch ++ [row] in
      let batch_len := length batch in
      if bool_decide (batch_size ≤ Z.of_nat batch_len)%Z then
        full_batch_plan <-
          match full_batch_plan with
          | None => _plan_batch insert_sql column_types batch_len
          | Some p => ret p
          end ;;
        plpy_execute_plan full_batch_plan (mjoin batch) >>
        _batch_insert_loop insert_sql batch_size column_types rows
          (Some full_batch_plan) []
      else
        _batch_insert_loop insert_sql batch_size column_types rows
          full_batch_plan batch
  end.

(** run batch INSERT *)
Definition _batch_insert
    (insert_sql : string) (batch_size : Z) (column_types : list pyval)
    (rows : rows_iter) : M unit :=
  batch <- _batch_insert_loop insert_sql batch_size column_types rows None [] ;;
  match batch with
  | [] => ret ()
  | _ :: _ =>
      plan <- _plan_batch insert_sql column_types (length batch) ;;
      plpy_execute_plan plan (mjoin batch)
  end.

(** *** Schema and query cache *)

(** [SchemaCache.__init__]; the dict of [query_cache] is at [query_cache]. *)
Definition SchemaCache_init (query_cache : nat) : SchemaCache :=
  {| self_server := PyNone; self_user := PyNone; self_catalog := PyNone;
     self_schema := PyNone; self_schema_names := None;
     self_statements := None; self_expire_time := None;
     self_query_cache := query_cache |}.

(** [SchemaCache.is_cached]. Python 2 orders [None] below every number,
    so [current_time < None] is false. *)
Definition is_cached (self : SchemaCache)
    (server user catalog schema : pyval) (current_time : Q) : bool :=
  py_eq (self_server self) server && py_eq (self_user self) user
  && py_eq (self_catalog self) catalog && py_eq (self_schema self) schema
  && bool_decide (is_Some (self_statements self))
  && match self_expire_time self with
     | Some expire_time => Qltb current_time expire_time
     | None => false
     end.

(** [SchemaCache.set_cache], on the module's [SchemaCacheEntry]. *)
Definition set_cache
    (server user catalog schema : pyval) (schema_names statements : list string)
    (expire_time : Q) : M unit :=
  query_cache <- new_dict ;;
  modify (set_SchemaCacheEntry
            {| self_server := server; self_user := user;
               self_catalog := catalog; self_schema := schema;
               self_schema_names := Some schema_names;
               self_statements := Some statements;
               self_expire_time := Some expire_time;
               self_query_cache := query_cache |}).

(** *** Session settings *)

Definition first_value (rows : spi_result) : M pyval :=
  match res_rows rows with
  | [] => raise IndexError
  | row :: _ =>
      match row_values row with
      | [] => raise IndexError
      | v :: _ => ret v
      end
  end.

Definition _get_session_time_zone : M pyval :=
  rows <- plpy_execute "show timezone" ;;
  first_value rows.

Definition _get_session_search_path_array : M pyval :=
  rows <- plpy_execute
            "select ('{' || current_setting('search_path') || '}')::text[]" ;;
  first_value rows.

(** *** Type names of result columns *)

(** information_schema on PostgreSQL have some special column types where
    CREATE TABLE can't use the types (although SELECT returns the types). *)
Definition _pg_convert_infoschema_type (infoschema_type : pyval) : pyval :=
  if py_eq infoschema_type (PyStr "sql_identifier") then PyStr "name"
  else if py_eq infoschema_type (PyStr "cardinal_number") then PyStr "int"
  else if py_eq infoschema_type (PyStr "character_data") then PyStr "name"
  else if py_eq infoschema_type (PyStr "yes_or_no") then PyStr "text"
  else infoschema_type.

Definition row_item (row : gmap string pyval) (key : string) : M pyval :=
  match row !! key with
  | Some v => ret v
  | None => raise (KeyError key)
  end.

Definition _load_oid_to_type_name_mapping (oids : list Z)
  : M (gmap Z pyval) :=
  s <- get_state ;;
  let oids :=
    filter (λ oid, OidToTypeNameMapping s !! oid = None) oids in
  (match oids with
   | [] => ret ()
   | _ :: _ =>
       let sql :=
         "select oid, typname from pg_catalog.pg_type where oid in ("
         +:+ String.concat ", " (pretty <$> oids) +:+ ")" in
       rows <- plpy_execute sql ;;
       for_each (res_rows rows)
         (λ _ row,
            typname <- row_item row "typname" ;;
            let type_name := _pg_convert_infoschema_type typname in
            oid_value <- row_item row "oid" ;;
            oid <- lift (py_int oid_value) ;;
            modify (λ s, set_OidToTypeNameMapping
                           (<[oid := type_name]> (OidToTypeNameMapping s)) s))
         ()
   end) >>
  s <- get_state ;;
  ret (OidToTypeNameMapping s).

(** *** Error normalisation shared by the two entry points *)

(** [except (plpy.SPIError, presto_client.PrestoException) as e:] *)
Definition caught (e : exn) : bool :=
  match e with
  | SPIError _ | PrestoException _ => true
  | _ => false
  end.

(** [e.__class__.__module__ = "__main__"; raise] *)
Definition set_module_and_reraise {A} (e : exn) : M A :=
  modify (λ s, set_main_classes (class_of e :: st_main_classes s) s) >>
  raise e.

(** [plpy.quote_ident(v)] of a value read from a row. *)
Definition quote_ident_value (v : pyval) : M string :=
  match v with
  | PyStr name => ret (quote_ident W name)
  | _ => raise TypeError
  end.

(** The tail both entry points share: dedupe the names, build the DDL,
    run CREATE TABLE and INSERT. *)
Definition create_and_insert
    (result_table : string) (column_names : list string)
    (column_types : list pyval) (rows : rows_iter) : M unit :=
  column_names <- _rename_duplicated_column_names column_names ;;
  create_sql <- lift (_build_create_temp_table_sql result_table
                        column_names column_types) ;;
  let insert_sql := _build_insert_into_sql result_table column_names in
  plpy_execute ("drop table if exists " +:+ quote_ident W result_table) >>
  plpy_execute create_sql >>
  _batch_insert insert_sql 10 column_types rows.

(** *** run_presto_as_temp_table *)

(** Lines 219-222: the schema the remote client is opened with. *)
Definition choose_schema (schema search_path : pyval) : M pyval :=
  if negb (py_eq search_path (PyList [PyStr "$user"; PyStr "public"])) then
    n <- lift (py_len search_path) ;;
    if bool_decide (0 < n) then
      (* search_path is changed explicitly. Use the first schema *)
      lift (py_first search_path)
    else ret schema
  else ret schema.

Definition run_presto_as_temp_table
    (server user catalog schema : pyval) (result_table query : string)
  : M unit :=
  try_except
    (search_path <- _get_session_search_path_array ;;
     schema <- choose_schema schema search_path ;;
     time_zone <- _get_session_time_zone ;;
     let client :=
       {| Client_server := server; Client_user := user;
          Client_catalog := catalog; Client_schema := schema;
          Client_time_zone := time_zone |} in
     (* create_sql, insert_sql and values_types of lines 226-228 are
        assigned again, or never read, before any use *)
     q <- client_query client query ;;
     try_finally
       ((* result schema *)
        columns <- lift (q_columns q) ;;
        let column_names := columns.*1 in
        let column_types := (PyStr ∘ _pg_result_type) <$> columns.*2 in
        create_and_insert result_table column_names column_types (q_results q))
       q_close)
    caught set_module_and_reraise.

(** *** run_system_catalog_as_temp_table *)

(** [sorted(d.items(), key=lambda (k,v): k)] *)
Definition key_le {V} (a b : string * V) : Prop := String.le a.1 b.1.
#[local] Instance key_le_dec {V} : RelDecision (@key_le V).
Proof. intros a b. unfold key_le. apply _. Defined.
Definition sorted_items {V} (d : gmap string V) : list (string * V) :=
  merge_sort key_le (map_to_list d).

Definition skipped_msg (what qualified_name : string) : string :=
  what +:+ " " +:+ qualified_name
  +:+ " is skipped because its name is longer than "
  +:+ pretty (PG_NAMEDATALEN - 1) +:+ " characters".

(** One turn of [for row in rows] (lines 282-309). The accumulator is
    [schemas] and the local [schema_name], which stays bound after the
    loop. *)
Definition discover_row
    (acc : gmap string (gmap string (list Column)) * option string)
    (row : catalog_row)
  : M (gmap string (gmap string (list Column)) * option string) :=
  let schemas := acc.1 in
  let schema_name := table_schema row in
  let table_name := table_name row in
  let column_name := column_name row in
  let is_nullable := is_nullable row in
  let column_type := data_type row in
  if bool_decide (PG_NAMEDATALEN - 1 < String.length schema_name) then
    plpy_warning (skipped_msg "Schema" (quote_ident W schema_name)) >>
    ret (schemas, Some schema_name)
  else
    (* tables = schemas.setdefault(schema_name, {}) *)
    let tables := default ∅ (schemas !! schema_name) in
    let schemas := <[schema_name := tables]> schemas in
    if bool_decide (PG_NAMEDATALEN - 1 < String.length table_name) then
      plpy_warning
        (skipped_msg "Table"
           (quote_ident W schema_name +:+ "." +:+ quote_ident W table_name)) >>
      ret (schemas, Some schema_name)
    else
      (* columns = tables.setdefault(table_name, []) *)
      let columns := default [] (tables !! table_name) in
      let tables := <[table_name := columns]> tables in
      let schemas := <[schema_name := tables]> schemas in
      if bool_decide (PG_NAMEDATALEN - 1 < String.length column_name) then
        plpy_warning
          (skipped_msg "Column"
             (quote_ident W schema_name +:+ "." +:+ quote_ident W table_name
              +:+ "." +:+ quote_ident W column_name)) >>
        ret (schemas, Some schema_name)
      else
        let columns :=
          columns ++ [{| Column_name := column_name;
                         Column_type := column_type;
                         Column_nullable := is_nullable |}] in
        ret (<[schema_name := <[table_name := columns]> tables]> schemas,
             Some schema_name).

(** One turn of [for table_name, columns in sorted(tables.items(), ...)]. *)
Definition plan_table (schema_name : string)
    (acc : list string * nat) (item : string * list Column)
  : list string * nat :=
  let '(statements, table_holder_id) := acc in
  let '(table_name, columns) := item in
  (* table schema *)
  let column_names := Column_name <$> columns in
  let column_types := (_pg_table_type ∘ Column_type) <$> columns in
  let not_nulls := (negb ∘ py_truthy ∘ Column_nullable) <$> columns in
  (* rename table holder into the schema *)
  let statements :=
    statements ++
      ["alter table prestogres_catalog.table_holder_" +:+ pretty table_holder_id
       +:+ " set schema " +:+ quote_ident W schema_name] in
  let statements :=
    statements ++
      ["alter table " +:+ quote_ident W schema_name +:+ ".table_holder_"
       +:+ pretty table_holder_id +:+ " rename to "
       +:+ quote_ident W table_name] in
  (* change columns *)
  let alter_sql :=
    _build_alter_table_holder_sql schema_name table_name
      column_names column_types not_nulls in
  (statements ++ [alter_sql], table_holder_id + 1).

(** One turn of [for schema_name, tables in sorted(schemas.items(), ...)]. *)
Definition plan_schema
    (acc : list string * list string * nat * option string)
    (item : string * gmap string (list Column))
  : list string * list string * nat * option string :=
  let '(statements, schema_names, table_holder_id, _) := acc in
  let '(schema_name, tables) := item in
  if bool_decide (schema_name = "sys")
     || bool_decide (schema_name = "information_schema") then
    (* skip system schemas *)
    (statements, schema_names, table_holder_id, Some schema_name)
  else
    let schema_names := schema_names ++ [schema_name] in
    let '(statements, table_holder_id) :=
      foldl (plan_table schema_name) (statements, table_holder_id)
        (sorted_items tables) in
    (statements, schema_names, table_holder_id, Some schema_name).

(** generate SQL statements (lines 311-353) *)
Definition generate_statements
    (login_user : string) (schemas : gmap string (gmap string (list Column)))
    (schema_name : option string)
  : list string * list string * option string :=
  let statements := [] in
  let schema_names := [] in
  (* create a restricted user using the same name with the login user name to pgpool2 *)
  let statements :=
    statements ++
      ["do $$ begin if not exists (select * from pg_catalog.pg_roles where rolname="
       +:+ quote_literal W login_user +:+ ") then create role "
       +:+ quote_ident W login_user +:+ " with login; end if; end $$"] in
  (* grant access on the all table holders to the restricted user *)
  let statements :=
    statements ++
      ["grant select on all tables in schema prestogres_catalog to "
       +:+ quote_ident W login_user] in
  let table_holder_id := 0 in
  let '(statements, schema_names, table_holder_id, schema_name) :=
    foldl plan_schema (statements, schema_names, table_holder_id, schema_name)
      (sorted_items schemas) in
  (statements, schema_names, schema_name).

(** [for x in xs] over a local that may hold [None]. *)
Definition iterable {A} (xs : option (list A)) : M (list A) :=
  match xs with
  | Some l => ret l
  | None => raise TypeError
  end.

(** alter schema holders (lines 380-389). The accumulator is
    [schema_holder_id] and the local [schema_name]. *)
Definition rename_schema_holder
    (acc : nat * option string) (schema_name : string)
  : M (nat * option string) :=
  let schema_holder_id := acc.1 in
  try_except
    (plpy_execute
       ("alter schema prestogres_catalog_schema_holder_"
        +:+ pretty schema_holder_id +:+ " rename to "
        +:+ quote_ident W schema_name) >>
     ret (schema_holder_id + 1, Some schema_name))
    (λ _, true)
    (λ _, (* ignore error? *) ret (schema_holder_id, Some schema_name)).

Definition drop_listed_schemas (sql drop_suffix : string) : M unit :=
  rows <- plpy_cursor sql ;;
  for_each rows
    (λ _ row,
       schema_name <- row_item row "schema_name" ;;
       quoted <- quote_ident_value schema_name ;;
       plpy_execute ("drop schema " +:+ quoted +:+ drop_suffix) >> ret ())
    ().

(** The body of the [try] inside the subtransaction (lines 371-422). *)
Definition mirror_and_query
    (login_user query : string)
    (schema_names statements : option (list string)) (query_cache : nat)
    (schema_name : option string)
  : M (list string * list pyval * list (list pyval)) :=
  (* drop all schemas excepting prestogres_catalog, pg_catalog,
     information_schema, public and schema holders *)
  drop_listed_schemas
    ("select n.nspname as schema_name from pg_catalog.pg_namespace n"
     +:+ " where n.nspname not in ('prestogres_catalog', 'pg_catalog', 'information_schema', 'public')"
     +:+ " and n.nspname not like 'prestogres_catalog_schema_holder_%'"
     +:+ " and n.nspname !~ '^pg_toast'")
    " cascade" >>
  (* alter schema holders *)
  names <- iterable schema_names ;;
  renamed <- for_each names rename_schema_holder (0, schema_name) ;;
  let schema_name := renamed.2 in
  (* alter table holders in prestogres_catalog schema *)
  stmts <- iterable statements ;;
  for_each stmts (λ _ statement, plpy_execute statement >> ret ()) () >>
  (* drop prestogres_catalog schema *)
  plpy_execute "drop schema prestogres_catalog cascade" >>
  (* drop schema holders *)
  drop_listed_schemas
    ("select n.nspname as schema_name from pg_catalog.pg_namespace n"
     +:+ " where n.nspname like 'prestogres_catalog_schema_holder_%'")
    "" >>
  (* update pg_database *)
  schema_name <- match schema_name with
                 | Some name => ret name
                 | None => raise (UnboundLocalError "schema_name")
                 end ;;
  plpy_execute ("update pg_database set datname=" +:+ quote_literal W schema_name
                +:+ " where datname=current_database()") >>
  (* switch to the restricted role *)
  plpy_execute ("set role to " +:+ quote_ident W login_user) >>
  (* run the actual query and save result *)
  metadata <- plpy_execute query ;;
  columns <- match res_columns metadata with
             | Some columns => ret columns
             | None => raise (OtherError "plpy.Error")
             end ;;
  let column_names := columns.*1 in
  let column_type_oids := columns.*2 in
  let result := (λ row, row_get row <$> column_names) <$> res_rows metadata in
  (* save result schema *)
  oid_to_type_name <- _load_oid_to_type_name_mapping column_type_oids ;;
  let column_types :=
    (λ oid, default PyNone (oid_to_type_name !! oid)) <$> column_type_oids in
  (* store query cache *)
  dict_set query_cache query
    {| QueryResult_column_names := column_names;
       QueryResult_column_types := column_types;
       QueryResult_result := result |} >>
  ret (column_names, column_types, result).

(** Lines 367-426: the subtransaction around [mirror_and_query]. *)
Definition mirror_in_subtransaction
    (login_user query : string)
    (schema_names statements : option (list string)) (query_cache : nat)
    (schema_name : option string)
  : M (list string * list pyval * list (list pyval)) :=
  (* enter subtransaction to rollback tables right after running the query *)
  subxact_enter >>
  try_finally
    (mirror_and_query login_user query schema_names statements query_cache
       schema_name)
    ((* rollback subtransaction *)
     subxact_exit (PyStr "rollback subtransaction")).

(** Lines 266-357: the plan, from the cache or from the remote catalog.
    It yields the locals [schema_names], [statements], [query_cache]
    and [schema_name]. *)
Definition plan_or_cached
    (client : Client) (server user catalog schema : pyval) (login_user : string)
  : M (option (list string) * option (list string) * nat * option string) :=
  current_time <- time_time_ ;;
  s <- get_state ;;
  if is_cached (SchemaCacheEntry s) server user catalog schema current_time then
    ret (self_schema_names (SchemaCacheEntry s),
         self_statements (SchemaCacheEntry s),
         self_query_cache (SchemaCacheEntry s), None)
  else
    (* get table list *)
    rows <- client_run client
              ("select table_schema, table_name, column_name, is_nullable, data_type"
               +:+ " from information_schema.columns") ;;
    let rows := default [] rows in
    found <- for_each rows discover_row (∅, None) ;;
    let '(statements, schema_names, schema_name) :=
      generate_statements login_user found.1 found.2 in
    (* cache expires after 60 seconds *)
    now <- time_time_ ;;
    set_cache server user catalog schema schema_names statements
      (Qplus now (inject_Z 60)) >>
    query_cache <- new_dict ;;
    ret (Some schema_names, Some statements, query_cache, schema_name).

(** Lines 263-357 of [run_system_catalog_as_temp_table]: the call up to
    the lookup in the query cache. *)
Definition plan_stage (server user catalog schema : pyval) (login_user : string)
  : M (option (list string) * option (list string) * nat * option string) :=
  time_zone <- _get_session_time_zone ;;
  plan_or_cached
    {| Client_server := server; Client_user := user; Client_catalog := catalog;
       Client_schema := schema; Client_time_zone := time_zone |}
    server user catalog schema login_user.

Definition run_system_catalog_as_temp_table_body
    (server user catalog schema : pyval)
    (login_user login_database result_table query : string) : M unit :=
  time_zone <- _get_session_time_zone ;;
  let client :=
    {| Client_server := server; Client_user := user;
       Client_catalog := catalog; Client_schema := schema;
       Client_time_zone := time_zone |} in
  (* create SQL statements which put data to system catalogs *)
  planned <- plan_or_cached client server user catalog schema login_user ;;
  let '(schema_names, statements, query_cache, schema_name) := planned in
  query_result <- dict_get query_cache query ;;
  captured <-
    match query_result with
    | Some query_result =>
        (* a namedtuple of three fields is true *)
        ret (QueryResult_column_names query_result,
             QueryResult_column_types query_result,
             QueryResult_result query_result)
    | None =>
        mirror_in_subtransaction login_user query schema_names statements
          query_cache schema_name
    end ;;
  let '(column_names, column_types, result) := captured in
  (* run CREATE TABLE and INSERT *)
  create_and_insert result_table column_names column_types
    (iter_of_list result).

Definition run_system_catalog_as_temp_table
    (server user catalog schema : pyval)
    (login_user login_database result_table query : string) : M unit :=
  try_except
    (run_system_catalog_as_temp_table_body server user catalog schema
       login_user login_database result_table query)
    caught set_module_and_reraise.

(** *** Placeholder schemas and tables *)

Definition create_schema_holders (count : Z) : M unit :=
  for_each (seq 0 (Z.to_nat count))
    (λ _ i,
       plpy_execute ("drop schema if exists prestogres_catalog_schema_holder_"
                     +:+ pretty i +:+ " cascade") >>
       plpy_execute ("create schema prestogres_catalog_schema_holder_"
                     +:+ pretty i) >>
       ret ())
    ().

Definition create_table_holders (count : Z) : M unit :=
  for_each (seq 0 (Z.to_nat count))
    (λ _ i,
       plpy_execute ("create table prestogres_catalog.table_holder_"
                     +:+ pretty i +:+ " ()") >>
       ret ())
    ().
End Program.

(** ** A small concrete world

    The session is the list of statements it has executed, so every
    statement changes it; the environment is the clock, which advances
    ten seconds per reading. [fails] picks the statements the session
    refuses, [remote] is the answer of the remote catalog. *)
Module Demo.
Definition answer (sql : string) : spi_result :=
  if bool_decide (sql = "show timezone") then
    {| res_columns := Some [("TimeZone", 25%Z)];
       res_rows := [{["TimeZone" := PyStr "UTC"]}] |}
  else if String.prefix "select ('{' || current_setting" sql then
    {| res_columns := Some [("text", 1009%Z)];
       res_rows := [{["text" := PyList [PyStr "analytics"; PyStr "public"]]}] |}
  else if bool_decide (sql = "select 1 as x, 2 as y") then
    {| res_columns := Some [("x", 23%Z); ("y", 23%Z)];
       res_rows := [{["x" := PyInt 1; "y" := PyInt 2]}] |}
  else if String.prefix "select oid, typname" sql then
    {| res_columns := Some [("oid", 26%Z); ("typname", 19%Z)];
       res_rows := [{["oid" := PyInt 23; "typname" := PyStr "int4"]}] |}
  else {| res_columns := None; res_rows := [] |}.

Definition world (fails : string → bool) (remote : option (list catalog_row))
  : World (list string) Z :=
  {| quote_ident := id;
     quote_literal := λ s, "'" +:+ s +:+ "'";
     spi_execute := λ sql d,
       if fails sql then inl (SPIError sql) else inr (answer sql, d ++ [sql]);
     spi_cursor := λ sql d, inr [];
     spi_prepare := λ sql types d, None;
     spi_execute_plan := λ p args d, inr (d ++ [plan_query p]);
     time_time := λ t, (inject_Z t, (t + 10)%Z);
     presto_run := λ c sql t, (inr remote, t);
     presto_submit := λ c sql t,
       (inr {| q_columns := inr [("id", "bigint"); ("name", "varchar")];
               q_results :=
                 iter_of_list [[PyInt 1; PyStr "a"]; [PyInt 2; PyStr "b"]] |},
        t) |}.

Definition nothing_fails (sql : string) : bool := false.
Definition renames_fail (sql : string) : bool :=
  String.prefix "alter schema prestogres_catalog_schema_holder_" sql.

(** The interpreter right after the module is loaded. *)
Definition start : state (list string) Z :=
  {| st_db := []; st_env := 0%Z; st_subxacts := []; st_trace := [];
     SchemaCacheEntry := SchemaCache_init 0; st_dicts := [∅];
     OidToTypeNameMapping := ∅; st_main_classes := [] |}.

(** The client of a caller without a schema. *)
Definition client : Client :=
  {| Client_server := PyStr "presto:8080"; Client_user := PyStr "bob";
     Client_catalog := PyStr "hive"; Client_schema := PyNone;
     Client_time_zone := PyStr "UTC" |}.

(** One remote schema [sales] with the table [orders(id, total)]. *)
Definition sales : list catalog_row :=
  [ {| table_schema := "sales"; table_name := "orders"; column_name := "id";
       is_nullable := PyBool false; data_type := "integer" |};
    {| table_schema := "sales"; table_name := "orders"; column_name := "total";
       is_nullable := PyBool true; data_type := "double" |} ].
(** The first call of a session, up to the lookup in the query cache. *)
Definition staged :=
  plan_stage (world nothing_fails (Some sales))
    (PyStr "presto:8080") (PyStr "bob") (PyStr "hive") PyNone "bob" start.
Definition planned
  : option (list string) * option (list string) * nat * option string :=
  match staged.1 with
  | inr p => p
  | inl _ => (None, None, 0, None)
  end.

(** The interpreter after the first call of a session. *)
Definition after_first_call : state (list string) Z :=
  (run_system_catalog_as_temp_table (world nothing_fails (Some sales))
     (PyStr "presto:8080") (PyStr "bob") (PyStr "hive") PyNone
     "bob" "postgres" "t1" "select 1 as x, 2 as y" start).2.
End Demo.

(** * Vocabulary of the properties

    Definitions that the statements below are written with. None of
    them is part of the module. *)

Section Vocabulary.
Context {db env : Type} (W : World db env).
#[local] Abbreviation M := (M db env).

(** Every run of [m] relates the state before to the state after. *)
Definition keeps (R : relation (state db env)) {A} (m : M A) : Prop :=
  ∀ s, R s (m s).2.

(** Relations that the calls into [plpy], [presto_client] and [time]
    cannot break: they hold across a change of the session, of the
    environment, of the type-name table and of the class markers, and
    when the trace grows. *)
Class Frame (R : relation (state db env)) : Prop := {
  frame_refl s : R s s;
  frame_trans s1 s2 s3 : R s1 s2 → R s2 s3 → R s1 s3;
  frame_db d s : R s (set_db d s);
  frame_env e s : R s (set_env e s);
  frame_trace ev s : R s (set_trace (st_trace s ++ [ev]) s);
  frame_oids m s : R s (set_OidToTypeNameMapping m s);
  frame_main l s : R s (set_main_classes l s);
}.

(** [pad name k] is [name] followed by [k] marker characters. *)
Definition pad (name : string) (k : nat) : string :=
  Nat.iter k (λ s, s +:+ "_") name.

(** What the specification promises for a name that occurs once in the
    input: it comes out unchanged, at its position. *)
Definition unique_names_kept (names out : list string) : Prop :=
  ∀ i name,
    names !! i = Some name →
    (∀ j, names !! j = Some name → j = i) →
    out !! i = Some name.

(** The name chosen at a position: the shortest padding of the input name
    that is not among the names chosen before it. *)
Definition shortest_unused_padding
    (earlier : list string) (name chosen : string) : Prop :=
  ∃ k, chosen = pad name k ∧ (pad name k ∉ earlier)
       ∧ (∀ j, j < k → pad name j ∈ earlier).

(** The value of the loop, without the diagnostics. *)
Fixpoint renamed_from
    (renamed : list string) (used : gset string) (names : list string)
  : list string * gset string :=
  match names with
  | [] => (renamed, used)
  | original_name :: names =>
      let name := first_unused used original_name in
      renamed_from (renamed ++ [name]) ({[name]} ∪ used) names
  end.

Definition same_subxacts : relation (state db env) :=
  λ s s', st_subxacts s' = st_subxacts s.

Definition trace_extends : relation (state db env) :=
  λ s s', ∃ new, st_trace s' = st_trace s ++ new.

Definition plan_executions (t : list event) : list (plan * list pyval) :=
  omap (λ e, match e with EExecutePlan p args => Some (p, args) | _ => None end) t.

Definition batch_plan (insert_sql : string) (column_types : list string) (n : nat) : plan :=
  {| plan_query := batch_insert_text insert_sql column_types n;
     plan_argtypes := mjoin (replicate n column_types) |}.

(** A session that accepts every prepared statement and every execution
    of one. *)
Definition accepts_batches {db env} (W : World db env) : Prop :=
  (∀ sql types d, spi_prepare W sql types d = None)
  ∧ (∀ p args d, ∃ d', spi_execute_plan W p args d = inr d').

(** What PL/Python passes for a [text] argument: a [str], or [None] for
    the SQL NULL. *)
Definition is_text (v : pyval) : Prop := v = PyNone ∨ ∃ s, v = PyStr s.

Definition same_cache : relation (state db env) :=
  λ s s', SchemaCacheEntry s' = SchemaCacheEntry s ∧ st_dicts s' = st_dicts s.

(** The value [rows[0].values()[0]] reads, when there is one. *)
Definition first_cell (rows : spi_result) : option pyval :=
  head (res_rows rows) ≫= λ row, head (row_values row).

(** The schemas that are never mirrored. *)
Definition system_schema (name : string) : bool :=
  bool_decide (name = "sys") || bool_decide (name = "information_schema").

(** The tables to mirror in the order of the plan: schema by schema in
    the order of their names, and within a schema table by table in the
    order of their names. *)
Definition mirrored_tables
    (schemas : gmap string (gmap string (list Column)))
  : list (string * string * list Column) :=
  item ← filter (λ item, negb (system_schema item.1)) (sorted_items schemas);
  (λ t, (item.1, t.1, t.2)) <$> sorted_items item.2.

(** [add <name> <type>], with [not null] when the column is not nullable. *)
Definition add_column_clause (c : Column) : string :=
  "add " +:+ quote_ident W (Column_name c) +:+ " "
  +:+ _pg_table_type (Column_type c)
  +:+ (if py_truthy (Column_nullable c) then "" else " not null").

(** The three statements for the table that gets placeholder [i]. *)
Definition table_statements (i : nat) (t : string * string * list Column)
  : list string :=
  [ "alter table prestogres_catalog.table_holder_" +:+ pretty i
    +:+ " set schema " +:+ quote_ident W t.1.1;
    "alter table " +:+ quote_ident W t.1.1 +:+ ".table_holder_" +:+ pretty i
    +:+ " rename to " +:+ quote_ident W t.1.2;
    "alter table " +:+ quote_ident W t.1.1 +:+ "." +:+ quote_ident W t.1.2
    +:+ " " +:+ NL +:+ "  "
    +:+ String.concat ("," +:+ NL +:+ "  ") (add_column_clause <$> t.2) ].

(** The tables of a list of schemas, system schemas left out. *)
Definition tables_of (items : list (string * gmap string (list Column)))
  : list (string * string * list Column) :=
  item ← filter (λ item, negb (system_schema item.1)) items;
  (λ t, (item.1, t.1, t.2)) <$> sorted_items item.2.

(** [sorted(d.items(), key=...)] lists exactly the items of [d], the keys
    strictly increasing in the order of [str]. *)
Definition key_lt {V} (a b : string * V) : Prop := String.ltb a.1 b.1 = true.

(** A name the local database cannot hold. *)
Definition too_long (name : string) : Prop :=
  PG_NAMEDATALEN - 1 < String.length name.

(** The diagnostics and the plain statements of a trace. *)
Definition warnings (t : list event) : list string :=
  omap (λ ev, match ev with EWarning msg => Some msg | _ => None end) t.
Definition executed (t : list event) : list string :=
  omap (λ ev, match ev with EExecute sql => Some sql | _ => None end) t.

(** How many subtransactions a trace enters. *)
Definition subtransactions (t : list event) : nat :=
  length (omap (λ ev, match ev with ESubxactEnter => Some () | _ => None end) t).

(** The statement that renames placeholder schema [i]. *)
Definition rename_holder_sql {db env} (W : World db env)
    (i : nat) (schema_name : string) : string :=
  "alter schema prestogres_catalog_schema_holder_" +:+ pretty i
  +:+ " rename to " +:+ quote_ident W schema_name.

(** What the specification promises for a placeholder schema whose
    rename fails: a diagnostic. *)
Definition failed_rename_is_reported {db env} (W : World db env)
    (acc : nat * option string) (schema_name : string) (s : state db env)
  : Prop :=
  (∃ e, spi_execute W (rename_holder_sql W acc.1 schema_name) (st_db s) = inl e) →
  warnings (st_trace (rename_schema_holder W acc schema_name s).2)
  ≠ warnings (st_trace s).

(** The remote engine answers catalog discovery with no rows. *)
Definition remote_catalog_empty {db env} (W : World db env) : Prop :=
  ∀ client sql e,
    (presto_run W client sql e).1 = inr None
    ∨ (presto_run W client sql e).1 = inr (Some []).

(** The two statements every plan starts with. *)
Definition role_statements (login_user : string) : list string :=
  [ "do $$ begin if not exists (select * from pg_catalog.pg_roles where rolname="
    +:+ quote_literal W login_user +:+ ") then create role "
    +:+ quote_ident W login_user +:+ " with login; end if; end $$";
    "grant select on all tables in schema prestogres_catalog to "
    +:+ quote_ident W login_user ].

(** The cache entry and the dict object [n] are left alone. *)
Definition same_entry (n : nat) : relation (state db env) :=
  λ s s', SchemaCacheEntry s' = SchemaCacheEntry s
          ∧ st_dicts s' !! n = st_dicts s !! n.
End Vocabulary.

(** ** Vocabulary of the properties of the parts *)

Section RefusalVocabulary.
Context {db env : Type} (W : World db env).

(** What the local session makes of one event, from the session [d]
    and the open subtransactions [stack]: the session and the
    subtransactions afterwards, and, when the session refuses the
    event, the event with the exception. *)
Definition replay_step (acc : db * list db * list (event * exn)) (ev : event)
  : db * list db * list (event * exn) :=
  let '(d, stack, bad) := acc in
  match ev with
  | EExecute sql =>
      match spi_execute W sql d with
      | inr (_, d') => (d', stack, bad)
      | inl e => (d, stack, bad ++ [(ev, e)])
      end
  | ECursor sql =>
      match spi_cursor W sql d with
      | inr _ => (d, stack, bad)
      | inl e => (d, stack, bad ++ [(ev, e)])
      end
  | EPrepare sql argtypes =>
      match spi_prepare W sql argtypes d with
      | None => (d, stack, bad)
      | Some e => (d, stack, bad ++ [(ev, e)])
      end
  | EExecutePlan p args =>
      match spi_execute_plan W p args d with
      | inr d' => (d', stack, bad)
      | inl e => (d, stack, bad ++ [(ev, e)])
      end
  | ESubxactEnter => (d, d :: stack, bad)
  | ESubxactExit rollback =>
      match stack with
      | [] => (d, stack, bad)
      | saved :: outer => (if rollback then saved else d, outer, bad)
      end
  | EWarning _ | EPrestoRun _ _ | EPrestoQuery _ _ | EPrestoClose =>
      (d, stack, bad)
  end.

Definition replay (d : db) (stack : list db) (t : list event)
  : db * list db * list (event * exn) :=
  foldl replay_step (d, stack, []) t.

(** The events of [t] that the session refused, with the exception of
    each. *)
Definition refused (d : db) (stack : list db) (t : list event)
  : list (event * exn) :=
  (replay d stack t).2.

(** The rename of a placeholder schema. *)
Definition holder_rename (ev : event) : Prop :=
  ∃ i schema_name, ev = EExecute (rename_holder_sql W i schema_name).

(** The end of a subtransaction. *)
Definition leaves_subxact (ev : event) : Prop :=
  match ev with ESubxactExit _ => True | _ => False end.

(** A run of [m] from [s] in which a refusal of the session, unless it
    is that of a placeholder rename, ends the run: the run raises the
    exception of the refusal, and after the refused event it does
    nothing but leave the subtransactions it is in. The trace tells
    what the session did. *)
Definition aborts_on_refusal {A} (m : M db env A) (s : state db env) : Prop :=
  ∃ new,
    st_trace (m s).2 = st_trace s ++ new
    ∧ (replay (st_db s) (st_subxacts s) new).1
      = (st_db (m s).2, st_subxacts (m s).2)
    ∧ ∀ ev e, (ev, e) ∈ refused (st_db s) (st_subxacts s) new →
              ¬ holder_rename ev →
              (m s).1 = inl e
              ∧ ∃ before after,
                  new = before ++ ev :: after ∧ Forall leaves_subxact after.

(** The statement of catalog discovery. *)
Definition discovery_sql : string :=
  "select table_schema, table_name, column_name, is_nullable, data_type"
  +:+ " from information_schema.columns".
End RefusalVocabulary.

(** The events that open or close a subtransaction. *)
Definition subxact_event (ev : event) : Prop :=
  match ev with ESubxactEnter | ESubxactExit _ => True | _ => False end.

Section BlindVocabulary.
Context {db env : Type}.

(** The state [s] with another schema cache entry and other dict
    objects. *)
Definition with_caches (entry : SchemaCache)
    (dicts : list (gmap string QueryResult)) (s : state db env)
  : state db env :=
  set_dicts dicts (set_SchemaCacheEntry entry s).

(** [m] does not read what [f] changes, and does not write it: run
    from a state changed by [f], it gives the same result and the same
    final state, changed by [f]. *)
Definition blind_to (f : state db env → state db env) {A} (m : M db env A)
  : Prop :=
  ∀ s, m (f s) = ((m s).1, f (m s).2).
End BlindVocabulary.

Section DiscoveryVocabulary.
Context {db env : Type} (W : World db env).

(** The column a catalog row describes. *)
Definition column_of_row (row : catalog_row) : Column :=
  {| Column_name := column_name row; Column_type := data_type row;
     Column_nullable := is_nullable row |}.

(** The columns recorded for table [t] of schema [s]; none when the
    schema or the table is not recorded. *)
Definition columns_of (schemas : gmap string (gmap string (list Column)))
    (s t : string) : list Column :=
  default [] (schemas !! s ≫= λ tables, tables !! t).

Definition has_schema (schemas : gmap string (gmap string (list Column)))
    (s : string) : Prop :=
  is_Some (schemas !! s).
Definition has_table (schemas : gmap string (gmap string (list Column)))
    (s t : string) : Prop :=
  is_Some (schemas !! s ≫= λ tables, tables !! t).

(** A row none of whose names is too long. *)
Definition short_names (row : catalog_row) : Prop :=
  ¬ too_long (table_schema row) ∧ ¬ too_long (table_name row)
  ∧ ¬ too_long (column_name row).
End DiscoveryVocabulary.

#[global] Instance too_long_dec name : Decision (too_long name).
Proof. unfold too_long. apply _. Defined.
#[global] Instance short_names_dec row : Decision (short_names row).
Proof. unfold short_names. apply _. Defined.
Section RenameVocabulary.
Context {db env : Type} (W : World db env).

(** The diagnostic for a column that gets another name. *)
Definition renamed_msg (original_name name : string) : string :=
  "Result column " +:+ quote_ident W original_name
  +:+ " is renamed to " +:+ quote_ident W name
  +:+ " because the name appears twice in a query result".

(** The diagnostics for the positions where the output differs from the
    input, in the order of the positions. *)
Definition renamed_msgs (names out : list string) : list string :=
  omap (λ p, if decide (p.1 = p.2) then None else Some (renamed_msg p.1 p.2))
       (zip names out).
End RenameVocabulary.
Section BuilderVocabulary.
Context {db env : Type} (W : World db env).

(** The separator between the entries of a column list. *)
Definition column_sep : string := "," +:+ NL +:+ "  ".

(** [<name> <type>], one entry of CREATE TABLE. *)
Definition column_definition (column_name column_type : string) : string :=
  quote_ident W column_name +:+ " " +:+ column_type.
End BuilderVocabulary.
(** [$<index>::<type>], one place holder of a prepared INSERT. *)
Definition placeholder (index : nat) (column_type : string) : string :=
  "$" +:+ pretty index +:+ "::" +:+ column_type.

(** The value list of row [row] of a batch, the rows counted from 0:
    its place holders continue the numbering of the rows before it. *)
Definition value_list (column_types : list string) (row : nat) : string :=
  "(" +:+ String.concat ", "
            (imap (λ j, placeholder (row * length column_types + j + 1))
                  column_types)
  +:+ ")".

(** The bodies of the two loops of [_plan_batch], on the pieces of the
    statement, the [first] flag and the next place holder. *)
Definition value_turn
  : list string * bool * nat → string → list string * bool * nat :=
  λ '(batch_isnert_sql, value_first, index) column_type,
    let batch_isnert_sql :=
      if value_first : bool then batch_isnert_sql
      else batch_isnert_sql ++ [", "] in
    (batch_isnert_sql ++ ["$" +:+ pretty (index : nat) +:+ "::" +:+ column_type],
     false, S index).
Definition row_turn (column_types : list string)
  : list string * bool * nat → nat → list string * bool * nat :=
  λ '(batch_isnert_sql, first, index) (i : nat),
    let batch_isnert_sql :=
      if first : bool then batch_isnert_sql
      else batch_isnert_sql ++ [", "] in
    let batch_isnert_sql := batch_isnert_sql ++ ["("] in
    let '(batch_isnert_sql, value_first, index) :=
      foldl value_turn (batch_isnert_sql, true, index) column_types in
    (batch_isnert_sql ++ [")"], false, index).
(** A generator that yields [rows] and then raises [e]. *)
Fixpoint iter_then_raise (rows : list (list pyval)) (e : exn) : rows_iter :=
  match rows with
  | [] => RowsRaise e
  | row :: rest => RowsNext row (iter_then_raise rest e)
  end.

(** The statements a trace prepares. *)
Definition prepared (t : list event) : list (string * list string) :=
  omap (λ ev, match ev with
              | EPrepare sql argtypes => Some (sql, argtypes)
              | _ => None
              end) t.
(** The column types of information_schema that CREATE TABLE refuses. *)
Definition infoschema_only_types : list string :=
  ["sql_identifier"; "cardinal_number"; "character_data"; "yes_or_no"].

Section TypeNameVocabulary.
Context {db env : Type}.

(** No type name is forgotten between two states. *)
Definition oids_kept : relation (state db env) :=
  λ s s', ∀ oid, is_Some (OidToTypeNameMapping s !! oid)
                 → is_Some (OidToTypeNameMapping s' !! oid).
End TypeNameVocabulary.
(** The events that stay inside the local session. *)
Definition session_event (ev : event) : Prop :=
  match ev with
  | EWarning _ | EExecute _ | ECursor _ | EPrepare _ _ | EExecutePlan _ _ => True
  | _ => False
  end.

Section TraceVocabulary.
Context {db env : Type}.

(** The trace grows by events that all satisfy [P]. *)
Definition emits (P : event → Prop) : relation (state db env) :=
  λ s s', ∃ new, st_trace s' = st_trace s ++ new ∧ Forall P new.
End TraceVocabulary.
Section MirrorVocabulary.
Context {db env : Type} (W : World db env).

(** The statement that gives the local database its name. *)
Definition update_datname_sql (schema_name : string) : string :=
  "update pg_database set datname=" +:+ quote_literal W schema_name
  +:+ " where datname=current_database()".

(** What the call stores in the query cache for a captured result. *)
Definition cached_result (captured : list string * list pyval * list (list pyval))
  : QueryResult :=
  {| QueryResult_column_names := captured.1.1;
     QueryResult_column_types := captured.1.2;
     QueryResult_result := captured.2 |}.
End MirrorVocabulary.
(** A session that accepts every statement. *)
Definition accepts_statements {db env} (W : World db env) : Prop :=
  ∀ sql d, ∃ r d', spi_execute W sql d = inr (r, d').

(** The statements that set up placeholder [i]. *)
Definition schema_holder_statements (i : nat) : list string :=
  ["drop schema if exists prestogres_catalog_schema_holder_" +:+ pretty i
   +:+ " cascade";
   "create schema prestogres_catalog_schema_holder_" +:+ pretty i].
Definition table_holder_statement (i : nat) : string :=
  "create table prestogres_catalog.table_holder_" +:+ pretty i +:+ " ()".
(** ** More of the concrete world: the calls after the first *)
Module Calls.
Definition world : World (list string) Z :=
  Demo.world Demo.nothing_fails (Some Demo.sales).
Definition query : string := "select 1 as x, 2 as y".
Definition call : M (list string) Z unit :=
  run_system_catalog_as_temp_table world
    (PyStr "presto:8080") (PyStr "bob") (PyStr "hive") PyNone
    "bob" "postgres" "t1" query.
(** What the mirrored catalog answers to [query]. *)
Definition captured : list string * list pyval * list (list pyval) :=
  (["x"; "y"], [PyStr "int4"; PyStr "int4"], [[PyInt 1; PyInt 2]]).
End Calls.
Module SystemOnly.
(** A remote catalog whose only schema is a system schema. *)
Definition rows : list catalog_row :=
  [ {| table_schema := "information_schema"; table_name := "tables";
       column_name := "table_name"; is_nullable := PyBool true;
       data_type := "varchar" |} ].
Definition world : World (list string) Z :=
  Demo.world Demo.nothing_fails (Some rows).
Definition call : M (list string) Z unit :=
  run_system_catalog_as_temp_table world
    (PyStr "presto:8080") (PyStr "bob") (PyStr "hive") PyNone
    "bob" "postgres" "t1" "select 1 as x, 2 as y".
Definition after_first_call : state (list string) Z := (call Demo.start).2.
End SystemOnly.

(** * Properties *)

(** ** Reasoning about computations *)

Section Frames.
Context {db env : Type}.
Implicit Types s : state db env.
#[local] Abbreviation M := (M db env).

Context (R : relation (state db env)) `{!Frame R}.

Lemma keeps_ret {A} (a : A) : keeps R (ret a).
Proof. intros s. apply frame_refl. Qed.

Lemma keeps_raise {A} (e : exn) : keeps R (raise (A:=A) e).
Proof. intros s. apply frame_refl. Qed.

Lemma keeps_lift {A} (r : exn + A) : keeps R (lift r).
Proof. intros s. apply frame_refl. Qed.

Lemma keeps_get_state : keeps R get_state.
Proof. intros s. apply frame_refl. Qed.

Lemma keeps_bind {A B} (m : M A) (k : A → M B) :
  keeps R m → (∀ a, keeps R (k a)) → keeps R (bind m k).
Proof.
  intros Hm Hk s. unfold bind. specialize (Hm s).
  destruct (m s) as [[e|a] s1]; simpl in *; [done|].
  eapply frame_trans; [exact Hm|apply Hk].
Qed.

Lemma keeps_try_finally {A} (m : M A) (fin : M unit) :
  keeps R m → keeps R fin → keeps R (try_finally m fin).
Proof.
  intros Hm Hf s. unfold try_finally. specialize (Hm s).
  destruct (m s) as [r s1]; simpl in *. specialize (Hf s1).
  destruct (fin s1) as [[e|u] s2]; simpl in *;
    eapply frame_trans; eauto.
Qed.

Lemma keeps_try_except {A} (m : M A) (c : exn → bool) (h : exn → M A) :
  keeps R m → (∀ e, keeps R (h e)) → keeps R (try_except m c h).
Proof.
  intros Hm Hh s. unfold try_except. specialize (Hm s).
  destruct (m s) as [[e|a] s1]; simpl in *; [|done].
  destruct (c e); [|done]. eapply frame_trans; [exact Hm|apply Hh].
Qed.

Lemma keeps_for_each {A B} (xs : list A) (body : B → A → M B) (acc : B) :
  (∀ b x, keeps R (body b x)) → keeps R (for_each xs body acc).
Proof.
  intros Hb. revert acc. induction xs as [|x xs IH]; intros acc; simpl.
  - apply keeps_ret.
  - apply keeps_bind; [apply Hb|apply IH].
Qed.
End Frames.

Ltac frame_known := first [assumption | tc_solve].

Ltac keeps_step :=
  lazymatch goal with
  | |- keeps _ (bind _ _) => apply keeps_bind; [frame_known| |intros ?]
  | |- keeps _ (ret _) => apply keeps_ret; frame_known
  | |- keeps _ (raise _) => apply keeps_raise; frame_known
  | |- keeps _ (lift _) => apply keeps_lift; frame_known
  | |- keeps _ get_state => apply keeps_get_state; frame_known
  | |- keeps _ (try_finally _ _) => apply keeps_try_finally; [frame_known|..]
  | |- keeps _ (try_except _ _ _) =>
      apply keeps_try_except; [frame_known| |intros ?]
  | |- keeps _ (for_each _ _ _) => apply keeps_for_each; [frame_known|intros ? ?]
  | |- keeps _ (match ?x with _ => _ end) => destruct x
  end.

Section PrimitiveFrames.
Context {db env : Type} (W : World db env).
Context (R : relation (state db env)) `{!Frame R}.

Lemma keeps_log ev : keeps R (log ev).
Proof. intros s. apply frame_trace. Qed.

Lemma keeps_plpy_warning msg : keeps R (plpy_warning msg).
Proof. apply keeps_log. Qed.

Lemma keeps_plpy_execute sql : keeps R (plpy_execute W sql).
Proof.
  unfold plpy_execute. apply keeps_bind; [frame_known|apply keeps_log|].
  intros _ s. destruct (spi_execute W sql (st_db s)) as [e|[r d]]; simpl.
  - apply frame_refl.
  - apply frame_db.
Qed.

Lemma keeps_plpy_cursor sql : keeps R (plpy_cursor W sql).
Proof.
  unfold plpy_cursor. apply keeps_bind; [frame_known|apply keeps_log|].
  intros _ s. apply frame_refl.
Qed.

Lemma keeps_plpy_prepare sql types : keeps R (plpy_prepare W sql types).
Proof.
  unfold plpy_prepare. apply keeps_bind; [frame_known|apply keeps_log|].
  intros _ s. destruct (spi_prepare W sql types (st_db s)); apply frame_refl.
Qed.

Lemma keeps_plpy_execute_plan p args : keeps R (plpy_execute_plan W p args).
Proof.
  unfold plpy_execute_plan. apply keeps_bind; [frame_known|apply keeps_log|].
  intros _ s. destruct (spi_execute_plan W p args (st_db s)) as [e|d]; simpl.
  - apply frame_refl.
  - apply frame_db.
Qed.

Lemma keeps_time_time : keeps R (time_time_ W).
Proof.
  intros s. unfold time_time_. destruct (time_time W (st_env s)) as [t e].
  apply frame_env.
Qed.

Lemma keeps_client_run c sql : keeps R (client_run W c sql).
Proof.
  unfold client_run. apply keeps_bind; [frame_known|apply keeps_log|].
  intros _ s. destruct (presto_run W c sql (st_env s)) as [r e].
  apply frame_env.
Qed.

Lemma keeps_client_query c sql : keeps R (client_query W c sql).
Proof.
  unfold client_query. apply keeps_bind; [frame_known|apply keeps_log|].
  intros _ s. destruct (presto_submit W c sql (st_env s)) as [r e].
  apply frame_env.
Qed.

Lemma keeps_q_close : keeps R q_close.
Proof. apply keeps_log. Qed.

Lemma keeps_dict_get d key : keeps R (dict_get d key).
Proof. unfold dict_get. repeat keeps_step. Qed.
End PrimitiveFrames.

Create HintDb keeps.
#[global] Hint Extern 1 (Frame _) => frame_known : keeps.
#[global] Hint Resolve keeps_log keeps_plpy_warning keeps_plpy_execute
  keeps_plpy_cursor keeps_plpy_prepare keeps_plpy_execute_plan keeps_time_time
  keeps_client_run keeps_client_query keeps_q_close keeps_dict_get : keeps.

Ltac keeps_auto :=
  repeat first [ keeps_step | solve [eauto with keeps] ].

(** A decidable closed proposition, settled by evaluating its decision. *)
Ltac by_compute :=
  lazymatch goal with
  | |- ?P => apply (bool_decide_unpack P); vm_compute; exact I
  end.

(** ** Type mapper *)

(** C8. The result-context and the table-context mapper are the same total
    function: varchar, varbinary and double go to varchar(255), bytea and
    double precision, and every other type name comes back unchanged. *)
Theorem type_mappers_same_substitution :
  (∀ presto_type, _pg_result_type presto_type = _pg_table_type presto_type)
  ∧ _pg_result_type "varchar" = "varchar(255)"
  ∧ _pg_result_type "varbinary" = "bytea"
  ∧ _pg_result_type "double" = "double precision"
  ∧ (∀ presto_type,
       presto_type ∉ ["varchar"; "varbinary"; "double"] →
       _pg_result_type presto_type = presto_type).
Proof.
  split; [done|]. do 3 (split; [done|]).
  intros t Ht. unfold _pg_result_type.
  repeat case_bool_decide; subst; try done; exfalso; apply Ht; set_solver.
Qed.

Lemma type_mappers_same_substitution_witness :
  _pg_result_type "bigint" = "bigint" ∧ _pg_table_type "bigint" = "bigint".
Proof.
  destruct type_mappers_same_substitution as (Hsame & _ & _ & _ & Hother).
  split; [|rewrite <- (Hsame "bigint")]; apply Hother; by_compute.
Defined.

(** ** Identifier deduplicator *)

Lemma pad_shift name k : pad (name +:+ "_") k = pad name (S k).
Proof. unfold pad. by rewrite Nat.iter_succ_r. Qed.

Lemma first_unused_spec (used : gset string) (name : string) :
  ∃ k, first_unused used name = pad name k ∧ (pad name k ∉ used)
       ∧ (∀ j, j < k → pad name j ∈ used).
Proof.
  funelim (first_unused used name).
  - destruct H as (k & Hk & Hfree & Hused).
    exists (S k). rewrite <- !pad_shift. split_and!; [congruence|done|].
    intros [|j] Hj; [done|]. rewrite <- pad_shift. apply Hused. lia.
  - exists 0. split_and!; [done|done|]. intros j Hj. lia.
Qed.

Lemma rename_one_value {db env} (W : World db env) renamed used n s :
  ∃ s', rename_one W (renamed, used) n s
        = (inr (renamed ++ [first_unused used n],
                {[first_unused used n]} ∪ used), s').
Proof. unfold rename_one, bind. case_bool_decide; simpl; eauto. Qed.

Lemma rename_loop_value {db env} (W : World db env) names renamed used s :
  (for_each names (rename_one W) (renamed, used) s).1
  = inr (renamed_from renamed used names).
Proof.
  revert renamed used s. induction names as [|n names IH]; intros; [done|].
  cbn [for_each]. unfold bind.
  destruct (rename_one_value W renamed used n s) as [s' ->]. apply IH.
Qed.

Lemma renamed_from_spec names : ∀ renamed used,
  used = list_to_set renamed → NoDup renamed →
  ∃ new, (renamed_from renamed used names).1 = renamed ++ new
    ∧ length new = length names
    ∧ NoDup (renamed ++ new)
    ∧ ∀ i name, names !! i = Some name →
        ∃ chosen, new !! i = Some chosen
          ∧ shortest_unused_padding (renamed ++ take i new) name chosen.
Proof.
  induction names as [|n names IH]; intros renamed used Hused Hnd.
  - exists []. rewrite app_nil_r. split_and!; try done.
  - simpl.
    destruct (first_unused_spec used n) as (k & Hk & Hfree & Hprev).
    destruct (IH (renamed ++ [first_unused used n])
                 ({[first_unused used n]} ∪ used)) as (new & Hv & Hl & Hn & Hi).
    { rewrite Hused, list_to_set_app_L. simpl.
      rewrite (right_id_L ∅ (∪)). apply (comm_L (∪)). }
    { apply NoDup_app. split_and!; [done| |apply NoDup_singleton].
      intros x Hx Hx'. apply list_elem_of_singleton in Hx' as ->.
      rewrite Hk in Hx. apply Hfree. rewrite Hused. by apply elem_of_list_to_set. }
    exists (first_unused used n :: new).
    rewrite <- app_assoc in Hv, Hn. simpl in Hv, Hn.
    split_and!; [done|simpl; congruence|done|].
    intros [|i] name Hname; simpl in Hname.
    + injection Hname as <-. exists (first_unused used n). split; [done|].
      exists k. simpl. rewrite app_nil_r. split_and!; [done|..].
      * rewrite Hused in Hfree. by rewrite elem_of_list_to_set in Hfree.
      * intros j Hj. specialize (Hprev j Hj). rewrite Hused in Hprev.
        by apply elem_of_list_to_set in Hprev.
    + destruct (Hi i name Hname) as (chosen & Hc & Hs).
      exists chosen. split; [done|]. simpl.
      by rewrite <- app_assoc in Hs.
Qed.

(** C3, as amended. The output has the length of the input and no two
    equal entries, and the entry at each position is the input name
    followed by the least number of '_' that makes it differ from every
    entry chosen before it; a name that no earlier entry equals is
    therefore unchanged. *)
Theorem rename_duplicated_column_names_spec
    {db env} (W : World db env) (column_names : list string) (s : state db env) :
  ∃ renamed,
    (_rename_duplicated_column_names W column_names s).1 = inr renamed
    ∧ length renamed = length column_names
    ∧ NoDup renamed
    ∧ ∀ i name, column_names !! i = Some name →
        ∃ chosen, renamed !! i = Some chosen
          ∧ shortest_unused_padding (take i renamed) name chosen
          ∧ (name ∉ take i renamed → chosen = name).
Proof.
  destruct (renamed_from_spec column_names [] ∅) as (new & Hv & Hl & Hn & Hi);
    [done|constructor|].
  simpl in Hv, Hn. exists new. split_and!; try done.
  - unfold _rename_duplicated_column_names, bind.
    pose proof (rename_loop_value W column_names [] ∅ s) as Hloop.
    destruct (for_each column_names (rename_one W) ([], ∅) s) as [[e|r] s'];
      simpl in *; [done|]. injection Hloop as ->. by rewrite Hv.
  - intros i name Hname. destruct (Hi i name Hname) as (chosen & Hc & Hs).
    simpl in Hs. exists chosen. split_and!; [done|done|].
    intros Hfresh. destruct Hs as (k & -> & _ & Hprev).
    destruct k as [|k]; [done|]. exfalso. apply Hfresh. apply (Hprev 0). lia.
Qed.

Lemma rename_duplicated_column_names_spec_witness :
  ∃ renamed,
    (_rename_duplicated_column_names (Demo.world Demo.nothing_fails None)
       ["x"; "x"] Demo.start).1 = inr renamed
    ∧ length renamed = 2 ∧ NoDup renamed.
Proof.
  destruct (rename_duplicated_column_names_spec
              (Demo.world Demo.nothing_fails None) ["x"; "x"] Demo.start)
    as (renamed & Hr & Hl & Hn & _).
  exists renamed. split_and!; done.
Defined.

(** C3, as the specification states it, fails: in [x, x, x_] the name [x_]
    occurs once, yet the second [x] has taken it, so it comes out as [x__]. *)
Lemma originally_unique_name_is_renamed :
  ∃ renamed,
    (_rename_duplicated_column_names (Demo.world Demo.nothing_fails None)
       ["x"; "x"; "x_"] Demo.start).1 = inr renamed
    ∧ ¬ unique_names_kept ["x"; "x"; "x_"] renamed.
Proof.
  exists ["x"; "x_"; "x__"]. split; [by vm_compute|].
  intros Hkept. specialize (Hkept 2 "x_" eq_refl).
  assert (["x"; "x_"; "x__"] !! 2 = Some "x_") as Hbad; [|discriminate Hbad].
  apply Hkept. intros [|[|[|j]]] Hj; simpl in Hj; try done.
Qed.

(** ** Frames of the pieces of the module *)

Section ProgramFrames.
Context {db env : Type} (W : World db env).
Context (R : relation (state db env)) `{!Frame R}.

Lemma keeps_rename_duplicated_column_names names :
  keeps R (_rename_duplicated_column_names W names).
Proof.
  unfold _rename_duplicated_column_names. keeps_auto.
  unfold rename_one. keeps_auto.
Qed.

Lemma keeps_plan_batch insert_sql types n :
  keeps R (_plan_batch W insert_sql types n).
Proof. unfold _plan_batch. keeps_auto. Qed.

Lemma keeps_batch_insert_loop insert_sql batch_size types rows :
  ∀ full_batch_plan batch,
    keeps R (_batch_insert_loop W insert_sql batch_size types rows
               full_batch_plan batch).
Proof.
  induction rows as [| |row rows IH]; intros fp batch; simpl.
  - keeps_auto.
  - keeps_auto.
  - case_bool_decide; [|apply IH].
    apply keeps_bind; [frame_known| |intros p].
    + destruct fp; [keeps_auto|apply keeps_plan_batch].
    + apply keeps_bind; [frame_known|eauto with keeps|intros _; apply IH].
Qed.

Lemma keeps_batch_insert insert_sql batch_size types rows :
  keeps R (_batch_insert W insert_sql batch_size types rows).
Proof.
  unfold _batch_insert.
  apply keeps_bind; [frame_known|apply keeps_batch_insert_loop|intros batch].
  destruct batch; [keeps_auto|].
  apply keeps_bind; [frame_known|apply keeps_plan_batch|intros p; eauto with keeps].
Qed.

Lemma keeps_create_and_insert table names types rows :
  keeps R (create_and_insert W table names types rows).
Proof.
  unfold create_and_insert.
  apply keeps_bind; [frame_known|apply keeps_rename_duplicated_column_names|intros ?].
  keeps_auto. apply keeps_batch_insert.
Qed.

Lemma keeps_first_value rows : keeps R (first_value (db:=db) (env:=env) rows).
Proof. unfold first_value. keeps_auto. Qed.

Lemma keeps_get_session_time_zone : keeps R (_get_session_time_zone W).
Proof. unfold _get_session_time_zone. keeps_auto. apply keeps_first_value. Qed.

Lemma keeps_get_session_search_path_array :
  keeps R (_get_session_search_path_array W).
Proof.
  unfold _get_session_search_path_array. keeps_auto. apply keeps_first_value.
Qed.

Lemma keeps_set_module_and_reraise {A} e :
  keeps R (set_module_and_reraise (A:=A) e).
Proof.
  unfold set_module_and_reraise. keeps_auto.
  intros s. apply frame_main.
Qed.

Lemma keeps_row_item row key : keeps R (row_item (db:=db) (env:=env) row key).
Proof. unfold row_item. keeps_auto. Qed.

Lemma keeps_load_oid_to_type_name_mapping oids :
  keeps R (_load_oid_to_type_name_mapping W oids).
Proof.
  unfold _load_oid_to_type_name_mapping. keeps_auto.
  - apply keeps_row_item.
  - apply keeps_row_item.
  - intros s. apply frame_oids.
Qed.

Lemma keeps_drop_listed_schemas sql suffix :
  keeps R (drop_listed_schemas W sql suffix).
Proof.
  unfold drop_listed_schemas. keeps_auto.
  - apply keeps_row_item.
  - unfold quote_ident_value. keeps_auto.
Qed.

Lemma keeps_rename_schema_holder acc name :
  keeps R (rename_schema_holder W acc name).
Proof. unfold rename_schema_holder. keeps_auto. Qed.

Lemma keeps_mirror_and_query login_user query names stmts query_cache sn :
  (∀ value, keeps R (dict_set query_cache query value)) →
  keeps R (mirror_and_query W login_user query names stmts query_cache sn).
Proof.
  intros Hset. unfold mirror_and_query, iterable.
  apply keeps_bind; [frame_known|apply keeps_drop_listed_schemas|intros _].
  apply keeps_bind; [frame_known|keeps_auto|intros ?].
  apply keeps_bind;
    [frame_known|apply keeps_for_each; [frame_known|apply keeps_rename_schema_holder]|intros ?].
  apply keeps_bind; [frame_known|keeps_auto|intros ?].
  apply keeps_bind; [frame_known|keeps_auto|intros _].
  apply keeps_bind; [frame_known|keeps_auto|intros _].
  apply keeps_bind; [frame_known|apply keeps_drop_listed_schemas|intros _].
  apply keeps_bind; [frame_known|keeps_auto|intros ?].
  apply keeps_bind; [frame_known|keeps_auto|intros _].
  apply keeps_bind; [frame_known|keeps_auto|intros _].
  apply keeps_bind; [frame_known|keeps_auto|intros ?].
  apply keeps_bind; [frame_known|keeps_auto|intros ?].
  apply keeps_bind;
    [frame_known|apply keeps_load_oid_to_type_name_mapping|intros ?].
  apply keeps_bind; [frame_known|apply Hset|intros _]. keeps_auto.
Qed.
End ProgramFrames.

(** ** The subtransaction *)

Section Rollback.
Context {db env : Type} (W : World db env).
Implicit Types s : state db env.

#[global] Instance same_subxacts_frame :
  Frame (same_subxacts (db:=db) (env:=env)).
Proof.
  split; unfold same_subxacts; try done.
  intros s1 s2 s3 H12 H23. by rewrite H23.
Qed.

#[global] Instance trace_extends_frame :
  Frame (trace_extends (db:=db) (env:=env)).
Proof.
  split; unfold trace_extends.
  - intros s. exists []. by rewrite app_nil_r.
  - intros s1 s2 s3 [n1 H1] [n2 H2]. exists (n1 ++ n2).
    by rewrite H2, H1, app_assoc.
  - intros d s. exists []. by rewrite app_nil_r.
  - intros e s. exists []. by rewrite app_nil_r.
  - intros ev s. by exists [ev].
  - intros m s. exists []. by rewrite app_nil_r.
  - intros l s. exists []. by rewrite app_nil_r.
Qed.

Lemma dict_set_same_subxacts d key value :
  keeps same_subxacts (dict_set (db:=db) (env:=env) d key value).
Proof. by intros s. Qed.

Lemma dict_set_trace_extends d key value :
  keeps trace_extends (dict_set (db:=db) (env:=env) d key value).
Proof. intros s. exists []. by rewrite app_nil_r. Qed.

(** Whatever happens between [enter] and [exit], the session and the
    stack of open subtransactions are afterwards what they were. *)
Lemma mirror_in_subtransaction_restores
    login_user query names stmts query_cache schema_name s r after :
  mirror_in_subtransaction W login_user query names stmts query_cache
    schema_name s = (r, after) →
  st_db after = st_db s
  ∧ st_subxacts after = st_subxacts s
  ∧ ∃ inside, st_trace after
              = st_trace s ++ [ESubxactEnter] ++ inside ++ [ESubxactExit true].
Proof.
  unfold mirror_in_subtransaction, subxact_enter, try_finally.
  unfold bind at 1. unfold bind at 1. unfold log, modify. simpl.
  set (s1 := set_subxacts _ _).
  pose proof (keeps_mirror_and_query W same_subxacts login_user query names
                stmts query_cache schema_name
                (dict_set_same_subxacts _ _) s1) as Hstack.
  pose proof (keeps_mirror_and_query W trace_extends login_user query names
                stmts query_cache schema_name
                (dict_set_trace_extends _ _) s1) as [inside Htrace].
  destruct (mirror_and_query W login_user query names stmts query_cache
              schema_name s1) as [r' s2].
  unfold same_subxacts in Hstack. simpl in Hstack, Htrace.
  unfold subxact_exit, bind, get_state. rewrite Hstack. simpl.
  intros [= <- <-]. simpl.
  split_and!; [done|done|]. exists inside.
  rewrite Htrace. by rewrite <- !app_assoc.
Qed.
End Rollback.

(** ** Batch loader *)

Lemma strings_of_str (l : list string) : strings_of (PyStr <$> l) = Some l.
Proof.
  induction l as [|x l IH]; [done|].
  rewrite fmap_cons. cbn [strings_of]. by rewrite IH.
Qed.

Lemma replicate_fmap_join {A B} (f : A → B) n (l : list A) :
  mjoin (replicate n (f <$> l)) = f <$> mjoin (replicate n l).
Proof. induction n as [|n IH]; [done|]. simpl. by rewrite IH, fmap_app. Qed.

Section BatchPrimitives.
Context {db env : Type} (W : World db env).

Lemma plan_batch_str insert_sql types n s :
  0 < n →
  _plan_batch W insert_sql (PyStr <$> types) n s
  = plpy_prepare W (batch_insert_text insert_sql types n) (mjoin (replicate n types)) s.
Proof.
  intros Hn. unfold _plan_batch.
  rewrite replicate_fmap_join, strings_of_str, length_fmap.
  destruct n as [|n]; [lia|]. simpl. by rewrite take_app_length.
Qed.

Lemma plpy_prepare_inr sql types s p s' :
  plpy_prepare W sql types s = (inr p, s') →
  p = {| plan_query := sql; plan_argtypes := types |}
  ∧ st_trace s' = st_trace s ++ [EPrepare sql types].
Proof.
  unfold plpy_prepare, bind, log, modify. simpl.
  destruct (spi_prepare W sql types (st_db s)); [done|].
  intros ?. by simplify_eq.
Qed.

Lemma plpy_execute_plan_inr p args s u s' :
  plpy_execute_plan W p args s = (inr u, s') →
  st_trace s' = st_trace s ++ [EExecutePlan p args].
Proof.
  unfold plpy_execute_plan, bind, log, modify. simpl.
  destruct (spi_execute_plan W p args (st_db s)); [done|].
  intros ?. by simplify_eq.
Qed.
End BatchPrimitives.

Lemma bind_inr {db env A B} (m : M db env A) (k : A → M db env B) s b s' :
  bind m k s = (inr b, s') → ∃ a s1, m s = (inr a, s1) ∧ k a s1 = (inr b, s').
Proof. unfold bind. destruct (m s) as [[e|a] s1]; [done|eauto]. Qed.

Lemma plan_executions_app t1 t2 :
  plan_executions (t1 ++ t2) = plan_executions t1 ++ plan_executions t2.
Proof. apply omap_app. Qed.

Section Loop.
Context {db env : Type} (W : World db env).
Context (insert_sql : string) (types : list string) (B : nat) (HB : 0 < B).

(** The full-size plan is prepared at most once and then reused. *)
Lemma full_batch_plan_value full_batch_plan s p s1 :
  (full_batch_plan = None ∨ full_batch_plan = Some (batch_plan insert_sql types B)) →
  match full_batch_plan with
  | Some p => ret p
  | None => _plan_batch W insert_sql (PyStr <$> types) B
  end s = (inr p, s1) →
  p = batch_plan insert_sql types B
  ∧ ∃ new, st_trace s1 = st_trace s ++ new ∧ plan_executions new = [].
Proof.
  intros [->| ->] Hp.
  - rewrite plan_batch_str in Hp by done.
    apply plpy_prepare_inr in Hp as [-> Ht]. split; [done|]. eauto.
  - injection Hp as <- <-. split; [done|]. exists []. by rewrite app_nil_r.
Qed.

Lemma batch_insert_loop_spec rows : ∀ batch full_batch_plan s rest s',
  length batch < B →
  (full_batch_plan = None ∨ full_batch_plan = Some (batch_plan insert_sql types B)) →
  _batch_insert_loop W insert_sql (Z.of_nat B) (PyStr <$> types)
    (iter_of_list rows) full_batch_plan batch s = (inr rest, s') →
  ∃ full new,
    st_trace s' = st_trace s ++ new
    ∧ plan_executions new
      = (λ b, (batch_plan insert_sql types B, mjoin b)) <$> full
    ∧ Forall (λ b, length b = B) full
    ∧ batch ++ rows = mjoin full ++ rest
    ∧ length rest < B.
Proof.
  induction rows as [|row rows IH]; intros batch fp s rest s' Hlen Hfp Hrun.
  - simpl in Hrun. injection Hrun as <- <-.
    exists [], []. rewrite !app_nil_r. split_and!; try done.
  - cbn [iter_of_list _batch_insert_loop] in Hrun.
    case_bool_decide as Hfull.
    + assert (length (batch ++ [row]) = B) as HlenB.
      { rewrite length_app in *. simpl in *. lia. }
      rewrite HlenB in Hrun.
      apply bind_inr in Hrun as (p & s1 & Hp & Hrun).
      apply full_batch_plan_value in Hp as (-> & new1 & Ht1 & Hx1); [|done].
      apply bind_inr in Hrun as (u & s2 & Hexec & Hrun).
      apply plpy_execute_plan_inr in Hexec.
      apply IH in Hrun as (full & new & Ht & Hx & Hall & Hrows & Hrest);
        [|simpl; lia|by right].
      exists ((batch ++ [row]) :: full), (new1 ++ [EExecutePlan (batch_plan insert_sql types B) (mjoin (batch ++ [row]))] ++ new).
      split_and!.
      * rewrite Ht, Hexec, Ht1. by rewrite <- !app_assoc.
      * rewrite !plan_executions_app, Hx1, Hx. done.
      * by constructor.
      * simpl in *. rewrite <- !app_assoc. simpl. by rewrite Hrows.
      * done.
    + apply IH in Hrun as (full & new & Ht & Hx & Hall & Hrows & Hrest);
        [|rewrite length_app in *; simpl in *; lia|done].
      exists full, new. split_and!; try done.
      by rewrite <- app_assoc in Hrows.
Qed.
End Loop.

Lemma length_join_full {A} (B : nat) (full : list (list A)) :
  Forall (λ b, length b = B) full → length (mjoin full) = B * length full.
Proof.
  induction 1 as [|b full Hb _ IH]; simpl; [lia|].
  rewrite length_app, IH, Hb. lia.
Qed.

Lemma batch_insert_trace {db env} (W : World db env)
    (insert_sql : string) (batch_size : Z) (types : list string)
    (rows : list (list pyval)) (s s' : state db env) :
  (0 < batch_size)%Z →
  _batch_insert W insert_sql batch_size (PyStr <$> types) (iter_of_list rows) s
  = (inr (), s') →
  ∃ batches new,
    st_trace s' = st_trace s ++ new
    ∧ plan_executions new
      = (λ b, (batch_plan insert_sql types (length b), mjoin b)) <$> batches
    ∧ mjoin batches = rows
    ∧ Z.of_nat (length batches)
      = ((Z.of_nat (length rows) + batch_size - 1) / batch_size)%Z
    ∧ (∀ i b, batches !! i = Some b → S i < length batches →
              Z.of_nat (length b) = batch_size)
    ∧ (∀ b, last batches = Some b →
            (Z.of_nat (length rows) mod batch_size ≠ 0)%Z →
            Z.of_nat (length b) = (Z.of_nat (length rows) mod batch_size)%Z).
Proof.
  intros HB Hrun. unfold _batch_insert in Hrun.
  set (B := Z.to_nat batch_size).
  assert (batch_size = Z.of_nat B) as HBz by lia.
  assert (0 < B) as HB' by lia.
  rewrite HBz in Hrun |- *.
  apply bind_inr in Hrun as (rest & s1 & Hloop & Hrun).
  apply (batch_insert_loop_spec W insert_sql types B HB') in Hloop
    as (full & new & Ht & Hx & Hall & Hrows & Hrest); [|simpl; lia|by left].
  simpl in Hrows.
  assert (length rows = B * length full + length rest) as HL.
  { rewrite Hrows, length_app, (length_join_full B) by done. lia. }
  assert ((λ b, (batch_plan insert_sql types B, mjoin b)) <$> full
          = (λ b, (batch_plan insert_sql types (length b), mjoin b)) <$> full)
    as Hsame.
  { apply Forall_fmap_ext_1. eapply Forall_impl; [exact Hall|].
    intros b Hb. simpl in Hb. by rewrite Hb. }
  destruct rest as [|r rest].
  - injection Hrun as <-. exists full, new.
    rewrite app_nil_r in Hrows. simpl in HL.
    split_and!; [done|congruence|done|..].
    + apply (Z.div_unique _ _ _ (Z.of_nat B - 1)); [lia|nia].
    + intros i b Hb _. eapply Forall_lookup_1 in Hall; [|done]. simpl in Hall. lia.
    + intros b _ Hmod. exfalso. apply Hmod.
      symmetry. apply (Z.mod_unique _ _ (Z.of_nat (length full))); [lia|nia].
  - apply bind_inr in Hrun as (p & s2 & Hp & Hrun).
    rewrite plan_batch_str in Hp by (simpl; lia).
    apply plpy_prepare_inr in Hp as [-> Ht2].
    apply plpy_execute_plan_inr in Hrun.
    exists (full ++ [r :: rest]),
      (new ++ [EPrepare (batch_insert_text insert_sql types (length (r :: rest)))
                 (mjoin (replicate (length (r :: rest)) types));
               EExecutePlan (batch_plan insert_sql types (length (r :: rest)))
                 (mjoin (r :: rest))]).
    split_and!.
    + rewrite Hrun, Ht2, Ht. by rewrite <- !app_assoc.
    + rewrite plan_executions_app, Hx, Hsame, fmap_app. done.
    + rewrite Hrows. rewrite join_app. simpl. by rewrite app_nil_r.
    + rewrite length_app. simpl length in *.
      apply (Z.div_unique _ _ _ (Z.of_nat (length rest))); [lia|nia].
    + intros i b Hb Hi. rewrite length_app in Hi. simpl in Hi.
      rewrite lookup_app_l in Hb by lia.
      eapply Forall_lookup_1 in Hall; [|done]. simpl in Hall. lia.
    + intros b Hb _. rewrite last_snoc in Hb. injection Hb as <-.
      apply (Z.mod_unique _ _ (Z.of_nat (length full))); [lia|].
      simpl length in *. nia.
Qed.

Section Returns.
Context {db env : Type} (W : World db env) (Hok : accepts_batches W).

Lemma plpy_prepare_returns sql types s :
  ∃ p s', plpy_prepare W sql types s = (inr p, s').
Proof.
  unfold plpy_prepare, bind, log, modify. simpl.
  rewrite (proj1 Hok). eauto.
Qed.

Lemma plpy_execute_plan_returns p args s :
  ∃ s', plpy_execute_plan W p args s = (inr (), s').
Proof.
  unfold plpy_execute_plan, bind, log, modify. simpl.
  destruct (proj2 Hok p args (st_db s)) as [d' ->]. eauto.
Qed.

Lemma batch_insert_loop_returns insert_sql (B : nat) types rows :
  0 < B → ∀ full_batch_plan batch s,
  ∃ rest s',
    _batch_insert_loop W insert_sql (Z.of_nat B) (PyStr <$> types)
      (iter_of_list rows) full_batch_plan batch s = (inr rest, s').
Proof.
  intros HB. induction rows as [|row rows IH]; intros fp batch s.
  - simpl. unfold ret. eauto.
  - cbn [iter_of_list _batch_insert_loop]. case_bool_decide as Hfull; [|apply IH].
    assert (∃ p s1, match fp with
                    | Some p => ret p
                    | None => _plan_batch W insert_sql (PyStr <$> types)
                                (length (batch ++ [row]))
                    end s = (inr p, s1)) as (p & s1 & Hp).
    { destruct fp as [p|]; [unfold ret; eauto|].
      rewrite plan_batch_str by (rewrite length_app; simpl; lia).
      apply plpy_prepare_returns. }
    unfold bind at 1. rewrite Hp.
    destruct (plpy_execute_plan_returns p (mjoin (batch ++ [row])) s1)
      as [s2 Hexec].
    unfold bind at 1. rewrite Hexec. apply IH.
Qed.

Lemma batch_insert_returns insert_sql (batch_size : Z) types rows s :
  (0 < batch_size)%Z →
  ∃ s', _batch_insert W insert_sql batch_size (PyStr <$> types)
          (iter_of_list rows) s = (inr (), s').
Proof.
  intros HB. unfold _batch_insert.
  replace batch_size with (Z.of_nat (Z.to_nat batch_size)) by lia.
  destruct (batch_insert_loop_returns insert_sql (Z.to_nat batch_size) types
              rows ltac:(lia) None [] s) as (rest & s1 & Hloop).
  unfold bind at 1. rewrite Hloop. destruct rest as [|r rest].
  - unfold ret. eauto.
  - destruct (plpy_prepare_returns
                (batch_insert_text insert_sql types (length (r :: rest)))
                (mjoin (replicate (length (r :: rest)) types)) s1)
      as (p & s2 & Hp).
    unfold bind. rewrite plan_batch_str by (simpl; lia). rewrite Hp.
    apply plpy_execute_plan_returns.
Qed.
End Returns.

(** C4. With a batch size above zero and a session that accepts the
    statements, [_batch_insert] returns, and the executions it made are
    those of consecutive batches of the rows: joined they give the rows
    in order, there are ceil(L / B) of them, every batch but the last has
    B rows, a non-zero remainder is the size of the last one, and each
    execution uses the statement prepared for the size of its batch. *)
Theorem batch_insert_spec {db env} (W : World db env)
    (insert_sql : string) (batch_size : Z) (types : list string)
    (rows : list (list pyval)) (s : state db env) :
  (0 < batch_size)%Z → accepts_batches W →
  ∃ s' batches new,
    _batch_insert W insert_sql batch_size (PyStr <$> types) (iter_of_list rows) s
    = (inr (), s')
    ∧ st_trace s' = st_trace s ++ new
    ∧ plan_executions new
      = (λ b, (batch_plan insert_sql types (length b), mjoin b)) <$> batches
    ∧ mjoin batches = rows
    ∧ Z.of_nat (length batches)
      = ((Z.of_nat (length rows) + batch_size - 1) / batch_size)%Z
    ∧ (∀ i b, batches !! i = Some b → S i < length batches →
              Z.of_nat (length b) = batch_size)
    ∧ (∀ b, last batches = Some b →
            (Z.of_nat (length rows) mod batch_size ≠ 0)%Z →
            Z.of_nat (length b) = (Z.of_nat (length rows) mod batch_size)%Z).
Proof.
  intros HB Hok.
  destruct (batch_insert_returns W Hok insert_sql batch_size types rows s HB)
    as [s' Hrun].
  destruct (batch_insert_trace W insert_sql batch_size types rows s s' HB Hrun)
    as (batches & new & H).
  exists s', batches, new. split; [done|exact H].
Qed.

Lemma batch_insert_spec_witness :
  ∃ s' batches,
    _batch_insert (Demo.world Demo.nothing_fails None) "insert into t values "
      2 (PyStr <$> ["int4"]) (iter_of_list [[PyInt 1]; [PyInt 2]; [PyInt 3]])
      Demo.start = (inr (), s')
    ∧ mjoin batches = [[PyInt 1]; [PyInt 2]; [PyInt 3]]
    ∧ length batches = 2.
Proof.
  destruct (batch_insert_spec (Demo.world Demo.nothing_fails None)
              "insert into t values " 2 ["int4"]
              [[PyInt 1]; [PyInt 2]; [PyInt 3]] Demo.start)
    as (s' & batches & new & Hrun & _ & _ & Hjoin & Hcount & _).
  - lia.
  - split; intros; simpl; eauto.
  - exists s', batches. split_and!; [done|done|].
    apply Nat2Z.inj. rewrite Hcount. reflexivity.
Defined.

(** ** Schema and query cache *)

Lemma Qltb_lt (x y : Q) : Qltb x y = true ↔ Qlt x y.
Proof. unfold Qltb, Qlt. apply Z.ltb_lt. Qed.

Lemma py_eq_text (a b : pyval) : is_text a → py_eq a b = true ↔ a = b.
Proof.
  intros [->|[s ->]]; destruct b; simpl; try (split; done).
  rewrite bool_decide_eq_true. split; congruence.
Qed.

Section Cache.
Context {db env : Type} (W : World db env).
Implicit Types s : state db env.

#[local] Instance same_cache_frame :
  Frame (same_cache (db:=db) (env:=env)).
Proof.
  split; unfold same_cache; try done.
  intros s1 s2 s3 [H1 H2] [H3 H4]. split; congruence.
Qed.

Lemma keeps_discover_row (R : relation (state db env)) `{!Frame R} acc row :
  keeps R (discover_row W acc row).
Proof. unfold discover_row. repeat case_bool_decide; keeps_auto. Qed.

Lemma is_cached_init query_cache server user catalog schema now :
  is_cached (SchemaCache_init query_cache) server user catalog schema now = false.
Proof.
  unfold is_cached. simpl. by rewrite !andb_false_r.
Qed.

Lemma set_cache_value server user catalog schema names stmts expire s :
  set_cache server user catalog schema names stmts expire s
  = (inr (),
     set_SchemaCacheEntry
       {| self_server := server; self_user := user; self_catalog := catalog;
          self_schema := schema; self_schema_names := Some names;
          self_statements := Some stmts; self_expire_time := Some expire;
          self_query_cache := length (st_dicts s) |}
       (set_dicts (st_dicts s ++ [∅]) s)).
Proof. done. Qed.

Lemma new_dict_value s :
  new_dict s = (inr (length (st_dicts s)), set_dicts (st_dicts s ++ [∅]) s).
Proof. done. Qed.

Lemma is_cached_after_set_cache
    server user catalog schema names stmts expire query_cache
    server' user' catalog' schema' now :
  is_text server → is_text user → is_text catalog → is_text schema →
  is_cached
    {| self_server := server; self_user := user; self_catalog := catalog;
       self_schema := schema; self_schema_names := Some names;
       self_statements := Some stmts; self_expire_time := Some expire;
       self_query_cache := query_cache |}
    server' user' catalog' schema' now = true
  ↔ (server', user', catalog', schema') = (server, user, catalog, schema)
    ∧ Qlt now expire.
Proof.
  intros H1 H2 H3 H4. unfold is_cached. simpl.
  rewrite !andb_true_iff, !py_eq_text, Qltb_lt by done.
  split.
  - intros [[[[[-> ->] ->] ->] _] ?]. done.
  - intros [[= -> -> -> ->] ?]. split_and!; eauto.
Qed.

(** The plan stage on a schema-cache miss: the entry is replaced, its
    expiry is the clock's reading at that moment plus 60, its nested
    query cache is a new empty dict, and the local [query_cache] is
    another new empty dict. *)
Lemma plan_or_cached_miss
    client server user catalog schema login_user s planned s' :
  is_cached (SchemaCacheEntry s) server user catalog schema
    (time_time W (st_env s)).1 = false →
  plan_or_cached W client server user catalog schema login_user s
  = (inr planned, s') →
  ∃ names stmts schema_name e,
    planned = (Some names, Some stmts, S (length (st_dicts s)), schema_name)
    ∧ SchemaCacheEntry s'
      = {| self_server := server; self_user := user; self_catalog := catalog;
           self_schema := schema; self_schema_names := Some names;
           self_statements := Some stmts;
           self_expire_time := Some (Qplus (time_time W e).1 (inject_Z 60));
           self_query_cache := length (st_dicts s) |}
    ∧ st_dicts s' = st_dicts s ++ [∅; ∅].
Proof.
  intros Hmiss Hrun. unfold plan_or_cached in Hrun.
  apply bind_inr in Hrun as (t & s1 & Ht & Hrun).
  unfold time_time_ in Ht.
  destruct (time_time W (st_env s)) as [t0 e0] eqn:Hclock.
  injection Ht as <- <-.
  apply bind_inr in Hrun as (s0 & s1 & Hget & Hrun).
  injection Hget as <- <-. simpl in Hmiss, Hrun. rewrite Hmiss in Hrun.
  apply bind_inr in Hrun as (rows & s2 & Hrows & Hrun).
  apply bind_inr in Hrun as (found & s3 & Hfound & Hrun).
  destruct (generate_statements W login_user found.1 found.2)
    as [[stmts names] schema_name].
  apply bind_inr in Hrun as (now & s4 & Hnow & Hrun).
  apply bind_inr in Hrun as (u & s5 & Hset & Hrun).
  apply bind_inr in Hrun as (qc & s6 & Hnew & Hrun).
  injection Hrun as <- <-.
  assert (same_cache (set_env e0 s) s2) as [_ Hd2].
  { pose proof (keeps_client_run W same_cache client
      ("select table_schema, table_name, column_name, is_nullable, data_type"
       +:+ " from information_schema.columns") (set_env e0 s)) as Hk.
    by rewrite Hrows in Hk. }
  assert (same_cache s2 s3) as [_ Hd3].
  { pose proof (keeps_for_each same_cache (default [] rows) (discover_row W)
                  (∅, None) (keeps_discover_row same_cache) s2) as Hk.
    by rewrite Hfound in Hk. }
  unfold time_time_ in Hnow.
  destruct (time_time W (st_env s3)) as [t1 e1] eqn:Hclock1.
  injection Hnow as <- <-.
  rewrite set_cache_value in Hset. rewrite new_dict_value in Hnew.
  simplify_eq. simpl. rewrite Hd3, Hd2. simpl.
  exists names, stmts, schema_name, (st_env s3). rewrite Hclock1. simpl.
  split_and!; [|done|by rewrite <- app_assoc].
  by rewrite length_app, Nat.add_1_r.
Qed.

End Cache.

(** C7. A cache that was never populated is valid for no key. After
    [set_cache] every field holds the value passed in, the nested query
    cache is a new empty dict, and [is_cached] is true exactly for the
    stored key at a time strictly before the stored expiry, so false once
    that time is reached with an unchanged key. The orchestrator stores
    as expiry its reading of the clock plus 60. *)
Theorem schema_cache_validity_and_population {db env} (W : World db env) :
  (∀ query_cache server user catalog schema now,
     is_cached (SchemaCache_init query_cache) server user catalog schema now
     = false)
  ∧ (∀ server user catalog schema names stmts expire (s : state db env),
       is_text server → is_text user → is_text catalog → is_text schema →
       ∃ s', set_cache server user catalog schema names stmts expire s
             = (inr (), s')
         ∧ self_server (SchemaCacheEntry s') = server
         ∧ self_user (SchemaCacheEntry s') = user
         ∧ self_catalog (SchemaCacheEntry s') = catalog
         ∧ self_schema (SchemaCacheEntry s') = schema
         ∧ self_schema_names (SchemaCacheEntry s') = Some names
         ∧ self_statements (SchemaCacheEntry s') = Some stmts
         ∧ self_expire_time (SchemaCacheEntry s') = Some expire
         ∧ st_dicts s' !! self_query_cache (SchemaCacheEntry s') = Some ∅
         ∧ (∀ server' user' catalog' schema' now,
              is_cached (SchemaCacheEntry s') server' user' catalog' schema' now
              = true
              ↔ (server', user', catalog', schema')
                = (server, user, catalog, schema)
                ∧ Qlt now expire)
         ∧ (∀ now, Qle expire now →
              is_cached (SchemaCacheEntry s') server user catalog schema now
              = false))
  ∧ (∀ client server user catalog schema login_user (s : state db env)
       planned s',
       is_cached (SchemaCacheEntry s) server user catalog schema
         (time_time W (st_env s)).1 = false →
       plan_or_cached W client server user catalog schema login_user s
       = (inr planned, s') →
       ∃ e, self_expire_time (SchemaCacheEntry s')
            = Some (Qplus (time_time W e).1 (inject_Z 60))
         ∧ st_dicts s' !! self_query_cache (SchemaCacheEntry s') = Some ∅).
Proof.
  split_and!.
  - apply is_cached_init.
  - intros server user catalog schema names stmts expire s H1 H2 H3 H4.
    eexists. split; [apply set_cache_value|]. simpl.
    split_and!; try done.
    + by rewrite lookup_app_r, Nat.sub_diag.
    + intros. by apply is_cached_after_set_cache.
    + intros now Hle. apply not_true_is_false. intros Hc.
      apply is_cached_after_set_cache in Hc as [_ Hlt]; [|done..].
      by apply Qlt_not_le in Hlt.
  - intros client server user catalog schema login_user s planned s' Hmiss Hrun.
    destruct (plan_or_cached_miss W _ _ _ _ _ _ _ _ _ Hmiss Hrun)
      as (names & stmts & schema_name & e & _ & Hentry & Hdicts).
    exists e. rewrite Hentry, Hdicts. simpl. split; [done|].
    by rewrite lookup_app_r, Nat.sub_diag.
Qed.

Lemma schema_cache_validity_and_population_witness :
  (∃ s', set_cache (PyStr "presto:8080") (PyStr "bob") (PyStr "hive") PyNone
           ["sales"] ["grant"] (inject_Z 60) Demo.start = (inr (), s')
     ∧ is_cached (SchemaCacheEntry s') (PyStr "presto:8080") (PyStr "bob")
         (PyStr "hive") PyNone (inject_Z 59) = true
     ∧ is_cached (SchemaCacheEntry s') (PyStr "presto:8080") (PyStr "bob")
         (PyStr "hive") PyNone (inject_Z 60) = false)
  ∧ ∃ e, self_expire_time
           (SchemaCacheEntry
              (plan_or_cached (Demo.world Demo.nothing_fails (Some Demo.sales))
                 Demo.client (PyStr "presto:8080") (PyStr "bob") (PyStr "hive")
                 PyNone "bob" Demo.start).2)
         = Some (Qplus (time_time (Demo.world Demo.nothing_fails
                                     (Some Demo.sales)) e).1 (inject_Z 60)).
Proof.
  pose proof (schema_cache_validity_and_population
                (Demo.world Demo.nothing_fails (Some Demo.sales)))
    as (_ & Hset & Hplan).
  split.
  - destruct (Hset (PyStr "presto:8080") (PyStr "bob") (PyStr "hive") PyNone
                ["sales"] ["grant"] (inject_Z 60) Demo.start)
      as (s' & Hrun & _ & _ & _ & _ & _ & _ & _ & _ & Hvalid & Hexpired);
      [by right; eexists|by right; eexists|by right; eexists|by left|].
    exists s'. split_and!; [done| |].
    + apply Hvalid. split; [done|]. by vm_compute.
    + apply Hexpired. by vm_compute.
  - specialize (Hplan Demo.client (PyStr "presto:8080") (PyStr "bob")
                  (PyStr "hive") PyNone "bob" Demo.start).
    destruct (plan_or_cached (Demo.world Demo.nothing_fails (Some Demo.sales))
                Demo.client (PyStr "presto:8080") (PyStr "bob") (PyStr "hive")
                PyNone "bob" Demo.start) as [[e|planned] s'] eqn:Hrun.
    + vm_compute in Hrun. discriminate Hrun.
    + assert (is_cached (SchemaCacheEntry Demo.start) (PyStr "presto:8080")
                (PyStr "bob") (PyStr "hive") PyNone
                (time_time (Demo.world Demo.nothing_fails (Some Demo.sales))
                   (st_env Demo.start)).1 = false) as Hmiss
        by (vm_compute; reflexivity).
      destruct (Hplan planned s' Hmiss eq_refl) as (e & He & _).
      by exists e.
Defined.

(** ** The schema sent to the remote engine *)

Lemma py_eq_default_search_path (search_path : list pyval) :
  py_eq (PyList search_path) (PyList [PyStr "$user"; PyStr "public"]) = true
  ↔ search_path = [PyStr "$user"; PyStr "public"].
Proof.
  split; [|by intros ->].
  destruct search_path as [|a [|b [|c l]]]; simpl; try done.
  - by rewrite andb_false_r.
  - destruct a, b; simpl; rewrite ?andb_false_r, ?andb_true_r; try done.
    rewrite andb_true_iff, !bool_decide_eq_true.
    by intros [-> ->].
  - by rewrite !andb_false_r.
Qed.

Section Presto.
Context {db env : Type} (W : World db env).
Implicit Types s : state db env.

Lemma plpy_execute_value sql s r d :
  spi_execute W sql (st_db s) = inr (r, d) →
  plpy_execute W sql s
  = (inr r, set_db d (set_trace (st_trace s ++ [EExecute sql]) s)).
Proof.
  intros H. unfold plpy_execute, bind, log, modify. simpl. by rewrite H.
Qed.

Lemma first_value_value rows v s :
  first_cell rows = Some v → first_value rows s = (inr v, s).
Proof.
  unfold first_cell, first_value.
  destruct (res_rows rows) as [|row ?]; simpl; [done|].
  destruct (row_values row); simpl; [done|]. by intros [= ->].
Qed.

(** Lines 220-222 on a search path that is a list. *)
Lemma choose_schema_list schema (search_path : list pyval) s :
  ∃ sent,
    choose_schema schema (PyList search_path) s = (inr sent, s)
    ∧ (∀ first more, search_path = first :: more →
         search_path ≠ [PyStr "$user"; PyStr "public"] → sent = first)
    ∧ (search_path = [] ∨ search_path = [PyStr "$user"; PyStr "public"] →
         sent = schema).
Proof.
  unfold choose_schema.
  destruct (py_eq (PyList search_path) (PyList [PyStr "$user"; PyStr "public"]))
    eqn:Heq.
  - apply py_eq_default_search_path in Heq as ->. exists schema.
    split_and!; [done| |done]. intros first more _ Hne. done.
  - assert (search_path ≠ [PyStr "$user"; PyStr "public"]) as Hne.
    { intros Hdef. apply py_eq_default_search_path in Hdef. congruence. }
    destruct search_path as [|first more].
    + exists schema. split_and!; [done| |done]. intros ?? [=].
    + exists first. split_and!; [done| |].
      * by intros ?? [= <- <-].
      * intros [[=]|Hdef]. done.
Qed.
End Presto.

(** C10. When the search path of the session is a non-empty list other
    than ['$user', 'public'], the remote client is opened with the first
    schema of the search path and the caller's [schema] is ignored; when
    it is empty or equal to ['$user', 'public'], the client is opened
    with the caller's [schema]. *)
Theorem run_presto_sends_schema_of_search_path {db env} (W : World db env)
    (server user catalog schema : pyval) (result_table query : string)
    (s : state db env) (path_rows zone_rows : spi_result) (d1 d2 : db)
    (search_path : list pyval) (time_zone : pyval) :
  spi_execute W "select ('{' || current_setting('search_path') || '}')::text[]"
    (st_db s) = inr (path_rows, d1) →
  first_cell path_rows = Some (PyList search_path) →
  spi_execute W "show timezone" d1 = inr (zone_rows, d2) →
  first_cell zone_rows = Some time_zone →
  ∃ sent rest,
    st_trace (run_presto_as_temp_table W server user catalog schema
                result_table query s).2
    = st_trace s
      ++ [EExecute "select ('{' || current_setting('search_path') || '}')::text[]";
          EExecute "show timezone";
          EPrestoQuery
            {| Client_server := server; Client_user := user;
               Client_catalog := catalog; Client_schema := sent;
               Client_time_zone := time_zone |} query]
      ++ rest
    ∧ (∀ first more, search_path = first :: more →
         search_path ≠ [PyStr "$user"; PyStr "public"] → sent = first)
    ∧ (search_path = [] ∨ search_path = [PyStr "$user"; PyStr "public"] →
         sent = schema).
Proof.
  intros Hpath Hcell Hzone Hzcell.
  set (s1 := set_db d1 (set_trace (st_trace s ++ [EExecute
    "select ('{' || current_setting('search_path') || '}')::text[]"]) s)).
  destruct (choose_schema_list schema search_path s1) as (sent & Hsent & H1 & H2).
  exists sent.
  set (s2 := set_db d2 (set_trace (st_trace s1 ++ [EExecute "show timezone"]) s1)).
  set (client := {| Client_server := server; Client_user := user;
                    Client_catalog := catalog; Client_schema := sent;
                    Client_time_zone := time_zone |}).
  assert (∃ rest, st_trace (run_presto_as_temp_table W server user catalog schema
                result_table query s).2 = st_trace s2 ++ [EPrestoQuery client query] ++ rest)
    as [rest Hrest].
  { unfold run_presto_as_temp_table, try_except.
    unfold bind at 1. unfold _get_session_search_path_array at 1.
    unfold bind at 1. rewrite (plpy_execute_value W _ _ _ _ Hpath).
    rewrite (first_value_value _ _ _ Hcell). fold s1.
    unfold bind at 1. rewrite Hsent.
    unfold bind at 1. unfold _get_session_time_zone at 1.
    unfold bind at 1.
    rewrite (plpy_execute_value W "show timezone" s1 zone_rows d2 Hzone).
    rewrite (first_value_value _ _ _ Hzcell). fold s2. fold client.
    unfold bind at 1. unfold client_query at 1. unfold bind at 1.
    unfold log, modify. simpl.
    destruct (presto_submit W client query (st_env s)) as [[e|q] e'].
    - destruct (caught e); by exists [].
    - set (s3 := set_env e' _).
      pose proof (keeps_try_finally trace_extends
        (columns <- lift (q_columns q) ;;
         create_and_insert W result_table columns.*1
           ((PyStr ∘ _pg_result_type) <$> columns.*2) (q_results q))
        q_close) as Hk.
      destruct (Hk ltac:(keeps_auto; apply keeps_create_and_insert; apply _)
                   ltac:(apply keeps_q_close; apply _) s3) as [rest Hrest].
      simpl in Hrest.
      destruct (try_finally _ _ s3) as [[e|u] s4]; simpl in *.
      + exists rest. destruct (caught e); simpl; rewrite Hrest;
          by rewrite <- app_assoc.
      + exists rest. rewrite Hrest. by rewrite <- app_assoc. }
  exists rest. split_and!; [|done|done].
  rewrite Hrest. subst s2 s1. simpl. by rewrite <- !app_assoc.
Qed.

Lemma run_presto_sends_schema_of_search_path_witness :
  ∃ rest,
    st_trace (run_presto_as_temp_table (Demo.world Demo.nothing_fails None)
                (PyStr "presto:8080") (PyStr "bob") (PyStr "hive")
                (PyStr "default") "t1" "select * from orders" Demo.start).2
    = [EExecute "select ('{' || current_setting('search_path') || '}')::text[]";
       EExecute "show timezone";
       EPrestoQuery
         {| Client_server := PyStr "presto:8080"; Client_user := PyStr "bob";
            Client_catalog := PyStr "hive"; Client_schema := PyStr "analytics";
            Client_time_zone := PyStr "UTC" |} "select * from orders"]
      ++ rest.
Proof.
  destruct (run_presto_sends_schema_of_search_path
              (Demo.world Demo.nothing_fails None)
              (PyStr "presto:8080") (PyStr "bob") (PyStr "hive")
              (PyStr "default") "t1" "select * from orders" Demo.start
              (Demo.answer
                 "select ('{' || current_setting('search_path') || '}')::text[]")
              (Demo.answer "show timezone")
              ["select ('{' || current_setting('search_path') || '}')::text[]"]
              ["select ('{' || current_setting('search_path') || '}')::text[]";
               "show timezone"]
              [PyStr "analytics"; PyStr "public"] (PyStr "UTC"))
    as (sent & rest & Htrace & Hfirst & _); [by vm_compute..|].
  exists rest. rewrite Htrace.
  rewrite (Hfirst (PyStr "analytics") [PyStr "public"] eq_refl); [done|].
  intros [=].
Defined.

(** ** The mirroring plan *)

Lemma append_nil_r (s : string) : s +:+ "" = s.
Proof.
  induction s as [|a s IH]; [done|].
  change (String a (s +:+ "") = String a s). by rewrite IH.
Qed.

Lemma append_assoc (s1 s2 s3 : string) : (s1 +:+ s2) +:+ s3 = s1 +:+ s2 +:+ s3.
Proof.
  induction s1 as [|a s1 IH]; [done|].
  change (String a ((s1 +:+ s2) +:+ s3) = String a (s1 +:+ s2 +:+ s3)).
  by rewrite IH.
Qed.

Lemma concat_empty_cons (x : string) (l : list string) :
  String.concat "" (x :: l) = x +:+ String.concat "" l.
Proof. destruct l; simpl; [by rewrite append_nil_r|done]. Qed.

Lemma concat_empty_app (l1 l2 : list string) :
  String.concat "" (l1 ++ l2) = String.concat "" l1 +:+ String.concat "" l2.
Proof.
  induction l1 as [|x l1 IH]; [done|].
  rewrite <- app_comm_cons, !concat_empty_cons, IH. by rewrite append_assoc.
Qed.

Section PlanProofs.
Context {db env : Type} (W : World db env).

(** The loop with the [first] flag joins the clauses with [",\n  "]. *)
Lemma alter_columns_loop (columns : list Column) : ∀ alter_sql (first : bool),
  String.concat ""
    (foldl (λ '(alter_sql, first) '(column_name, (column_type, not_null)),
              let alter_sql :=
                if first : bool then alter_sql
                else alter_sql ++ ["," +:+ NL +:+ "  "] in
              let alter_sql :=
                alter_sql ++ ["add " +:+ quote_ident W column_name +:+ " "
                              +:+ column_type] in
              (if not_null : bool then alter_sql ++ [" not null"] else alter_sql,
               false))
       (alter_sql, first)
       (zip (Column_name <$> columns)
          (zip ((_pg_table_type ∘ Column_type) <$> columns)
             ((negb ∘ py_truthy ∘ Column_nullable) <$> columns)))).1
  = String.concat "" alter_sql
    +:+ match columns with
        | [] => ""
        | _ :: _ =>
            (if first then "" else "," +:+ NL +:+ "  ")
            +:+ String.concat ("," +:+ NL +:+ "  ")
                  (add_column_clause W <$> columns)
        end.
Proof.
  induction columns as [|c columns IH]; intros alter_sql first.
  - simpl. by rewrite append_nil_r.
  - rewrite !fmap_cons. cbn [zip_with foldl]. rewrite IH. clear IH.
    unfold compose. set (sep := "," +:+ NL +:+ "  ").
    assert (String.concat ""
              (if negb (py_truthy (Column_nullable c))
               then ((if first then alter_sql else alter_sql ++ [sep])
                     ++ ["add " +:+ quote_ident W (Column_name c) +:+ " "
                         +:+ _pg_table_type (Column_type c)]) ++ [" not null"]
               else (if first then alter_sql else alter_sql ++ [sep])
                    ++ ["add " +:+ quote_ident W (Column_name c) +:+ " "
                        +:+ _pg_table_type (Column_type c)])
            = String.concat "" alter_sql
              +:+ (if first then "" else sep)
              +:+ add_column_clause W c) as ->.
    { unfold add_column_clause.
      destruct first, (py_truthy (Column_nullable c)); cbn [negb];
        rewrite ?concat_empty_app; cbn [String.concat];
        rewrite ?append_assoc, ?append_nil_r; done. }
    destruct columns as [|c' columns].
    + cbn [fmap list_fmap String.concat]. by rewrite !append_nil_r, ?append_assoc.
    + rewrite !fmap_cons. cbn [String.concat]. by rewrite ?append_assoc.
Qed.

Lemma build_alter_table_holder_sql_columns schema_name table_name columns :
  _build_alter_table_holder_sql W schema_name table_name
    (Column_name <$> columns) ((_pg_table_type ∘ Column_type) <$> columns)
    ((negb ∘ py_truthy ∘ Column_nullable) <$> columns)
  = "alter table " +:+ quote_ident W schema_name +:+ "."
    +:+ quote_ident W table_name +:+ " " +:+ NL +:+ "  "
    +:+ String.concat ("," +:+ NL +:+ "  ") (add_column_clause W <$> columns).
Proof.
  unfold _build_alter_table_holder_sql.
  pose proof (alter_columns_loop columns
    ["alter table " +:+ quote_ident W schema_name +:+ "."
     +:+ quote_ident W table_name +:+ " " +:+ NL +:+ "  "] true) as Hloop.
  destruct (foldl _ _ _) as [alter_sql first]. simpl in Hloop. rewrite Hloop.
  rewrite ?append_assoc. by destruct columns.
Qed.

Lemma plan_table_value schema_name statements table_holder_id item :
  plan_table W schema_name (statements, table_holder_id) item
  = (statements
     ++ table_statements W table_holder_id (schema_name, item.1, item.2),
     table_holder_id + 1).
Proof.
  destruct item as [table_name columns]. unfold plan_table, table_statements.
  rewrite build_alter_table_holder_sql_columns. simpl.
  by rewrite <- !app_assoc.
Qed.

Lemma plan_tables_value schema_name tables : ∀ statements table_holder_id,
  foldl (plan_table W schema_name) (statements, table_holder_id) tables
  = (statements
     ++ mjoin (imap (λ i, table_statements W (table_holder_id + i))
                 ((λ t, (schema_name, t.1, t.2)) <$> tables)),
     table_holder_id + length tables).
Proof.
  induction tables as [|t tables IH]; intros statements table_holder_id.
  - simpl. by rewrite app_nil_r, Nat.add_0_r.
  - cbn [foldl]. rewrite plan_table_value, IH.
    rewrite fmap_cons, imap_cons. cbn [mjoin list_join]. rewrite Nat.add_0_r.
    rewrite <- app_assoc. f_equal; [|simpl; lia].
    do 3 f_equal. apply imap_ext. intros i x _. simpl. f_equal. lia.
Qed.

Lemma plan_schemas_value items : ∀ statements schema_names table_holder_id sn,
  foldl (plan_schema W) (statements, schema_names, table_holder_id, sn) items
  = (statements
     ++ mjoin (imap (λ i, table_statements W (table_holder_id + i))
                 (tables_of items)),
     schema_names ++ (filter (λ item, negb (system_schema item.1)) items).*1,
     table_holder_id + length (tables_of items),
     from_option (Some ∘ fst) sn (last items)).
Proof.
  induction items as [|[schema_name tables] items IH];
    intros statements schema_names table_holder_id sn.
  - simpl. by rewrite !app_nil_r, Nat.add_0_r.
  - cbn [foldl]. unfold plan_schema at 2.
    assert (from_option (Some ∘ fst) (Some schema_name) (last items)
            = from_option (Some ∘ fst) sn (last ((schema_name, tables) :: items)))
      as Hlast.
    { destruct items as [|item items]; [done|]. rewrite last_cons_cons.
      destruct (last (item :: items)) eqn:Hl; [done|].
      by apply last_None in Hl. }
    unfold tables_of. rewrite filter_cons. cbn [fst].
    fold (system_schema schema_name).
    destruct (system_schema schema_name) eqn:Hsys; cbn [negb].
    + rewrite decide_False by (intros H; exact H).
      rewrite IH, Hlast. done.
    + rewrite decide_True by exact I.
      rewrite plan_tables_value, IH, Hlast.
      rewrite bind_cons, imap_app, join_app, length_app, length_fmap.
      rewrite fmap_cons. cbn [fst snd].
      rewrite <- !app_assoc, Nat.add_assoc.
      rewrite (imap_ext
        (λ i, table_statements W (table_holder_id + length (sorted_items tables) + i))
        (λ n, table_statements W (table_holder_id + (length (sorted_items tables) + n))))
        by (intros i x _; simpl; f_equal; lia).
      done.
Qed.
End PlanProofs.

Lemma key_le_ne_lt {V} (a b : string * V) :
  key_le a b → a.1 ≠ b.1 → key_lt a b.
Proof.
  unfold key_le, key_lt, String.le, String.leb, String.ltb.
  destruct (String.compare a.1 b.1) eqn:Hc; try done.
  apply String.compare_eq_iff in Hc. done.
Qed.

Lemma sorted_distinct_keys {V} (l : list (string * V)) :
  StronglySorted key_le l → NoDup l.*1 → StronglySorted key_lt l.
Proof.
  induction 1 as [|a l Hs IH Hall]; intros Hnd; [constructor|].
  rewrite fmap_cons in Hnd. apply NoDup_cons in Hnd as [Hnotin Hnd].
  constructor; [by apply IH|].
  rewrite Forall_forall in Hall |- *. intros b Hb.
  apply key_le_ne_lt; [by apply Hall|].
  intros Heq. apply Hnotin. rewrite Heq. by apply list_elem_of_fmap_2.
Qed.

Lemma sorted_items_spec {V} (d : gmap string V) :
  StronglySorted key_lt (sorted_items d)
  ∧ ∀ k v, (k, v) ∈ sorted_items d ↔ d !! k = Some v.
Proof.
  assert (Transitive (@key_le V)) as Htrans.
  { intros a b c. unfold key_le. apply transitivity. }
  assert (Total (@key_le V)) as Htotal.
  { intros a b. unfold key_le. apply total, _. }
  pose proof (merge_sort_Permutation (@key_le V) (map_to_list d)) as Hperm.
  fold (sorted_items d) in Hperm. split.
  - pose proof (StronglySorted_merge_sort (@key_le V) (map_to_list d)) as Hs.
    fold (sorted_items d) in Hs.
    assert (NoDup (sorted_items d).*1) as Hnd.
    { rewrite Hperm. apply NoDup_fst_map_to_list. }
    by apply sorted_distinct_keys.
  - intros k v. rewrite Hperm. apply elem_of_map_to_list.
Qed.

(** C6. The schemas named sys and information_schema are left out; the
    remaining schemas are taken in the order of their names and, within
    each, the tables in the order of their names; the table at position
    [i] of that enumeration, counted from 0, gets placeholder table [i]
    and three consecutive statements: the move of the placeholder into
    the schema, its rename to the table name, and the ALTER that adds one
    column per remote column with the mapped type, [not null] exactly for
    the columns that are not nullable. The two statements for the role
    come first. *)
Theorem mirroring_plan_spec {db env} (W : World db env)
    (login_user : string) (schemas : gmap string (gmap string (list Column)))
    (schema_name : option string) :
  (generate_statements W login_user schemas schema_name).1.2
  = (filter (λ item, negb (system_schema item.1)) (sorted_items schemas)).*1
  ∧ (generate_statements W login_user schemas schema_name).1.1
    = role_statements W login_user
      ++ mjoin (imap (table_statements W) (mirrored_tables schemas))
  ∧ (∀ V (d : gmap string V),
       StronglySorted key_lt (sorted_items d)
       ∧ ∀ k v, (k, v) ∈ sorted_items d ↔ d !! k = Some v).
Proof.
  unfold generate_statements.
  rewrite (plan_schemas_value W (sorted_items schemas)).
  split_and!; [done|done|]. intros V d. apply sorted_items_spec.
Qed.

Example mirroring_plan_sales :
  (generate_statements (Demo.world Demo.nothing_fails None) "bob"
     {[ "sales" := {[ "orders" :=
          [ {| Column_name := "id"; Column_type := "integer";
               Column_nullable := PyBool false |};
            {| Column_name := "total"; Column_type := "double";
               Column_nullable := PyBool true |} ] ]};
        "information_schema" := {[ "tables" := [] ]} ]} None).1
  = ([ "do $$ begin if not exists (select * from pg_catalog.pg_roles where rolname='bob') then create role bob with login; end if; end $$";
       "grant select on all tables in schema prestogres_catalog to bob";
       "alter table prestogres_catalog.table_holder_0 set schema sales";
       "alter table sales.table_holder_0 rename to orders";
       "alter table sales.orders " +:+ NL +:+ "  add id integer not null,"
       +:+ NL +:+ "  add total double precision" ],
     ["sales"]).
Proof. by vm_compute. Qed.

(** ** Failures that are recovered and failures that abort *)

Section Recovery.
Context {db env : Type} (W : World db env).
Implicit Types s : state db env.

Lemma discover_row_value schemas sn row s :
  let schema_name := table_schema row in
  let tables := default ∅ (schemas !! schema_name) in
  let columns := default [] (tables !! table_name row) in
  let warned msg := set_trace (st_trace s ++ [EWarning msg]) s in
  (too_long schema_name →
   discover_row W (schemas, sn) row s
   = (inr (schemas, Some schema_name),
      warned (skipped_msg "Schema" (quote_ident W schema_name))))
  ∧ (¬ too_long schema_name → too_long (table_name row) →
     discover_row W (schemas, sn) row s
     = (inr (<[schema_name := tables]> schemas, Some schema_name),
        warned (skipped_msg "Table"
                  (quote_ident W schema_name +:+ "."
                   +:+ quote_ident W (table_name row)))))
  ∧ (¬ too_long schema_name → ¬ too_long (table_name row) →
     too_long (column_name row) →
     discover_row W (schemas, sn) row s
     = (inr (<[schema_name := <[table_name row := columns]> tables]>
               (<[schema_name := tables]> schemas), Some schema_name),
        warned (skipped_msg "Column"
                  (quote_ident W schema_name +:+ "."
                   +:+ quote_ident W (table_name row) +:+ "."
                   +:+ quote_ident W (column_name row)))))
  ∧ (¬ too_long schema_name → ¬ too_long (table_name row) →
     ¬ too_long (column_name row) →
     discover_row W (schemas, sn) row s
     = (inr (<[schema_name :=
                 <[table_name row :=
                     columns ++ [{| Column_name := column_name row;
                                    Column_type := data_type row;
                                    Column_nullable := is_nullable row |}]]>
                   (<[table_name row := columns]> tables)]>
               (<[schema_name := <[table_name row := columns]> tables]>
                  (<[schema_name := tables]> schemas)), Some schema_name),
        s)).
Proof.
  unfold too_long, discover_row. cbn zeta. cbn [fst].
  split_and!; intros; repeat case_bool_decide; done.
Qed.

(** A rename either succeeds and uses up the placeholder, or fails and
    leaves the session, the placeholder counter and the diagnostics as
    they were; neither way raises. *)
Lemma rename_schema_holder_value schema_holder_id sn schema_name s :
  rename_schema_holder W (schema_holder_id, sn) schema_name s
  = match spi_execute W (rename_holder_sql W schema_holder_id schema_name)
            (st_db s) with
    | inr (_, d) =>
        (inr (schema_holder_id + 1, Some schema_name),
         set_db d (set_trace
           (st_trace s
            ++ [EExecute (rename_holder_sql W schema_holder_id schema_name)]) s))
    | inl _ =>
        (inr (schema_holder_id, Some schema_name),
         set_trace
           (st_trace s
            ++ [EExecute (rename_holder_sql W schema_holder_id schema_name)]) s)
    end.
Proof.
  unfold rename_schema_holder, try_except, plpy_execute, bind, log, modify.
  simpl. fold (rename_holder_sql W schema_holder_id schema_name).
  by destruct (spi_execute W _ (st_db s)) as [e|[r d]].
Qed.

Lemma rename_loop_never_raises schema_names : ∀ acc s,
  ∃ renamed s' sqls,
    for_each schema_names (rename_schema_holder W) acc s = (inr renamed, s')
    ∧ st_trace s' = st_trace s ++ (EExecute <$> sqls)
    ∧ length sqls = length schema_names
    ∧ renamed.2 = from_option Some acc.2 (last schema_names).
Proof.
  induction schema_names as [|name names IH]; intros [i sn] s.
  - exists (i, sn), s, []. simpl. by rewrite app_nil_r.
  - cbn [for_each]. unfold bind. rewrite rename_schema_holder_value.
    assert (from_option Some (Some name) (last names)
            = from_option Some sn (last (name :: names))) as Hlast.
    { destruct names as [|n names]; [done|]. rewrite last_cons_cons.
      destruct (last (n :: names)) eqn:Hl; [done|]. by apply last_None in Hl. }
    destruct (spi_execute W _ (st_db s)) as [e|[r d]].
    + edestruct IH as (renamed & s' & sqls & -> & Ht & Hl & Hr).
      exists renamed, s', (rename_holder_sql W i name :: sqls).
      split_and!; [done| |simpl; lia|by rewrite Hr].
      rewrite Ht. simpl. by rewrite <- app_assoc.
    + edestruct IH as (renamed & s' & sqls & -> & Ht & Hl & Hr).
      exists renamed, s', (rename_holder_sql W i name :: sqls).
      split_and!; [done| |simpl; lia|by rewrite Hr].
      rewrite Ht. simpl. by rewrite <- app_assoc.
Qed.

(** An exception raised inside the subtransaction leaves it unchanged. *)
Lemma mirror_in_subtransaction_reraises
    login_user query names stmts query_cache schema_name s :
  let entered :=
    set_subxacts (st_db s :: st_subxacts s)
      (set_trace (st_trace s ++ [ESubxactEnter]) s) in
  (mirror_in_subtransaction W login_user query names stmts query_cache
     schema_name s).1
  = (mirror_and_query W login_user query names stmts query_cache schema_name
       entered).1.
Proof.
  intros entered.
  unfold mirror_in_subtransaction, subxact_enter, try_finally.
  unfold bind at 1. unfold bind at 1. unfold log, modify. simpl.
  fold entered.
  pose proof (keeps_mirror_and_query W same_subxacts login_user query names
                stmts query_cache schema_name
                (dict_set_same_subxacts _ _) entered) as Hstack.
  destruct (mirror_and_query W login_user query names stmts query_cache
              schema_name entered) as [r s2].
  unfold same_subxacts in Hstack. simpl in Hstack.
  unfold subxact_exit, bind, get_state. rewrite Hstack. done.
Qed.

(** The [except] clause of the entry point hands on what it caught. *)
Lemma run_system_catalog_as_temp_table_outcome
    server user catalog schema login_user login_database result_table query s :
  (run_system_catalog_as_temp_table W server user catalog schema login_user
     login_database result_table query s).1
  = (run_system_catalog_as_temp_table_body W server user catalog schema
       login_user login_database result_table query s).1.
Proof.
  unfold run_system_catalog_as_temp_table, try_except.
  destruct (run_system_catalog_as_temp_table_body _ _ _ _ _ _ _ _ _ s)
    as [[e|u] s']; [|done].
  by destruct (caught e).
Qed.
End Recovery.

(** C5, as the specification states it, fails: the session refuses the
    rename of the placeholder schema, and no diagnostic is emitted. *)
Lemma failed_rename_is_silent :
  ¬ failed_rename_is_reported (Demo.world Demo.renames_fail None)
      (0, None) "sales" Demo.start.
Proof.
  intros Hreported. apply Hreported.
  - eexists. vm_compute. reflexivity.
  - by vm_compute.
Qed.

(** The same on a whole call: the rename fails, the call still returns,
    and its trace holds no warning. *)
Example call_with_failed_rename :
  let run :=
    run_system_catalog_as_temp_table
      (Demo.world Demo.renames_fail (Some Demo.sales))
      (PyStr "presto:8080") (PyStr "bob") (PyStr "hive") PyNone
      "bob" "postgres" "t1" "select 1 as x, 2 as y" Demo.start in
  run.1 = inr ()
  ∧ "alter schema prestogres_catalog_schema_holder_0 rename to sales"
    ∈ executed (st_trace run.2)
  ∧ warnings (st_trace run.2) = [].
Proof. split_and!; [by vm_compute|by_compute|by vm_compute]. Qed.

(** A statement of the plan that the session refuses aborts the call
    with the SPIError of that statement. *)
Example call_with_failed_grant :
  (run_system_catalog_as_temp_table
     (Demo.world (String.prefix "grant select") (Some Demo.sales))
     (PyStr "presto:8080") (PyStr "bob") (PyStr "hive") PyNone
     "bob" "postgres" "t1" "select 1 as x, 2 as y" Demo.start).1
  = inl (SPIError "grant select on all tables in schema prestogres_catalog to bob").
Proof. by vm_compute. Qed.

(** ** The subtransaction inside a whole call *)

Section Call.
Context {db env : Type} (W : World db env).
Implicit Types s : state db env.

(** The body of the call, split at the plan stage and at the
    subtransaction. *)
Lemma run_system_catalog_as_temp_table_body_stages
    server user catalog schema login_user login_database result_table query s :
  run_system_catalog_as_temp_table_body W server user catalog schema
    login_user login_database result_table query s
  = match plan_stage W server user catalog schema login_user s with
    | (inl e, s1) => (inl e, s1)
    | (inr (schema_names, statements, query_cache, schema_name), s1) =>
        match st_dicts s1 !! query_cache ≫= λ m, m !! query with
        | Some query_result =>
            create_and_insert W result_table
              (QueryResult_column_names query_result)
              (QueryResult_column_types query_result)
              (iter_of_list (QueryResult_result query_result)) s1
        | None =>
            match mirror_in_subtransaction W login_user query schema_names
                    statements query_cache schema_name s1 with
            | (inl e, s2) => (inl e, s2)
            | (inr (column_names, column_types, result), s2) =>
                create_and_insert W result_table column_names column_types
                  (iter_of_list result) s2
            end
        end
    end.
Proof.
  unfold run_system_catalog_as_temp_table_body, plan_stage.
  unfold bind at 1. unfold bind at 4.
  destruct (_get_session_time_zone W s) as [[e|time_zone] s0]; [done|].
  unfold bind at 1.
  destruct (plan_or_cached W _ server user catalog schema login_user s0)
    as [[e|[[[schema_names statements] query_cache] schema_name]] s1]; [done|].
  unfold bind at 1. unfold dict_get at 1. unfold bind at 1. unfold get_state, ret.
  destruct (st_dicts s1 !! query_cache ≫= λ m, m !! query) as [qr|]; [done|].
  unfold bind at 1.
  by destruct (mirror_in_subtransaction W login_user query schema_names
                 statements query_cache schema_name s1)
    as [[e|[[column_names column_types] result]] s2].
Qed.

(** The [except] clause changes neither the session nor the open
    subtransactions. *)
Lemma run_system_catalog_as_temp_table_session
    server user catalog schema login_user login_database result_table query s :
  let run := run_system_catalog_as_temp_table W server user catalog schema
               login_user login_database result_table query s in
  let body := run_system_catalog_as_temp_table_body W server user catalog schema
                login_user login_database result_table query s in
  run.1 = body.1 ∧ st_db run.2 = st_db body.2
  ∧ st_subxacts run.2 = st_subxacts body.2
  ∧ st_trace run.2 = st_trace body.2
  ∧ SchemaCacheEntry run.2 = SchemaCacheEntry body.2
  ∧ st_dicts run.2 = st_dicts body.2.
Proof.
  unfold run_system_catalog_as_temp_table, try_except.
  destruct (run_system_catalog_as_temp_table_body _ _ _ _ _ _ _ _ _ s)
    as [[e|u] s']; [|done].
  by destruct (caught e).
Qed.
End Call.

(** C1. Whenever a call misses the query cache, it enters the
    subtransaction, and whatever happens inside, the subtransaction is
    left by a rollback: the session and the open subtransactions are
    then what they were on entry. A failure inside ends the call with
    that session; otherwise the call goes on from that session and only
    creates and fills the result table. *)
Theorem subtransaction_rolled_back_on_every_path {db env} (W : World db env)
    (server user catalog schema : pyval)
    (login_user login_database result_table query : string)
    (s s1 : state db env) (schema_names statements : option (list string))
    (query_cache : nat) (schema_name : option string) :
  plan_stage W server user catalog schema login_user s
  = (inr (schema_names, statements, query_cache, schema_name), s1) →
  st_dicts s1 !! query_cache ≫= (λ m, m !! query) = None →
  ∃ captured s2,
    mirror_in_subtransaction W login_user query schema_names statements
      query_cache schema_name s1 = (captured, s2)
    ∧ st_db s2 = st_db s1
    ∧ st_subxacts s2 = st_subxacts s1
    ∧ (∃ inside, st_trace s2
                 = st_trace s1 ++ [ESubxactEnter] ++ inside ++ [ESubxactExit true])
    ∧ let run := run_system_catalog_as_temp_table W server user catalog schema
                   login_user login_database result_table query s in
      match captured with
      | inl e =>
          run.1 = inl e ∧ st_db run.2 = st_db s1
          ∧ st_subxacts run.2 = st_subxacts s1
      | inr (column_names, column_types, result) =>
          let rest := create_and_insert W result_table column_names column_types
                        (iter_of_list result) s2 in
          run.1 = rest.1 ∧ st_db run.2 = st_db rest.2
          ∧ st_subxacts run.2 = st_subxacts rest.2
      end.
Proof.
  intros Hplan Hmiss.
  destruct (mirror_in_subtransaction W login_user query schema_names statements
              query_cache schema_name s1) as [captured s2] eqn:Hscope.
  destruct (mirror_in_subtransaction_restores W _ _ _ _ _ _ _ _ _ Hscope)
    as (Hdb & Hstack & Htrace).
  exists captured, s2. split_and!; try done. cbv zeta.
  destruct (run_system_catalog_as_temp_table_session W server user catalog
              schema login_user login_database result_table query s)
    as (-> & -> & -> & _).
  rewrite run_system_catalog_as_temp_table_body_stages, Hplan, Hmiss, Hscope.
  destruct captured as [e|[[column_names column_types] result]]; simpl; by rewrite <- ?Hdb, <- ?Hstack.
Qed.

Lemma subtransaction_rolled_back_on_every_path_witness :
  ∃ captured s2,
    mirror_in_subtransaction (Demo.world Demo.nothing_fails (Some Demo.sales))
      "bob" "select 1 as x, 2 as y" Demo.planned.1.1.1 Demo.planned.1.1.2
      Demo.planned.1.2 Demo.planned.2 Demo.staged.2 = (captured, s2)
    ∧ st_db s2 = st_db Demo.staged.2
    ∧ st_subxacts s2 = st_subxacts Demo.staged.2.
Proof.
  destruct (subtransaction_rolled_back_on_every_path
              (Demo.world Demo.nothing_fails (Some Demo.sales))
              (PyStr "presto:8080") (PyStr "bob") (PyStr "hive") PyNone
              "bob" "postgres" "t1" "select 1 as x, 2 as y" Demo.start
              Demo.staged.2 Demo.planned.1.1.1 Demo.planned.1.1.2
              Demo.planned.1.2 Demo.planned.2)
    as (captured & s2 & Hscope & Hdb & Hstack & _).
  - vm_compute. reflexivity.
  - vm_compute. reflexivity.
  - exists captured, s2. split_and!; assumption.
Defined.

(** ** An empty remote catalog *)

Section EmptyCatalog.
Context {db env : Type} (W : World db env).
Implicit Types s : state db env.

Lemma get_session_time_zone_same_env s r s1 :
  _get_session_time_zone W s = (r, s1) →
  st_env s1 = st_env s ∧ SchemaCacheEntry s1 = SchemaCacheEntry s
  ∧ st_dicts s1 = st_dicts s.
Proof.
  unfold _get_session_time_zone, plpy_execute, bind, log, modify. simpl.
  destruct (spi_execute W "show timezone" (st_db s)) as [e|[rows d]].
  - by intros [= <- <-].
  - unfold first_value. destruct (res_rows rows) as [|row ?].
    + by intros [= <- <-].
    + destruct (row_values row); by intros [= <- <-].
Qed.

Lemma generate_statements_empty login_user schema_name :
  generate_statements W login_user ∅ schema_name
  = (role_statements W login_user, [], schema_name).
Proof.
  unfold generate_statements, sorted_items. by rewrite map_to_list_empty.
Qed.

(** With no rows to discover, the plan names no schema and the local
    [schema_name] is never bound. *)
Lemma plan_or_cached_empty_catalog
    client server user catalog schema login_user s planned s' :
  remote_catalog_empty W →
  is_cached (SchemaCacheEntry s) server user catalog schema
    (time_time W (st_env s)).1 = false →
  plan_or_cached W client server user catalog schema login_user s
  = (inr planned, s') →
  planned = (Some [], Some (role_statements W login_user),
             S (length (st_dicts s)), None)
  ∧ st_dicts s' = st_dicts s ++ [∅; ∅].
Proof.
  intros Hempty Hmiss Hrun.
  destruct (plan_or_cached_miss W _ _ _ _ _ _ _ _ _ Hmiss Hrun)
    as (names & stmts & schema_name & e & Hplanned & _ & Hdicts).
  split; [|done]. rewrite Hplanned.
  unfold plan_or_cached in Hrun.
  apply bind_inr in Hrun as (t & s1 & Ht & Hrun).
  unfold time_time_ in Ht.
  destruct (time_time W (st_env s)) as [t0 e0] eqn:Hclock.
  injection Ht as <- <-.
  apply bind_inr in Hrun as (s0 & s1 & Hget & Hrun).
  injection Hget as <- <-. simpl in Hmiss, Hrun. rewrite Hmiss in Hrun.
  apply bind_inr in Hrun as (rows & s2 & Hrows & Hrun).
  assert (default [] rows = []) as Hnone.
  { unfold client_run, bind, log, modify in Hrows. simpl in Hrows.
    specialize (Hempty client
      ("select table_schema, table_name, column_name, is_nullable, data_type"
       +:+ " from information_schema.columns") e0).
    destruct (presto_run W client _ e0) as [r e1]. simpl in Hempty.
    injection Hrows as -> _. by destruct Hempty as [[= ->]|[= ->]]. }
  rewrite Hnone in Hrun. cbn [for_each] in Hrun.
  apply bind_inr in Hrun as (found & s3 & Hfound & Hrun).
  injection Hfound as <- <-. cbn [fst snd] in Hrun.
  rewrite generate_statements_empty in Hrun.
  apply bind_inr in Hrun as (now & s4 & Hnow & Hrun).
  apply bind_inr in Hrun as (u & s5 & Hset & Hrun).
  apply bind_inr in Hrun as (qc & s6 & Hnew & Hrun).
  injection Hrun as Hp _. rewrite Hplanned in Hp. by simplify_eq.
Qed.

(** With [schema_name] unbound and no schema to rename, the body of the
    subtransaction cannot get past [update pg_database]. *)
Lemma mirror_and_query_unbound login_user query statements query_cache s :
  ∃ e, (mirror_and_query W login_user query (Some []) statements query_cache
          None s).1 = inl e.
Proof.
  unfold mirror_and_query.
  unfold bind at 1. destruct (drop_listed_schemas W _ _ s) as [[e|u] s1];
    [by eexists|].
  unfold bind at 1. unfold iterable at 1. unfold ret at 1.
  unfold bind at 1. cbn [for_each]. unfold ret at 1. cbn [snd].
  unfold bind at 1. destruct (iterable statements s1) as [[e|stmts] s2];
    [by eexists|].
  unfold bind at 1. destruct (for_each stmts _ () s2) as [[e|u2] s3];
    [by eexists|].
  unfold bind at 1. destruct (plpy_execute W _ s3) as [[e|r] s4];
    [by eexists|].
  unfold bind at 1. destruct (drop_listed_schemas W _ _ s4) as [[e|u3] s5];
    [by eexists|].
  unfold bind at 1. unfold raise. by eexists.
Qed.

Lemma plan_stage_empty_catalog
    server user catalog schema login_user s planned s1 :
  remote_catalog_empty W →
  is_cached (SchemaCacheEntry s) server user catalog schema
    (time_time W (st_env s)).1 = false →
  plan_stage W server user catalog schema login_user s = (inr planned, s1) →
  ∃ query_cache,
    planned = (Some [], Some (role_statements W login_user), query_cache, None)
    ∧ st_dicts s1 !! query_cache = Some ∅.
Proof.
  intros Hempty Hmiss Hplan. unfold plan_stage in Hplan.
  apply bind_inr in Hplan as (time_zone & s0 & Hzone & Hplan).
  apply get_session_time_zone_same_env in Hzone as (Henv & Hentry & Hdicts).
  rewrite <- Henv, <- Hentry in Hmiss.
  destruct (plan_or_cached_empty_catalog _ _ _ _ _ _ _ _ _ Hempty Hmiss Hplan)
    as [-> Hd].
  eexists. split; [done|]. rewrite Hd.
  rewrite lookup_app_r by lia.
  by replace (S (length (st_dicts s0)) - length (st_dicts s0)) with 1 by lia.
Qed.
End EmptyCatalog.

(** C9, on the code. When discovery returns no rows, the schema names
    are empty and the plan holds only the two role statements, but the
    call does not succeed: after the holders are dropped the local
    [schema_name] has never been bound, so the call ends with an
    exception. *)
Theorem empty_catalog_call_raises {db env} (W : World db env)
    (server user catalog schema : pyval)
    (login_user login_database result_table query : string)
    (s : state db env) :
  remote_catalog_empty W →
  is_cached (SchemaCacheEntry s) server user catalog schema
    (time_time W (st_env s)).1 = false →
  (∀ planned s1,
     plan_stage W server user catalog schema login_user s = (inr planned, s1) →
     planned.1.1.1 = Some [] ∧ planned.1.1.2 = Some (role_statements W login_user))
  ∧ ∃ e, (run_system_catalog_as_temp_table W server user catalog schema
            login_user login_database result_table query s).1 = inl e.
Proof.
  intros Hempty Hmiss. split.
  - intros planned s1 Hplan.
    by destruct (plan_stage_empty_catalog W _ _ _ _ _ _ _ _ Hempty Hmiss Hplan)
      as (query_cache & -> & _).
  - destruct (run_system_catalog_as_temp_table_session W server user catalog
                schema login_user login_database result_table query s)
      as (-> & _).
    rewrite run_system_catalog_as_temp_table_body_stages.
    destruct (plan_stage W server user catalog schema login_user s)
      as [[e|planned] s1] eqn:Hplan; [by eexists|].
    destruct (plan_stage_empty_catalog W _ _ _ _ _ _ _ _ Hempty Hmiss Hplan)
      as (query_cache & -> & Hdict).
    rewrite Hdict. simpl. rewrite lookup_empty.
    pose proof (mirror_in_subtransaction_reraises W login_user query (Some [])
                  (Some (role_statements W login_user)) query_cache None s1)
      as Hout.
    simpl in Hout.
    destruct (mirror_and_query_unbound W login_user query
                (Some (role_statements W login_user)) query_cache
                (set_subxacts (st_db s1 :: st_subxacts s1)
                   (set_trace (st_trace s1 ++ [ESubxactEnter]) s1)))
      as [e He].
    rewrite He in Hout.
    destruct (mirror_in_subtransaction W login_user query (Some [])
                (Some (role_statements W login_user)) query_cache None s1)
      as [r s2].
    simpl in Hout. subst r. by eexists.
Qed.

Lemma empty_catalog_call_raises_witness :
  ∃ e, (run_system_catalog_as_temp_table
          (Demo.world Demo.nothing_fails (Some []))
          (PyStr "presto:8080") (PyStr "bob") (PyStr "hive") PyNone
          "bob" "postgres" "t1" "select 1 as x, 2 as y" Demo.start).1 = inl e.
Proof.
  apply (empty_catalog_call_raises (Demo.world Demo.nothing_fails (Some []))).
  - intros client sql e. by right.
  - by vm_compute.
Defined.

(** The failing input evaluated: every statement is accepted, and the
    call ends with the unbound local. *)
Example empty_catalog_call :
  (run_system_catalog_as_temp_table (Demo.world Demo.nothing_fails (Some []))
     (PyStr "presto:8080") (PyStr "bob") (PyStr "hive") PyNone
     "bob" "postgres" "t1" "select 1 as x, 2 as y" Demo.start).1
  = inl (UnboundLocalError "schema_name").
Proof. by vm_compute. Qed.

(** ** The query cache across two calls *)

Section QueryCache.
Context {db env : Type} (W : World db env).
Implicit Types s : state db env.

#[global] Instance same_entry_frame n :
  Frame (same_entry (db:=db) (env:=env) n).
Proof.
  split; unfold same_entry; try done.
  intros s1 s2 s3 [H1 H2] [H3 H4]. split; congruence.
Qed.

Lemma dict_set_same_entry n d key value :
  d ≠ n → keeps (same_entry n) (dict_set (db:=db) (env:=env) d key value).
Proof.
  intros Hne s. split; [done|]. simpl. by apply list_lookup_alter_ne.
Qed.

Lemma mirror_in_subtransaction_same_entry
    n login_user query names stmts query_cache schema_name :
  query_cache ≠ n →
  keeps (same_entry n)
    (mirror_in_subtransaction W login_user query names stmts query_cache
       schema_name).
Proof.
  intros Hne. unfold mirror_in_subtransaction.
  apply keeps_bind; [frame_known| |intros _].
  - unfold subxact_enter. apply keeps_bind; [frame_known|eauto with keeps|].
    intros _ s. done.
  - apply keeps_try_finally; [frame_known| |].
    + apply keeps_mirror_and_query; [frame_known|].
      intros value. by apply dict_set_same_entry.
    + unfold subxact_exit. apply keeps_bind; [frame_known|keeps_auto|].
      intros s0. destruct (st_subxacts s0); [keeps_auto|].
      apply keeps_bind; [frame_known|eauto with keeps|]. intros _ s. done.
Qed.

(** On a valid schema cache the plan stage hands out the entry's own
    dict as [query_cache]. *)
Lemma plan_or_cached_hit client server user catalog schema login_user s :
  is_cached (SchemaCacheEntry s) server user catalog schema
    (time_time W (st_env s)).1 = true →
  plan_or_cached W client server user catalog schema login_user s
  = (inr (self_schema_names (SchemaCacheEntry s),
          self_statements (SchemaCacheEntry s),
          self_query_cache (SchemaCacheEntry s), None),
     set_env (time_time W (st_env s)).2 s).
Proof.
  intros Hhit. unfold plan_or_cached, bind, time_time_, get_state.
  destruct (time_time W (st_env s)) as [t e]. simpl in *. by rewrite Hhit.
Qed.

(** A call that misses the schema cache stores what it captured in a
    dict of its own: the nested query cache of the new entry stays
    empty. *)
Lemma first_call_stores_nothing
    server user catalog schema login_user login_database result_table query
    s s' :
  is_cached (SchemaCacheEntry s) server user catalog schema
    (time_time W (st_env s)).1 = false →
  run_system_catalog_as_temp_table W server user catalog schema login_user
    login_database result_table query s = (inr (), s') →
  st_dicts s' !! self_query_cache (SchemaCacheEntry s') = Some ∅.
Proof.
  intros Hmiss Hrun.
  destruct (run_system_catalog_as_temp_table_session W server user catalog
              schema login_user login_database result_table query s)
    as (Hout & _ & _ & _ & Hentry & Hdicts).
  rewrite Hrun in Hout, Hentry, Hdicts. simpl in Hout, Hentry, Hdicts.
  rewrite Hentry, Hdicts. clear Hrun Hentry Hdicts.
  rewrite run_system_catalog_as_temp_table_body_stages in Hout |- *.
  destruct (plan_stage W server user catalog schema login_user s)
    as [[e|planned] s1] eqn:Hplan; [done|].
  unfold plan_stage in Hplan.
  apply bind_inr in Hplan as (time_zone & s0 & Hzone & Hplan).
  apply get_session_time_zone_same_env in Hzone as (Henv & Hentry0 & Hdicts0).
  rewrite <- Henv, <- Hentry0 in Hmiss.
  destruct (plan_or_cached_miss W _ _ _ _ _ _ _ _ _ Hmiss Hplan)
    as (names & stmts & schema_name & e & -> & Hentry1 & Hdicts1).
  set (n := length (st_dicts s0)) in *.
  assert (st_dicts s1 !! n = Some ∅) as Hn.
  { rewrite Hdicts1. by rewrite lookup_app_r, Nat.sub_diag. }
  assert (st_dicts s1 !! S n = Some ∅) as HSn.
  { rewrite Hdicts1. rewrite lookup_app_r by lia.
    by replace (S n - length (st_dicts s0)) with 1 by lia. }
  rewrite HSn in Hout |- *. simpl in Hout |- *. rewrite lookup_empty in Hout |- *.
  pose proof (mirror_in_subtransaction_same_entry n login_user query
                (Some names) (Some stmts) (S n) schema_name ltac:(lia) s1)
    as [Hentry2 Hdict2].
  destruct (mirror_in_subtransaction W login_user query (Some names)
              (Some stmts) (S n) schema_name s1)
    as [[e'|[[column_names column_types] result]] s2]; [done|].
  simpl in Hentry2, Hdict2.
  pose proof (keeps_create_and_insert W (same_entry n) result_table column_names
                column_types (iter_of_list result) s2) as [Hentry3 Hdict3].
  rewrite Hentry3, Hentry2, Hentry1. simpl.
  by rewrite Hdict3, Hdict2.
Qed.

(** A call that finds the schema cache valid but not the query in its
    nested cache goes through the subtransaction. *)
Lemma cached_call_without_result_mirrors
    server user catalog schema login_user login_database result_table query
    s s' :
  is_cached (SchemaCacheEntry s) server user catalog schema
    (time_time W (st_env s)).1 = true →
  st_dicts s !! self_query_cache (SchemaCacheEntry s) ≫= (λ m, m !! query)
  = None →
  run_system_catalog_as_temp_table W server user catalog schema login_user
    login_database result_table query s = (inr (), s') →
  ∃ before after,
    st_trace s' = st_trace s ++ before ++ [ESubxactEnter] ++ after.
Proof.
  intros Hhit Hempty Hrun.
  destruct (run_system_catalog_as_temp_table_session W server user catalog
              schema login_user login_database result_table query s)
    as (Hout & _ & _ & Htrace & _).
  rewrite Hrun in Hout, Htrace. simpl in Hout, Htrace. rewrite Htrace.
  clear Hrun Htrace.
  rewrite run_system_catalog_as_temp_table_body_stages in Hout |- *.
  destruct (plan_stage W server user catalog schema login_user s)
    as [[e|planned] s1] eqn:Hplan; [done|].
  unfold plan_stage in Hplan.
  apply bind_inr in Hplan as (time_zone & s0 & Hzone & Hplan).
  pose proof (keeps_get_session_time_zone W trace_extends s) as [before Hbefore].
  rewrite Hzone in Hbefore. simpl in Hbefore.
  apply get_session_time_zone_same_env in Hzone as (Henv & Hentry0 & Hdicts0).
  rewrite <- Henv, <- Hentry0 in Hhit.
  rewrite plan_or_cached_hit in Hplan by done.
  injection Hplan as <- <-. cbn [st_dicts set_env] in *.
  rewrite Hentry0, Hdicts0, Hempty in Hout |- *.
  destruct (mirror_in_subtransaction W login_user query _ _ _ None _)
    as [captured s2] eqn:Hscope.
  apply mirror_in_subtransaction_restores in Hscope
    as (_ & _ & inside & Hinside).
  simpl in Hinside.
  destruct captured as [e'|[[column_names column_types] result]]; [done|].
  pose proof (keeps_create_and_insert W trace_extends result_table column_names
                column_types (iter_of_list result) s2) as [after Hafter].
  exists before, (inside ++ [ESubxactExit true] ++ after).
  rewrite Hafter, Hinside, Hbefore.
  rewrite <- !app_assoc. simpl. by rewrite <- !app_assoc.
Qed.
End QueryCache.

(** C2, on the code. The first of the two calls misses the schema cache
    and succeeds; what it captured went into a dict that the new cache
    entry does not hold, so the entry's nested query cache is still
    empty, and the second call, made while the entry is valid, goes
    through the subtransaction again. *)
Theorem second_call_mirrors_again {db env} (W : World db env)
    (server user catalog schema : pyval)
    (login_user login_database result_table query : string)
    (s s' : state db env) :
  is_cached (SchemaCacheEntry s) server user catalog schema
    (time_time W (st_env s)).1 = false →
  run_system_catalog_as_temp_table W server user catalog schema login_user
    login_database result_table query s = (inr (), s') →
  is_cached (SchemaCacheEntry s') server user catalog schema
    (time_time W (st_env s')).1 = true →
  st_dicts s' !! self_query_cache (SchemaCacheEntry s') = Some ∅
  ∧ ∀ s'',
      run_system_catalog_as_temp_table W server user catalog schema login_user
        login_database result_table query s' = (inr (), s'') →
      ∃ before after,
        st_trace s'' = st_trace s' ++ before ++ [ESubxactEnter] ++ after.
Proof.
  intros Hmiss Hfirst Hhit.
  pose proof (first_call_stores_nothing W _ _ _ _ _ _ _ _ _ _ Hmiss Hfirst)
    as Hempty.
  split; [done|]. intros s'' Hsecond.
  eapply cached_call_without_result_mirrors; [exact Hhit| |exact Hsecond].
  rewrite Hempty. simpl. apply lookup_empty.
Qed.

Lemma second_call_mirrors_again_witness :
  st_dicts Demo.after_first_call
    !! self_query_cache (SchemaCacheEntry Demo.after_first_call) = Some ∅.
Proof.
  apply (second_call_mirrors_again
           (Demo.world Demo.nothing_fails (Some Demo.sales))
           (PyStr "presto:8080") (PyStr "bob") (PyStr "hive") PyNone
           "bob" "postgres" "t1" "select 1 as x, 2 as y"
           Demo.start Demo.after_first_call).
  - vm_compute. reflexivity.
  - vm_compute. reflexivity.
  - vm_compute. reflexivity.
Defined.

(** The failing input evaluated: three calls in a row, ten seconds
    apart on the clock, the entry valid for sixty. The second call enters
    a subtransaction like the first; only the third is answered from the
    query cache. *)
Example three_calls_in_a_row :
  let call := run_system_catalog_as_temp_table
                (Demo.world Demo.nothing_fails (Some Demo.sales))
                (PyStr "presto:8080") (PyStr "bob") (PyStr "hive") PyNone
                "bob" "postgres" "t1" "select 1 as x, 2 as y" in
  let first := call Demo.start in
  let second := call first.2 in
  let third := call second.2 in
  first.1 = inr () ∧ second.1 = inr () ∧ third.1 = inr ()
  ∧ subtransactions (st_trace first.2) = 1
  ∧ subtransactions (st_trace second.2) = 2
  ∧ subtransactions (st_trace third.2) = 2.
Proof. by vm_compute. Qed.

(** ** Refusals of the session *)

Section Replay.
Context {db env : Type} (W : World db env).
Implicit Types (s : state db env) (d : db) (stack : list db) (t : list event).

Lemma replay_from_bad t : ∀ d stack bad,
  foldl (replay_step W) (d, stack, bad) t
  = ((replay W d stack t).1, bad ++ (replay W d stack t).2).
Proof.
  unfold replay.
  induction t as [|ev t IH] using rev_ind; intros d stack bad.
  - cbn. by rewrite app_nil_r.
  - rewrite !foldl_app. cbn [foldl]. rewrite IH.
    destruct (foldl (replay_step W) (d, stack, []) t) as [[d1 stack1] bad1].
    cbn [fst snd replay_step].
    destruct ev; cbn [replay_step]; try done.
    + destruct (spi_execute W sql d1) as [e|[r d2]]; cbn; [|done].
      by rewrite app_assoc.
    + destruct (spi_cursor W sql d1) as [e|r]; cbn; [|done].
      by rewrite app_assoc.
    + destruct (spi_prepare W sql argtypes d1) as [e|]; cbn; [|done].
      by rewrite app_assoc.
    + destruct (spi_execute_plan W p args d1) as [e|d2]; cbn; [|done].
      by rewrite app_assoc.
    + by destruct stack1.
Qed.

Lemma replay_app d stack t1 t2 :
  replay W d stack (t1 ++ t2)
  = ((replay W (replay W d stack t1).1.1 (replay W d stack t1).1.2 t2).1,
     (replay W d stack t1).2
     ++ (replay W (replay W d stack t1).1.1 (replay W d stack t1).1.2 t2).2).
Proof.
  unfold replay at 1. rewrite foldl_app. fold (replay W d stack t1).
  destruct (replay W d stack t1) as [[d1 stack1] bad1]. cbn [fst snd].
  apply replay_from_bad.
Qed.
End Replay.

Section Refusals.
Context {db env : Type} (W : World db env).
Implicit Types s : state db env.

(** A step that leaves the trace, the session and the subtransactions
    alone. *)
Lemma aborts_silent {A} (m : M db env A) s :
  st_trace (m s).2 = st_trace s → st_db (m s).2 = st_db s →
  st_subxacts (m s).2 = st_subxacts s →
  aborts_on_refusal W m s.
Proof.
  intros Ht Hd Hx. exists []. rewrite app_nil_r, Hd, Hx.
  split_and!; [done|done|]. intros ev e Hin. by apply elem_of_nil in Hin.
Qed.

Lemma aborts_ret {A} (a : A) s : aborts_on_refusal W (ret a) s.
Proof. by apply aborts_silent. Qed.

Lemma aborts_raise {A} e s : aborts_on_refusal W (raise (A:=A) e) s.
Proof. by apply aborts_silent. Qed.

Lemma aborts_lift {A} (r : exn + A) s : aborts_on_refusal W (lift r) s.
Proof. by apply aborts_silent. Qed.

Lemma aborts_get_state s : aborts_on_refusal W get_state s.
Proof. by apply aborts_silent. Qed.

Lemma aborts_bind {A B} (m : M db env A) (k : A → M db env B) s :
  aborts_on_refusal W m s →
  (∀ a s1, m s = (inr a, s1) → aborts_on_refusal W (k a) s1) →
  aborts_on_refusal W (bind m k) s.
Proof.
  intros (new1 & Ht1 & Hr1 & Hf1) Hk. unfold aborts_on_refusal at 1, bind.
  destruct (m s) as [[e0|a] s1] eqn:Hm; cbn [fst snd] in *.
  { exists new1. split_and!; [done|done|]. intros ev e Hin Hrename.
    destruct (Hf1 ev e Hin Hrename) as [Hout Hlast]. split; [|done].
    by simplify_eq. }
  destruct (Hk a s1 eq_refl) as (new2 & Ht2 & Hr2 & Hf2).
  exists (new1 ++ new2). unfold refused in *. rewrite replay_app.
  cbn [fst snd]. rewrite Hr1. cbn [fst snd]. split_and!.
  - by rewrite Ht2, Ht1, app_assoc.
  - done.
  - intros ev e Hin Hrename.
    apply elem_of_app in Hin as [Hin|Hin].
    { by destruct (Hf1 ev e Hin Hrename) as [? _]. }
    destruct (Hf2 ev e Hin Hrename) as (Hout & before & after & -> & Hafter).
    split; [done|]. exists (new1 ++ before), after.
    by rewrite <- app_assoc.
Qed.

Lemma aborts_for_each {A B} (xs : list A) (body : B → A → M db env B) :
  (∀ b x s, aborts_on_refusal W (body b x) s) →
  ∀ acc s, aborts_on_refusal W (for_each xs body acc) s.
Proof.
  intros Hb. induction xs as [|x xs IH]; intros acc s; cbn [for_each].
  - apply aborts_ret.
  - apply aborts_bind; [apply Hb|]. intros b s1 _. apply IH.
Qed.

(** An event the session does not see. *)
Lemma aborts_log ev s :
  (∀ acc, replay_step W acc ev = acc) → aborts_on_refusal W (log ev) s.
Proof.
  intros Hev. exists [ev]. unfold refused, replay. cbn [foldl]. rewrite Hev.
  unfold log, modify. cbn.
  split_and!; [done|done|]. intros ev' e Hin. by apply elem_of_nil in Hin.
Qed.

Lemma aborts_plpy_warning msg s : aborts_on_refusal W (plpy_warning msg) s.
Proof. apply aborts_log. by intros [[d stack] bad]. Qed.

Lemma aborts_plpy_execute sql s : aborts_on_refusal W (plpy_execute W sql) s.
Proof.
  exists [EExecute sql]. unfold refused, replay, plpy_execute, bind, log, modify.
  cbn. destruct (spi_execute W sql (st_db s)) as [e|[r d]]; cbn.
  - split_and!; [done|done|]. intros ev e' Hin _.
    apply list_elem_of_singleton in Hin. injection Hin as -> ->.
    split; [done|]. by exists [], [].
  - split_and!; [done|done|]. intros ev e' Hin. by apply elem_of_nil in Hin.
Qed.

Lemma aborts_plpy_cursor sql s : aborts_on_refusal W (plpy_cursor W sql) s.
Proof.
  exists [ECursor sql]. unfold refused, replay, plpy_cursor, bind, log, modify.
  cbn. destruct (spi_cursor W sql (st_db s)) as [e|r]; cbn.
  - split_and!; [done|done|]. intros ev e' Hin _.
    apply list_elem_of_singleton in Hin. injection Hin as -> ->.
    split; [done|]. by exists [], [].
  - split_and!; [done|done|]. intros ev e' Hin. by apply elem_of_nil in Hin.
Qed.

Lemma aborts_plpy_prepare sql types s :
  aborts_on_refusal W (plpy_prepare W sql types) s.
Proof.
  exists [EPrepare sql types].
  unfold refused, replay, plpy_prepare, bind, log, modify.
  cbn. destruct (spi_prepare W sql types (st_db s)) as [e|]; cbn.
  - split_and!; [done|done|]. intros ev e' Hin _.
    apply list_elem_of_singleton in Hin. injection Hin as -> ->.
    split; [done|]. by exists [], [].
  - split_and!; [done|done|]. intros ev e' Hin. by apply elem_of_nil in Hin.
Qed.

Lemma aborts_plpy_execute_plan p args s :
  aborts_on_refusal W (plpy_execute_plan W p args) s.
Proof.
  exists [EExecutePlan p args].
  unfold refused, replay, plpy_execute_plan, bind, log, modify.
  cbn. destruct (spi_execute_plan W p args (st_db s)) as [e|d]; cbn.
  - split_and!; [done|done|]. intros ev e' Hin _.
    apply list_elem_of_singleton in Hin. injection Hin as -> ->.
    split; [done|]. by exists [], [].
  - split_and!; [done|done|]. intros ev e' Hin. by apply elem_of_nil in Hin.
Qed.

Lemma aborts_time_time s : aborts_on_refusal W (time_time_ W) s.
Proof.
  apply aborts_silent; unfold time_time_;
    by destruct (time_time W (st_env s)) as [t e].
Qed.

Lemma aborts_client_run c sql s : aborts_on_refusal W (client_run W c sql) s.
Proof.
  exists [EPrestoRun c sql]. unfold refused, replay, client_run, bind, log, modify.
  cbn. destruct (presto_run W c sql (st_env s)) as [r e]. cbn.
  split_and!; [done|done|]. intros ev e' Hin. by apply elem_of_nil in Hin.
Qed.

Lemma aborts_subxact_enter s : aborts_on_refusal W subxact_enter s.
Proof.
  exists [ESubxactEnter]. unfold refused, replay, subxact_enter, bind, log, modify.
  cbn. split_and!; [done|done|]. intros ev e' Hin. by apply elem_of_nil in Hin.
Qed.

Lemma aborts_subxact_exit exc_type s :
  aborts_on_refusal W (subxact_exit exc_type) s.
Proof.
  unfold aborts_on_refusal, subxact_exit, bind, get_state, refused, replay.
  destruct (st_subxacts s) as [|saved outer] eqn:Hstack.
  - exists []. unfold raise. cbn [fst snd foldl]. rewrite app_nil_r, Hstack.
    split_and!; [done|done|]. intros ev e' Hin. by apply elem_of_nil in Hin.
  - exists [ESubxactExit (match exc_type with PyNone => false | _ => true end)].
    unfold log, modify. cbn [fst snd foldl replay_step].
    destruct exc_type; cbn; (split_and!; [done|done|]);
      intros ev e' Hin; by apply elem_of_nil in Hin.
Qed.
End Refusals.

Ltac aborts_step :=
  lazymatch goal with
  | |- aborts_on_refusal _ (bind _ _) _ => apply aborts_bind; [|intros ? ? _]
  | |- aborts_on_refusal _ (ret _) _ => apply aborts_ret
  | |- aborts_on_refusal _ (raise _) _ => apply aborts_raise
  | |- aborts_on_refusal _ (lift _) _ => apply aborts_lift
  | |- aborts_on_refusal _ get_state _ => apply aborts_get_state
  | |- aborts_on_refusal _ (for_each _ _ _) _ =>
      apply aborts_for_each; intros ? ? ?
  | |- aborts_on_refusal _ (plpy_warning _) _ => apply aborts_plpy_warning
  | |- aborts_on_refusal _ (plpy_execute _ _) _ => apply aborts_plpy_execute
  | |- aborts_on_refusal _ (plpy_cursor _ _) _ => apply aborts_plpy_cursor
  | |- aborts_on_refusal _ (plpy_prepare _ _ _) _ => apply aborts_plpy_prepare
  | |- aborts_on_refusal _ (plpy_execute_plan _ _ _) _ =>
      apply aborts_plpy_execute_plan
  | |- aborts_on_refusal _ (time_time_ _) _ => apply aborts_time_time
  | |- aborts_on_refusal _ (client_run _ _ _) _ => apply aborts_client_run
  | |- aborts_on_refusal _ (modify _) _ => apply aborts_silent; reflexivity
  | |- aborts_on_refusal _ (match ?x with _ => _ end) _ => destruct x
  end.

Section CallRefusals.
Context {db env : Type} (W : World db env).
Implicit Types s : state db env.

Lemma aborts_get_session_time_zone s :
  aborts_on_refusal W (_get_session_time_zone W) s.
Proof. unfold _get_session_time_zone, first_value. repeat aborts_step. Qed.

Lemma aborts_discover_row acc row s :
  aborts_on_refusal W (discover_row W acc row) s.
Proof. unfold discover_row. repeat case_bool_decide; repeat aborts_step. Qed.

Lemma aborts_plan_or_cached client server user catalog schema login_user s :
  aborts_on_refusal W
    (plan_or_cached W client server user catalog schema login_user) s.
Proof.
  unfold plan_or_cached, set_cache, new_dict. repeat aborts_step.
  apply aborts_discover_row.
Qed.

(** The rename of a placeholder schema: the one refusal that does not
    end the run. *)
Lemma aborts_rename_schema_holder acc schema_name s :
  aborts_on_refusal W (rename_schema_holder W acc schema_name) s.
Proof.
  destruct acc as [i sn].
  exists [EExecute (rename_holder_sql W i schema_name)].
  rewrite rename_schema_holder_value. unfold refused, replay.
  cbn [foldl replay_step].
  destruct (spi_execute W _ (st_db s)) as [e|[r d]]; cbn.
  - split_and!; [done|done|]. intros ev e' Hin Hrename. exfalso.
    apply list_elem_of_singleton in Hin. injection Hin as -> _.
    apply Hrename. by exists i, schema_name.
  - split_and!; [done|done|]. intros ev e' Hin. by apply elem_of_nil in Hin.
Qed.

Lemma aborts_drop_listed_schemas sql drop_suffix s :
  aborts_on_refusal W (drop_listed_schemas W sql drop_suffix) s.
Proof.
  unfold drop_listed_schemas, row_item, quote_ident_value.
  repeat aborts_step.
Qed.

Lemma aborts_load_oid_to_type_name_mapping oids s :
  aborts_on_refusal W (_load_oid_to_type_name_mapping W oids) s.
Proof.
  unfold _load_oid_to_type_name_mapping, row_item. repeat aborts_step.
Qed.

Lemma aborts_mirror_and_query
    login_user query schema_names statements query_cache schema_name s :
  aborts_on_refusal W
    (mirror_and_query W login_user query schema_names statements query_cache
       schema_name) s.
Proof.
  unfold mirror_and_query, iterable, dict_set.
  aborts_step; [apply aborts_drop_listed_schemas|].
  aborts_step; [repeat aborts_step|].
  aborts_step; [apply aborts_for_each; intros; apply aborts_rename_schema_holder|].
  aborts_step; [repeat aborts_step|].
  aborts_step; [repeat aborts_step|].
  aborts_step; [repeat aborts_step|].
  aborts_step; [apply aborts_drop_listed_schemas|].
  aborts_step; [repeat aborts_step|].
  aborts_step; [repeat aborts_step|].
  aborts_step; [repeat aborts_step|].
  aborts_step; [repeat aborts_step|].
  aborts_step; [repeat aborts_step|].
  aborts_step; [apply aborts_load_oid_to_type_name_mapping|].
  repeat aborts_step.
Qed.

(** The [finally] clause finds the subtransaction it has to leave, so
    it does not replace the exception of the body. *)
Lemma aborts_mirror_in_subtransaction
    login_user query schema_names statements query_cache schema_name s :
  aborts_on_refusal W
    (mirror_in_subtransaction W login_user query schema_names statements
       query_cache schema_name) s.
Proof.
  unfold mirror_in_subtransaction.
  apply aborts_bind; [apply aborts_subxact_enter|]. intros [] s1 Henter.
  assert (st_subxacts s1 = st_db s :: st_subxacts s) as Hstack1.
  { unfold subxact_enter, bind, log, modify in Henter. by simplify_eq. }
  pose proof (aborts_mirror_and_query login_user query schema_names statements
                query_cache schema_name s1) as (new & Ht & Hr & Hf).
  pose proof (keeps_mirror_and_query W same_subxacts login_user query
                schema_names statements query_cache schema_name
                (dict_set_same_subxacts _ _) s1) as Hstack.
  unfold aborts_on_refusal, try_finally.
  destruct (mirror_and_query W login_user query schema_names statements
              query_cache schema_name s1) as [r s2].
  unfold same_subxacts in Hstack. cbn [fst snd] in *.
  unfold subxact_exit, bind, get_state. rewrite Hstack.
  destruct (st_subxacts s1) as [|saved outer]; [done|].
  unfold log, modify. cbn [fst snd].
  exists (new ++ [ESubxactExit true]). unfold refused in *.
  rewrite replay_app. cbn [fst snd]. rewrite Hr. cbn [fst snd].
  rewrite Hstack. unfold replay at 1 3. cbn.
  rewrite app_nil_r. split_and!.
  - by rewrite Ht, app_assoc.
  - done.
  - intros ev e Hin Hrename.
    destruct (Hf ev e Hin Hrename) as (-> & before & after & -> & Hafter).
    split; [done|]. exists before, (after ++ [ESubxactExit true]). split.
    + by rewrite <- app_assoc.
    + apply Forall_app. split; [done|]. by repeat constructor.
Qed.

Lemma aborts_rename_duplicated_column_names column_names s :
  aborts_on_refusal W (_rename_duplicated_column_names W column_names) s.
Proof.
  unfold _rename_duplicated_column_names. aborts_step; [|aborts_step].
  apply aborts_for_each. intros [renamed used] name s1.
  unfold rename_one. repeat aborts_step.
Qed.

Lemma aborts_plan_batch insert_sql column_types n s :
  aborts_on_refusal W (_plan_batch W insert_sql column_types n) s.
Proof. unfold _plan_batch. repeat aborts_step. Qed.

Lemma aborts_batch_insert_loop insert_sql batch_size column_types rows :
  ∀ full_batch_plan batch s,
    aborts_on_refusal W
      (_batch_insert_loop W insert_sql batch_size column_types rows
         full_batch_plan batch) s.
Proof.
  induction rows as [| |row rows IH]; intros fp batch s; cbn [_batch_insert_loop].
  - apply aborts_ret.
  - apply aborts_raise.
  - case_bool_decide; [|apply IH].
    apply aborts_bind.
    + destruct fp; [apply aborts_ret|apply aborts_plan_batch].
    + intros p s1 _. apply aborts_bind; [apply aborts_plpy_execute_plan|].
      intros _ s2 _. apply IH.
Qed.

Lemma aborts_batch_insert insert_sql batch_size column_types rows s :
  aborts_on_refusal W
    (_batch_insert W insert_sql batch_size column_types rows) s.
Proof.
  unfold _batch_insert. apply aborts_bind; [apply aborts_batch_insert_loop|].
  intros batch s1 _. destruct batch; [apply aborts_ret|].
  apply aborts_bind; [apply aborts_plan_batch|].
  intros p s2 _. apply aborts_plpy_execute_plan.
Qed.

Lemma aborts_create_and_insert result_table column_names column_types rows s :
  aborts_on_refusal W
    (create_and_insert W result_table column_names column_types rows) s.
Proof.
  unfold create_and_insert.
  aborts_step; [apply aborts_rename_duplicated_column_names|].
  aborts_step; [aborts_step|]. aborts_step; [aborts_step|].
  aborts_step; [aborts_step|]. apply aborts_batch_insert.
Qed.

Lemma aborts_run_system_catalog_as_temp_table_body
    server user catalog schema login_user login_database result_table query s :
  aborts_on_refusal W
    (run_system_catalog_as_temp_table_body W server user catalog schema
       login_user login_database result_table query) s.
Proof.
  unfold run_system_catalog_as_temp_table_body, dict_get.
  apply aborts_bind; [apply aborts_get_session_time_zone|].
  intros time_zone s0 _.
  apply aborts_bind; [apply aborts_plan_or_cached|].
  intros [[[schema_names statements] query_cache] schema_name] s1 _.
  apply aborts_bind; [repeat aborts_step|]. intros query_result s2 _.
  apply aborts_bind.
  - destruct query_result; [aborts_step|apply aborts_mirror_in_subtransaction].
  - intros [[column_names column_types] result] s3 _.
    apply aborts_create_and_insert.
Qed.

(** Whatever the local session refuses during a call, unless it is the
    rename of a placeholder schema, is what the call raises. *)
Lemma run_system_catalog_as_temp_table_aborts
    server user catalog schema login_user login_database result_table query s :
  aborts_on_refusal W
    (run_system_catalog_as_temp_table W server user catalog schema
       login_user login_database result_table query) s.
Proof.
  destruct (aborts_run_system_catalog_as_temp_table_body server user catalog
              schema login_user login_database result_table query s)
    as (new & Ht & Hr & Hf).
  destruct (run_system_catalog_as_temp_table_session W server user catalog
              schema login_user login_database result_table query s)
    as (Hout & Hdb & Hstack & Htrace & _).
  exists new. rewrite Hout, Hdb, Hstack, Htrace. done.
Qed.
End CallRefusals.

Section RemoteFailure.
Context {db env : Type} (W : World db env).
Implicit Types s : state db env.

(** A failure of the remote engine during discovery is what the call
    raises, and the call does nothing after it. *)
Lemma discovery_failure_aborts
    server user catalog schema login_user login_database result_table query
    s time_zone s0 e env' :
  _get_session_time_zone W s = (inr time_zone, s0) →
  is_cached (SchemaCacheEntry s) server user catalog schema
    (time_time W (st_env s)).1 = false →
  presto_run W
    {| Client_server := server; Client_user := user;
       Client_catalog := catalog; Client_schema := schema;
       Client_time_zone := time_zone |}
    discovery_sql (time_time W (st_env s)).2 = (inl e, env') →
  let run := run_system_catalog_as_temp_table W server user catalog schema
               login_user login_database result_table query s in
  run.1 = inl e
  ∧ st_trace run.2
    = st_trace s0
      ++ [EPrestoRun {| Client_server := server; Client_user := user;
                        Client_catalog := catalog; Client_schema := schema;
                        Client_time_zone := time_zone |} discovery_sql].
Proof.
  intros Hzone Hmiss Hremote. cbn zeta.
  destruct (run_system_catalog_as_temp_table_session W server user catalog
              schema login_user login_database result_table query s)
    as (-> & _ & _ & -> & _).
  set (client := {| Client_server := server; Client_user := user;
                    Client_catalog := catalog; Client_schema := schema;
                    Client_time_zone := time_zone |}) in *.
  assert (run_system_catalog_as_temp_table_body W server user catalog schema
            login_user login_database result_table query s
          = (inl e,
             set_env env'
               (set_trace (st_trace s0 ++ [EPrestoRun client discovery_sql])
                  (set_env (time_time W (st_env s)).2 s0)))) as ->; [|done].
  unfold run_system_catalog_as_temp_table_body. unfold bind at 1.
  rewrite Hzone. fold client.
  apply get_session_time_zone_same_env in Hzone as (Henv & Hentry & _).
  unfold bind at 1. unfold plan_or_cached. unfold bind at 1.
  unfold time_time_ at 1. rewrite Henv.
  destruct (time_time W (st_env s)) as [t env1]. cbn [fst snd] in *.
  unfold bind at 1. unfold get_state at 1. cbn [SchemaCacheEntry set_env].
  rewrite Hentry, Hmiss.
  unfold bind at 1. unfold client_run, bind, log, modify. cbn.
  fold discovery_sql. rewrite Hremote. done.
Qed.
End RemoteFailure.

(** C5, as amended. A row whose schema, table or column name is longer
    than 63 characters is skipped with one warning and discovery goes on;
    a placeholder schema whose rename fails is passed over without any
    diagnostic, the loop goes on with the next schema and never raises.
    Every other failure ends the call: whatever else the local session
    refuses during the call (a statement, a cursor, a prepare or an
    execution, anywhere in the call) is raised to the caller as the
    very exception of the refusal, and after the refused action the call
    does nothing but leave the subtransaction; a failure of the remote
    discovery is raised in the same way, with nothing done after it; an
    exception raised inside the subtransaction leaves the subtransaction
    as it is, and the entry point raises to its caller the very
    exception its body raised. *)
Theorem recovered_and_fatal_failures {db env} (W : World db env) :
  (∀ schemas sn row (s : state db env),
     let schema_name := table_schema row in
     let tables := default ∅ (schemas !! schema_name) in
     let columns := default [] (tables !! table_name row) in
     let warned msg := set_trace (st_trace s ++ [EWarning msg]) s in
     (too_long schema_name →
      discover_row W (schemas, sn) row s
      = (inr (schemas, Some schema_name),
         warned (skipped_msg "Schema" (quote_ident W schema_name))))
     ∧ (¬ too_long schema_name → too_long (table_name row) →
        discover_row W (schemas, sn) row s
        = (inr (<[schema_name := tables]> schemas, Some schema_name),
           warned (skipped_msg "Table"
                     (quote_ident W schema_name +:+ "."
                      +:+ quote_ident W (table_name row)))))
     ∧ (¬ too_long schema_name → ¬ too_long (table_name row) →
        too_long (column_name row) →
        discover_row W (schemas, sn) row s
        = (inr (<[schema_name := <[table_name row := columns]> tables]>
                  (<[schema_name := tables]> schemas), Some schema_name),
           warned (skipped_msg "Column"
                     (quote_ident W schema_name +:+ "."
                      +:+ quote_ident W (table_name row) +:+ "."
                      +:+ quote_ident W (column_name row))))))
  ∧ (∀ schema_holder_id sn schema_name (s : state db env) e,
       spi_execute W (rename_holder_sql W schema_holder_id schema_name) (st_db s)
       = inl e →
       rename_schema_holder W (schema_holder_id, sn) schema_name s
       = (inr (schema_holder_id, Some schema_name),
          set_trace
            (st_trace s
             ++ [EExecute (rename_holder_sql W schema_holder_id schema_name)])
            s))
  ∧ (∀ schema_names acc (s : state db env),
       ∃ renamed s' sqls,
         for_each schema_names (rename_schema_holder W) acc s = (inr renamed, s')
         ∧ st_trace s' = st_trace s ++ (EExecute <$> sqls)
         ∧ length sqls = length schema_names)
  ∧ (∀ server user catalog schema login_user login_database result_table query
       (s : state db env),
       let run := run_system_catalog_as_temp_table W server user catalog schema
                    login_user login_database result_table query s in
       ∃ new,
         st_trace run.2 = st_trace s ++ new
         ∧ (replay W (st_db s) (st_subxacts s) new).1
           = (st_db run.2, st_subxacts run.2)
         ∧ ∀ ev e,
             (ev, e) ∈ refused W (st_db s) (st_subxacts s) new →
             ¬ holder_rename W ev →
             run.1 = inl e
             ∧ ∃ before after,
                 new = before ++ ev :: after ∧ Forall leaves_subxact after)
  ∧ (∀ server user catalog schema login_user login_database result_table query
       (s : state db env) time_zone s0 e env',
       _get_session_time_zone W s = (inr time_zone, s0) →
       is_cached (SchemaCacheEntry s) server user catalog schema
         (time_time W (st_env s)).1 = false →
       presto_run W
         {| Client_server := server; Client_user := user;
            Client_catalog := catalog; Client_schema := schema;
            Client_time_zone := time_zone |}
         discovery_sql (time_time W (st_env s)).2 = (inl e, env') →
       let run := run_system_catalog_as_temp_table W server user catalog schema
                    login_user login_database result_table query s in
       run.1 = inl e
       ∧ st_trace run.2
         = st_trace s0
           ++ [EPrestoRun {| Client_server := server; Client_user := user;
                             Client_catalog := catalog; Client_schema := schema;
                             Client_time_zone := time_zone |} discovery_sql])
  ∧ (∀ login_user query names stmts query_cache schema_name (s : state db env),
       (mirror_in_subtransaction W login_user query names stmts query_cache
          schema_name s).1
       = (mirror_and_query W login_user query names stmts query_cache
            schema_name
            (set_subxacts (st_db s :: st_subxacts s)
               (set_trace (st_trace s ++ [ESubxactEnter]) s))).1)
  ∧ (∀ server user catalog schema login_user login_database result_table query
       (s : state db env),
       (run_system_catalog_as_temp_table W server user catalog schema
          login_user login_database result_table query s).1
       = (run_system_catalog_as_temp_table_body W server user catalog schema
            login_user login_database result_table query s).1).
Proof.
  split_and!.
  - intros schemas sn row s.
    destruct (discover_row_value W schemas sn row s) as (H1 & H2 & H3 & _).
    by split_and!.
  - intros i sn name s e He. by rewrite rename_schema_holder_value, He.
  - intros names acc s.
    destruct (rename_loop_never_raises W names acc s)
      as (renamed & s' & sqls & Hrun & Ht & Hl & _).
    by exists renamed, s', sqls.
  - intros. apply run_system_catalog_as_temp_table_aborts.
  - intros. by eapply discovery_failure_aborts.
  - intros. apply mirror_in_subtransaction_reraises.
  - intros. apply run_system_catalog_as_temp_table_outcome.
Qed.

Lemma recovered_and_fatal_failures_witness :
  (discover_row (Demo.world Demo.nothing_fails None) (∅, None)
     {| table_schema :=
          "a_schema_name_that_is_longer_than_the_sixty_three_characters_allowed";
        table_name := "orders"; column_name := "id";
        is_nullable := PyBool true; data_type := "integer" |} Demo.start).1
  = inr (∅, Some "a_schema_name_that_is_longer_than_the_sixty_three_characters_allowed")
  ∧ (rename_schema_holder (Demo.world Demo.renames_fail None) (0, None) "sales"
       Demo.start).1 = inr (0, Some "sales")
  ∧ (run_system_catalog_as_temp_table
       (Demo.world (String.prefix "grant select") (Some Demo.sales))
       (PyStr "presto:8080") (PyStr "bob") (PyStr "hive") PyNone
       "bob" "postgres" "t1" "select 1 as x, 2 as y" Demo.start).1
    = inl (SPIError
             "grant select on all tables in schema prestogres_catalog to bob").
Proof.
  destruct (recovered_and_fatal_failures (Demo.world Demo.nothing_fails None))
    as (Hskip & _).
  destruct (recovered_and_fatal_failures (Demo.world Demo.renames_fail None))
    as (_ & Hrename & _).
  destruct (recovered_and_fatal_failures
              (Demo.world (String.prefix "grant select") (Some Demo.sales)))
    as (_ & _ & _ & Hrefused & _).
  split_and!.
  - destruct (Hskip ∅ None
      {| table_schema :=
           "a_schema_name_that_is_longer_than_the_sixty_three_characters_allowed";
         table_name := "orders"; column_name := "id";
         is_nullable := PyBool true; data_type := "integer" |} Demo.start)
      as (Hschema & _).
    rewrite Hschema; [done|]. unfold too_long. vm_compute. lia.
  - erewrite (Hrename 0 None "sales" Demo.start); [done|].
    vm_compute. reflexivity.
  - destruct (Hrefused (PyStr "presto:8080") (PyStr "bob") (PyStr "hive") PyNone
                "bob" "postgres" "t1" "select 1 as x, 2 as y" Demo.start)
      as (new & Ht & _ & Habort).
    cbn [Demo.start st_trace app] in Ht. subst new.
    apply (Habort
             (EExecute
                "grant select on all tables in schema prestogres_catalog to bob")).
    + vm_compute. apply list_elem_of_here.
    + intros (i & name & Heq). discriminate Heq.
Defined.

(** * More properties of the module *)

(** ** Catalog discovery *)

Lemma set_trace_nil {db env} (s : state db env) : set_trace (st_trace s ++ []) s = s.
Proof. destruct s. unfold set_trace. cbn. by rewrite app_nil_r. Qed.

Lemma set_trace_app {db env} (s : state db env) (a b : list event) :
  set_trace (st_trace (set_trace (st_trace s ++ a) s) ++ b)
    (set_trace (st_trace s ++ a) s)
  = set_trace (st_trace s ++ (a ++ b)) s.
Proof. destruct s. unfold set_trace. cbn. by rewrite app_assoc. Qed.

Section Discovery.
Context {db env : Type} (W : World db env).
Implicit Types schemas : gmap string (gmap string (list Column)).

Lemma lookup_put schemas s t v s' t' :
  <[s := <[t := v]> (default ∅ (schemas !! s))]> schemas !! s'
  ≫= (λ tables, tables !! t')
  = if decide (s' = s ∧ t' = t) then Some v
    else schemas !! s' ≫= (λ tables, tables !! t').
Proof.
  destruct (decide (s' = s)) as [->|Hs].
  - rewrite lookup_insert_eq. cbn. destruct (decide (t' = t)) as [->|Ht].
    + rewrite lookup_insert_eq. by rewrite decide_True.
    + rewrite lookup_insert_ne by done. rewrite decide_False by (intros [? ?]; done).
      destruct (schemas !! s); [done|]. cbn. apply lookup_empty.
  - rewrite lookup_insert_ne by done. rewrite decide_False by (intros [? ?]; done). done.
Qed.

Lemma lookup_setdefault schemas s s' t' :
  <[s := default ∅ (schemas !! s)]> schemas !! s' ≫= (λ tables, tables !! t')
  = schemas !! s' ≫= (λ tables, tables !! t').
Proof.
  destruct (decide (s' = s)) as [->|Hs].
  - rewrite lookup_insert_eq. cbn. destruct (schemas !! s); [done|].
    cbn. apply lookup_empty.
  - by rewrite lookup_insert_ne.
Qed.

Lemma columns_of_setdefault schemas s t :
  default [] (default ∅ (schemas !! s) !! t) = columns_of schemas s t.
Proof.
  unfold columns_of. destruct (schemas !! s); cbn; [done|].
  by rewrite lookup_empty.
Qed.

(** One catalog row: what it adds to the tables, which diagnostic it
    emits, and that it never raises. *)
Lemma discover_row_step schemas sn row s :
  ∃ schemas' msgs,
    discover_row W (schemas, sn) row s
    = (inr (schemas', Some (table_schema row)),
       set_trace (st_trace s ++ (EWarning <$> msgs)) s)
    ∧ length msgs = (if decide (short_names row) then 0 else 1)
    ∧ (∀ x, has_schema schemas' x
            ↔ has_schema schemas x
              ∨ (x = table_schema row ∧ ¬ too_long (table_schema row)))
    ∧ (∀ x t, schemas' !! x ≫= (λ tables, tables !! t)
              = if decide (x = table_schema row ∧ t = table_name row
                           ∧ ¬ too_long (table_schema row)
                           ∧ ¬ too_long (table_name row))
                then Some (columns_of schemas x t
                           ++ if decide (short_names row)
                              then [column_of_row row] else [])
                else schemas !! x ≫= (λ tables, tables !! t)).
Proof.
  destruct (discover_row_value W schemas sn row s) as (H1 & H2 & H3 & H4).
  unfold has_schema.
  destruct (decide (too_long (table_schema row))) as [L1|L1].
  { eexists schemas, [_]. rewrite (H1 L1). split_and!; [done| | |].
    - rewrite decide_False; [done|]. intros (? & _); done.
    - intros x. split; [by left|]. intros [?|[_ ?]]; done.
    - intros x t. rewrite decide_False; [done|]. intros (_ & _ & ? & _); done. }
  destruct (decide (too_long (table_name row))) as [L2|L2].
  { eexists _, [_]. rewrite (H2 L1 L2). split_and!; [done| | |].
    - rewrite decide_False; [done|]. intros (_ & ? & _); done.
    - intros x. destruct (decide (x = table_schema row)) as [->|Hx].
      + rewrite lookup_insert_eq. split; [by right|by eexists].
      + rewrite lookup_insert_ne by done. split; [by left|].
        intros [?|[? ?]]; done.
    - intros x t. rewrite lookup_setdefault.
      rewrite decide_False; [done|]. intros (_ & _ & _ & ?); done. }
  destruct (decide (too_long (column_name row))) as [L3|L3].
  { eexists _, [_]. rewrite (H3 L1 L2 L3). rewrite insert_insert_eq.
    split_and!; [done| | |].
    - rewrite decide_False; [done|]. intros (_ & _ & ?); done.
    - intros x. destruct (decide (x = table_schema row)) as [->|Hx].
      + rewrite lookup_insert_eq. split; [by right|by eexists].
      + rewrite lookup_insert_ne by done. split; [by left|].
        intros [?|[? ?]]; done.
    - intros x t.
      rewrite lookup_put.
      rewrite (decide_False (P := short_names row)) by (intros (_ & _ & ?); done).
      rewrite app_nil_r.
      destruct (decide (x = table_schema row ∧ t = table_name row)) as [[-> ->]|Hn].
      + rewrite decide_True by done. by rewrite columns_of_setdefault.
      + rewrite decide_False; [done|]. intros (? & ? & _); by apply Hn. }
  eexists _, []. rewrite (H4 L1 L2 L3). rewrite !insert_insert_eq.
  split_and!.
  - cbn. by rewrite set_trace_nil.
  - by rewrite decide_True.
  - intros x. destruct (decide (x = table_schema row)) as [->|Hx].
    + rewrite lookup_insert_eq. split; [by right|by eexists].
    + rewrite lookup_insert_ne by done. split; [by left|].
      intros [?|[? ?]]; done.
  - intros x t.
    rewrite lookup_put.
    rewrite (decide_True (P := short_names row)) by done.
    destruct (decide (x = table_schema row ∧ t = table_name row)) as [[-> ->]|Hn].
    + rewrite decide_True by done. by rewrite columns_of_setdefault.
    + rewrite decide_False; [done|]. intros (? & ? & _); by apply Hn.
Qed.

(** The discovery loop from any accumulator. *)
Lemma discover_rows_spec rows : ∀ schemas sn s,
  ∃ schemas' msgs,
    for_each rows (discover_row W) (schemas, sn) s
    = (inr (schemas', from_option (Some ∘ table_schema) sn (last rows)),
       set_trace (st_trace s ++ (EWarning <$> msgs)) s)
    ∧ length msgs = length (filter (λ r, ¬ short_names r) rows)
    ∧ (∀ x, has_schema schemas' x
            ↔ has_schema schemas x
              ∨ ∃ r, r ∈ rows ∧ table_schema r = x ∧ ¬ too_long x)
    ∧ (∀ x t, has_table schemas' x t
              ↔ has_table schemas x t
                ∨ ∃ r, r ∈ rows ∧ table_schema r = x ∧ table_name r = t
                       ∧ ¬ too_long x ∧ ¬ too_long t)
    ∧ (∀ x t, columns_of schemas' x t
              = columns_of schemas x t
                ++ (column_of_row
                      <$> filter (λ r, table_schema r = x ∧ table_name r = t
                                       ∧ short_names r) rows)).
Proof.
  induction rows as [|row rows IH]; intros schemas sn s.
  { exists schemas, []. cbn. rewrite set_trace_nil. split_and!; try done.
    - intros x. split; [by left|]. intros [?|(r & Hr & _)]; [done|].
      by apply elem_of_nil in Hr.
    - intros x t. split; [by left|]. intros [?|(r & Hr & _)]; [done|].
      by apply elem_of_nil in Hr.
    - intros x t. by rewrite app_nil_r. }
  destruct (discover_row_step schemas sn row s)
    as (schemas1 & msgs1 & Hrun & Hlen & Hschema & Htable).
  destruct (IH schemas1 (Some (table_schema row))
              (set_trace (st_trace s ++ (EWarning <$> msgs1)) s))
    as (schemas2 & msgs2 & Hrun2 & Hlen2 & Hschema2 & Htable2 & Hcols2).
  exists schemas2, (msgs1 ++ msgs2).
  cbn [for_each]. unfold bind at 1. rewrite Hrun, Hrun2.
  rewrite set_trace_app, fmap_app. split_and!.
  - f_equal. f_equal. f_equal. destruct rows as [|r' rows']; [done|].
    rewrite last_cons_cons.
    destruct (last (r' :: rows')) eqn:E; [done|]. by apply last_None in E.
  - rewrite length_app, Hlen, Hlen2, filter_cons.
    destruct (decide (short_names row)) as [Hs|Hs].
    + rewrite decide_False by (intros Hn; by apply Hn). done.
    + by rewrite decide_True.
  - intros x. rewrite Hschema2, Hschema. split.
    + intros [[?|[-> ?]]|(r & Hr & ? & ?)].
      * by left.
      * right. exists row. split_and!; [apply elem_of_cons; by left|done..].
      * right. exists r. split_and!; [apply elem_of_cons; by right|done..].
    + intros [?|(r & Hr & <- & ?)]; [by left; left|].
      apply elem_of_cons in Hr as [->|Hr]; [by left; right|].
      right. by exists r.
  - intros x t. rewrite Htable2. unfold has_table at 1. rewrite Htable.
    split.
    + intros [Hi|(r & Hr & ? & ? & ? & ?)].
      * case_decide as Hd; [|by left]. destruct Hd as (-> & -> & ? & ?).
        right. exists row. split_and!; [apply elem_of_cons; by left|done..].
      * right. exists r. split_and!; [apply elem_of_cons; by right|done..].
    + intros [Hi|(r & Hr & <- & <- & ? & ?)].
      * left. destruct (decide (_ ∧ _ ∧ _ ∧ _)); [by eexists|done].
      * apply elem_of_cons in Hr as [->|Hr].
        -- left. rewrite decide_True by done. by eexists.
        -- right. by exists r.
  - intros x t. rewrite Hcols2. unfold columns_of at 1. rewrite Htable.
    rewrite filter_cons.
    destruct (decide (x = _ ∧ t = _ ∧ ¬ _ ∧ ¬ _)) as [Hd|Hd].
    + destruct Hd as (-> & -> & ? & ?). cbn [default from_option id].
      destruct (decide (short_names row)) as [Hs|Hs].
      * rewrite decide_True by done. by rewrite fmap_cons, <- app_assoc.
      * rewrite decide_False by (intros (_ & _ & ?); done).
        by rewrite app_nil_r.
    + rewrite decide_False; [done|]. intros (E1 & E2 & ? & ? & _).
      by apply Hd.
Qed.

(** X1. Catalog discovery groups the columns by schema and table: the
    columns recorded for a table are those of the rows that name it, in
    the order of the rows, rows with a name that is too long left out.
    The loop never raises. *)
Theorem discovery_groups_columns_in_row_order rows s :
  ∃ found s',
    for_each rows (discover_row W) (∅, None) s = (inr found, s')
    ∧ ∀ x t, columns_of found.1 x t
             = column_of_row
                 <$> filter (λ r, table_schema r = x ∧ table_name r = t
                                  ∧ short_names r) rows.
Proof.
  destruct (discover_rows_spec rows ∅ None s)
    as (schemas' & msgs & Hrun & _ & _ & _ & Hcols).
  eexists _, _. split; [exact Hrun|]. intros x t. cbn [fst].
  rewrite Hcols. unfold columns_of. by rewrite lookup_empty.
Qed.

(** X2. Discovery records a schema as soon as one row names it with a
    name that fits, and a table as soon as one row names it with a
    schema and a table name that fit: a table all of whose columns are
    skipped is still recorded, without columns, and so is a schema all
    of whose tables are skipped. *)
Theorem discovery_records_schemas_and_tables rows s :
  ∃ found s',
    for_each rows (discover_row W) (∅, None) s = (inr found, s')
    ∧ (∀ x, has_schema found.1 x
            ↔ ∃ r, r ∈ rows ∧ table_schema r = x ∧ ¬ too_long x)
    ∧ (∀ x t, has_table found.1 x t
              ↔ ∃ r, r ∈ rows ∧ table_schema r = x ∧ table_name r = t
                     ∧ ¬ too_long x ∧ ¬ too_long t).
Proof.
  destruct (discover_rows_spec rows ∅ None s)
    as (schemas' & msgs & Hrun & _ & Hschema & Htable & _).
  eexists _, _. split; [exact Hrun|]. cbn [fst]. split.
  - intros x. rewrite Hschema. unfold has_schema. rewrite lookup_empty.
    split; [|by right]. intros [[? ?]|?]; done.
  - intros x t. rewrite Htable. unfold has_table. rewrite lookup_empty.
    split; [|by right]. intros [[? ?]|?]; done.
Qed.

(** X3. Discovery changes nothing but the diagnostics: it emits one
    warning for each row with a name that is too long and none for the
    others, and it leaves the local [schema_name] bound to the schema of
    the last row, skipped or not, and unbound when there is no row. *)
Theorem discovery_warns_once_per_skipped_row rows s :
  ∃ found msgs,
    for_each rows (discover_row W) (∅, None) s
    = (inr found, set_trace (st_trace s ++ (EWarning <$> msgs)) s)
    ∧ length msgs = length (filter (λ r, ¬ short_names r) rows)
    ∧ found.2 = table_schema <$> last rows.
Proof.
  destruct (discover_rows_spec rows ∅ None s)
    as (schemas' & msgs & Hrun & Hlen & _).
  eexists _, msgs. split; [exact Hrun|]. split; [done|].
  cbn [snd]. by destruct (last rows).
Qed.
End Discovery.

(** ** Diagnostics of the identifier deduplicator *)

Section RenameDiagnostics.
Context {db env : Type} (W : World db env).

Lemma rename_one_run renamed used n (s : state db env) :
  let name := first_unused used n in
  rename_one W (renamed, used) n s
  = (inr (renamed ++ [name], {[name]} ∪ used),
     set_trace (st_trace s
                ++ (EWarning <$> renamed_msgs W [n] [name])) s).
Proof.
  cbn zeta. unfold rename_one, renamed_msgs, bind.
  cbn [zip zip_with omap list_omap fst snd].
  destruct (decide (n = first_unused used n)) as [E|E].
  - rewrite bool_decide_false by (intros Hn; by apply Hn).
    cbn. by rewrite set_trace_nil.
  - rewrite bool_decide_true by (intros Hn; by apply E). done.
Qed.

Lemma renamed_msgs_cons n c names new :
  renamed_msgs W (n :: names) (c :: new)
  = renamed_msgs W [n] [c] ++ renamed_msgs W names new.
Proof.
  unfold renamed_msgs. cbn [zip zip_with omap list_omap fst snd].
  by destruct (decide (n = c)).
Qed.

Lemma renamed_msgs_same names : renamed_msgs W names names = [].
Proof.
  induction names as [|n names IH]; [done|].
  rewrite renamed_msgs_cons, IH. unfold renamed_msgs.
  cbn [zip zip_with omap list_omap fst snd]. by rewrite decide_True.
Qed.

(** The loop of the deduplicator from any accumulator: its value and
    its diagnostics. *)
Lemma rename_loop_run names : ∀ renamed used (s : state db env),
  ∃ new,
    length new = length names
    ∧ (renamed_from renamed used names).1 = renamed ++ new
    ∧ for_each names (rename_one W) (renamed, used) s
      = (inr (renamed_from renamed used names),
         set_trace (st_trace s ++ (EWarning <$> renamed_msgs W names new)) s).
Proof.
  induction names as [|n names IH]; intros renamed used s.
  { exists []. cbn. rewrite app_nil_r, set_trace_nil. done. }
  destruct (IH (renamed ++ [first_unused used n])
              ({[first_unused used n]} ∪ used)
              (set_trace (st_trace s
                 ++ (EWarning <$> renamed_msgs W [n] [first_unused used n])) s))
    as (new & Hlen & Hval & Hrun).
  exists (first_unused used n :: new). split_and!.
  - cbn. by rewrite Hlen.
  - cbn [renamed_from]. rewrite Hval. by rewrite <- app_assoc.
  - cbn [for_each renamed_from]. unfold bind at 1.
    rewrite rename_one_run, Hrun, set_trace_app, <- fmap_app.
    by rewrite <- renamed_msgs_cons.
Qed.

Lemma first_unused_fresh (used : gset string) name :
  name ∉ used → first_unused used name = name.
Proof.
  intros Hfresh. destruct (first_unused_spec used name) as (k & -> & _ & Hprev).
  destruct k as [|k]; [done|]. exfalso. apply Hfresh.
  apply (Hprev 0). lia.
Qed.

Lemma renamed_from_distinct names : ∀ renamed used,
  used = list_to_set renamed → NoDup (renamed ++ names) →
  (renamed_from renamed used names).1 = renamed ++ names.
Proof.
  induction names as [|n names IH]; intros renamed used Hused Hnd.
  { cbn. by rewrite app_nil_r. }
  cbn [renamed_from].
  assert (first_unused used n = n) as ->.
  { apply first_unused_fresh. rewrite Hused, elem_of_list_to_set.
    apply NoDup_app in Hnd as (_ & Hdis & _). intros Hin.
    apply (Hdis n Hin). apply elem_of_cons. by left. }
  rewrite IH.
  - by rewrite <- app_assoc.
  - rewrite Hused, list_to_set_app_L. simpl.
    rewrite (right_id_L ∅ (∪)). apply (comm_L (∪)).
  - by rewrite <- app_assoc.
Qed.

(** X4. The deduplicator changes nothing but the diagnostics, and it
    warns exactly about the columns that get another name: one warning
    for each position where the output differs from the input, in the
    order of the positions, naming the original and the chosen name. *)
Theorem rename_warns_once_per_renamed_column (column_names : list string)
    (s : state db env) :
  ∃ renamed,
    length renamed = length column_names
    ∧ _rename_duplicated_column_names W column_names s
      = (inr renamed,
         set_trace (st_trace s
                    ++ (EWarning <$> renamed_msgs W column_names renamed)) s).
Proof.
  destruct (rename_loop_run column_names [] ∅ s) as (new & Hlen & Hval & Hrun).
  exists new. split; [done|].
  unfold _rename_duplicated_column_names, bind. rewrite Hrun.
  unfold ret. by rewrite Hval.
Qed.

(** X5. On names that are pairwise distinct the deduplicator is the
    identity and emits no diagnostic. *)
Theorem rename_keeps_distinct_names (column_names : list string)
    (s : state db env) :
  NoDup column_names →
  _rename_duplicated_column_names W column_names s = (inr column_names, s).
Proof.
  intros Hnd.
  destruct (rename_loop_run column_names [] ∅ s) as (new & Hlen & Hval & Hrun).
  rewrite (renamed_from_distinct column_names [] ∅) in Hval by done.
  cbn in Hval. subst new.
  unfold _rename_duplicated_column_names, bind. rewrite Hrun.
  unfold ret. rewrite renamed_msgs_same. cbn [fmap list_fmap].
  rewrite set_trace_nil.
  by rewrite (renamed_from_distinct column_names [] ∅).
Qed.

(** X6. The deduplicator is idempotent: run on its own output, in any
    state, it returns that output and emits no diagnostic. *)
Theorem rename_is_idempotent (column_names : list string)
    (s s2 : state db env) :
  ∃ renamed,
    (_rename_duplicated_column_names W column_names s).1 = inr renamed
    ∧ _rename_duplicated_column_names W renamed s2 = (inr renamed, s2).
Proof.
  destruct (rename_loop_run column_names [] ∅ s) as (new & Hlen & Hval & Hrun).
  destruct (renamed_from_spec column_names [] ∅ eq_refl (NoDup_nil_2 (A:=string)))
    as (new' & Hval' & _ & Hnd & _).
  rewrite Hval in Hval'. cbn in Hval'. subst new'.
  exists new. split.
  { unfold _rename_duplicated_column_names, bind. rewrite Hrun.
    unfold ret. by rewrite Hval. }
  destruct (rename_loop_run new [] ∅ s2) as (new2 & Hlen2 & Hval2 & Hrun2).
  rewrite (renamed_from_distinct new [] ∅) in Hval2 by done.
  cbn in Hval2. subst new2.
  unfold _rename_duplicated_column_names, bind. rewrite Hrun2.
  unfold ret. rewrite renamed_msgs_same. cbn [fmap list_fmap].
  rewrite set_trace_nil.
  by rewrite (renamed_from_distinct new [] ∅).
Qed.
End RenameDiagnostics.

Lemma rename_keeps_distinct_names_witness :
  NoDup ["id"; "name"]
  ∧ _rename_duplicated_column_names (Demo.world Demo.nothing_fails None)
      ["id"; "name"] Demo.start
    = (inr ["id"; "name"], Demo.start).
Proof.
  assert (NoDup ["id"; "name"]) as Hnd.
  { apply (bool_decide_unpack _). vm_compute. exact I. }
  split; [exact Hnd|].
  exact (rename_keeps_distinct_names (Demo.world Demo.nothing_fails None)
           ["id"; "name"] Demo.start Hnd).
Defined.

(** ** Text of the SQL builders *)

Lemma concat_sep_cons (sep x : string) (l : list string) :
  String.concat sep (x :: l)
  = x +:+ String.concat "" ((λ y, sep +:+ y) <$> l).
Proof.
  revert x. induction l as [|y l IH]; intros x.
  - cbn. by rewrite append_nil_r.
  - rewrite fmap_cons, concat_empty_cons.
    change (String.concat sep (x :: y :: l))
      with (x +:+ sep +:+ String.concat sep (y :: l)).
    by rewrite IH, append_assoc.
Qed.

Lemma join_str (l : list string) : join (PyStr <$> l) = inr (String.concat "" l).
Proof.
  induction l as [|x l IH]; [done|].
  rewrite fmap_cons. cbn [join]. by rewrite IH, concat_empty_cons.
Qed.

Lemma join_not_str (l : list pyval) : strings_of l = None → join l = inl TypeError.
Proof.
  induction l as [|x l IH]; [done|]. destruct x; try done.
  cbn [strings_of join]. destruct (strings_of l); [done|].
  intros _. by rewrite IH.
Qed.

Lemma strings_of_Some (l : list pyval) strs :
  strings_of l = Some strs → l = PyStr <$> strs.
Proof.
  revert strs. induction l as [|x l IH]; intros strs.
  - by intros [= <-].
  - destruct x; try done. cbn [strings_of].
    destruct (strings_of l) as [r|]; [|done]. intros [= <-].
    by rewrite fmap_cons, (IH r).
Qed.

Lemma strings_of_app_None_l (l1 l2 : list pyval) :
  strings_of l1 = None → strings_of (l1 ++ l2) = None.
Proof.
  induction l1 as [|x l1 IH]; [done|]. destruct x; try done.
  cbn [strings_of app]. destruct (strings_of l1); [done|].
  intros _. by rewrite IH.
Qed.

Lemma strings_of_app_None_r (l1 l2 : list pyval) :
  strings_of l2 = None → strings_of (l1 ++ l2) = None.
Proof.
  intros H. induction l1 as [|x l1 IH]; [done|]. destruct x; try done.
  cbn [strings_of app]. by rewrite IH.
Qed.

Lemma join_error (l : list pyval) e : join l = inl e → e = TypeError.
Proof.
  induction l as [|x l IH]; [done|]. destruct x; cbn [join]; try congruence.
  destruct (join l); [|done]. intros [= <-]. by apply IH.
Qed.

Lemma join_app (l1 l2 : list pyval) :
  join (l1 ++ l2)
  = match join l1, join l2 with
    | inr a, inr b => inr (a +:+ b)
    | _, _ => inl TypeError
    end.
Proof.
  induction l1 as [|x l1 IH].
  - cbn. destruct (join l2) as [e|b] eqn:E; [|done].
    by rewrite (join_error l2 e E).
  - destruct x; try done. cbn [app join]. rewrite IH.
    destruct (join l1) as [e|a]; [done|].
    destruct (join l2) as [e|b]; [done|]. by rewrite append_assoc.
Qed.

Section Builders.
Context {db env : Type} (W : World db env).

(** The loop of [_build_insert_into_sql] once [first] is cleared. *)
Lemma insert_columns_loop (column_names : list string) : ∀ insert_sql,
  (foldl (λ '(insert_sql, first) column_name,
            let insert_sql :=
              if first : bool then insert_sql
              else insert_sql ++ ["," +:+ NL +:+ "  "] in
            (insert_sql ++ [quote_ident W column_name], false))
     (insert_sql, false) column_names).1
  = insert_sql
    ++ mjoin ((λ n, [column_sep; quote_ident W n]) <$> column_names).
Proof.
  induction column_names as [|n names IH]; intros insert_sql.
  - cbn. by rewrite app_nil_r.
  - cbn [foldl]. rewrite IH, fmap_cons. cbn [mjoin list_join].
    by rewrite <- !app_assoc.
Qed.

Lemma concat_sep_pairs {A} (f : A → string) (l : list A) :
  String.concat "" (mjoin ((λ n, [column_sep; f n]) <$> l))
  = String.concat "" ((λ y, column_sep +:+ y) <$> (f <$> l)).
Proof.
  induction l as [|x l IH]; [done|].
  rewrite !fmap_cons, concat_empty_cons, <- IH.
  change (mjoin ([column_sep; f x] :: ?t)) with ([column_sep; f x] ++ mjoin t).
  rewrite concat_empty_app. cbn [String.concat].
  by rewrite !append_assoc.
Qed.

(** X7. The INSERT header lists the quoted column names separated by a
    comma and a line break, with no separator before the first or after
    the last; without columns the list is empty. *)
Theorem build_insert_into_sql_text (table_name : string)
    (column_names : list string) :
  _build_insert_into_sql W table_name column_names
  = "insert into " +:+ quote_ident W table_name +:+ " (" +:+ NL +:+ "  "
    +:+ String.concat column_sep (quote_ident W <$> column_names)
    +:+ NL +:+ ") values" +:+ NL.
Proof.
  unfold _build_insert_into_sql.
  destruct column_names as [|n names].
  - cbn [foldl fmap list_fmap String.concat app]. cbn [String.concat].
    by rewrite ?append_nil_r, ?append_assoc.
  - cbn [foldl].
    match goal with
    | |- context [foldl ?f (?a, false) names] =>
        pose proof (insert_columns_loop names a) as Hloop;
        destruct (foldl f (a, false) names) as [l b]
    end.
    cbn [fst] in Hloop. subst l.
    rewrite fmap_cons, (concat_sep_cons column_sep).
    rewrite !concat_empty_app, concat_sep_pairs.
    cbn [String.concat]. by rewrite ?append_nil_r, ?append_assoc.
Qed.

(** The loop of [_build_create_temp_table_sql] once [first] is cleared. *)
Lemma create_columns_loop (columns : list (string * pyval)) : ∀ create_sql,
  (foldl (λ '(create_sql, first) '(column_name, column_type),
            let create_sql :=
              if first : bool then create_sql
              else create_sql ++ [PyStr ("," +:+ NL +:+ "  ")] in
            (create_sql ++ [PyStr (quote_ident W column_name); PyStr " ";
                            column_type], false))
     (create_sql, false) columns).1
  = create_sql
    ++ mjoin ((λ c, [PyStr column_sep; PyStr (quote_ident W c.1); PyStr " ";
                     c.2]) <$> columns).
Proof.
  induction columns as [|[n t] columns IH]; intros create_sql.
  - cbn. by rewrite app_nil_r.
  - cbn [foldl]. rewrite IH, fmap_cons.
    change (mjoin (?h :: ?r)) with (h ++ mjoin r).
    by rewrite <- !app_assoc.
Qed.

Lemma join_columns (column_names : list string) : ∀ column_types,
  join (mjoin ((λ c, [PyStr column_sep; PyStr (quote_ident W c.1); PyStr " ";
                      c.2]) <$> zip column_names column_types))
  = match strings_of (take (length column_names) column_types) with
    | Some types =>
        inr (String.concat ""
               ((λ y, column_sep +:+ y)
                  <$> zip_with (column_definition W) column_names types))
    | None => inl TypeError
    end.
Proof.
  induction column_names as [|n names IH]; intros [|t types]; try done.
  cbn [zip zip_with fmap list_fmap length take strings_of].
  change (mjoin (?h :: ?r)) with (h ++ mjoin r).
  cbn [app join fst snd].
  change (zip_with pair names types) with (zip names types).
  change (list_fmap _ _ ?f ?l) with (f <$> l).
  rewrite IH. destruct t; try done.
  destruct (strings_of (take (length names) types)) as [tys|]; [|done].
  cbn [fmap option_fmap option_map zip_with].
  change (list_fmap _ _ ?f ?l) with (f <$> l).
  rewrite fmap_cons, concat_empty_cons. unfold column_definition.
  by rewrite ?append_assoc.
Qed.

(** X8. CREATE TEMPORARY TABLE pairs the names with the types as far
    as both lists reach and lists [<name> <type>] entries separated by a
    comma and a line break; a type in that range that is not a string
    makes the builder raise TypeError, and it raises nothing else. *)
Theorem build_create_temp_table_sql_text (table_name : string)
    (column_names : list string) (column_types : list pyval) :
  _build_create_temp_table_sql W table_name column_names column_types
  = match strings_of (take (length column_names) column_types) with
    | Some types =>
        inr ("create temporary table " +:+ quote_ident W table_name
             +:+ " (" +:+ NL +:+ "  "
             +:+ String.concat column_sep
                   (zip_with (column_definition W) column_names types)
             +:+ NL +:+ ")")
    | None => inl TypeError
    end.
Proof.
  unfold _build_create_temp_table_sql.
  destruct column_names as [|n names], column_types as [|t types];
    try (cbn; by rewrite ?append_nil_r, ?append_assoc).
  cbn [zip zip_with foldl].
  change (zip_with pair names types) with (zip names types).
  match goal with
  | |- context [foldl ?f (?a, false) (zip names types)] =>
      pose proof (create_columns_loop (zip names types) a) as Hloop;
      destruct (foldl f (a, false) (zip names types)) as [l b]
  end.
  cbn [fst] in Hloop. subst l.
  rewrite !join_app, join_columns.
  cbn [length take strings_of]. destruct t; try done.
  destruct (strings_of (take (length names) types)) as [tys|]; [|done].
  cbn [app join fmap option_fmap option_map zip_with].
  rewrite (concat_sep_cons column_sep). unfold column_definition.
  by rewrite ?append_nil_r, ?append_assoc.
Qed.
End Builders.

(** ** Place holders of a prepared batch *)

Lemma batch_insert_text_turns insert_sql column_types batch_size :
  batch_insert_text insert_sql column_types batch_size
  = String.concat ""
      (foldl (row_turn column_types) ([insert_sql], true, 1)
         (seq 0 batch_size)).1.1.
Proof.
  unfold batch_insert_text.
  change (foldl _ ([insert_sql], true, 1) (seq 0 batch_size))
    with (foldl (row_turn column_types) ([insert_sql], true, 1)
            (seq 0 batch_size)).
  by destruct (foldl _ _ _) as [[a b] c].
Qed.

Lemma values_loop (column_types : list string) : ∀ (sql : list string) index,
  foldl value_turn (sql, false, index) column_types
  = (sql ++ mjoin (imap (λ j ty, [", "; placeholder (index + j) ty])
                     column_types),
     false, index + length column_types).
Proof.
  induction column_types as [|t types IH]; intros sql index.
  - cbn. by rewrite app_nil_r, Nat.add_0_r.
  - cbn [foldl].
    change (value_turn (?a, false, ?i) ?c)
      with ((a ++ [", "]) ++ ["$" +:+ pretty i +:+ "::" +:+ c], false, S i).
    rewrite IH, imap_cons.
    change (mjoin (?h :: ?r)) with (h ++ mjoin r).
    rewrite (imap_ext (λ j ty, [", "; placeholder (S index + j) ty])
               ((λ j ty, [", "; placeholder (index + j) ty]) ∘ S))
      by (intros j ty _; cbn; by rewrite Nat.add_succ_r).
    rewrite Nat.add_0_r, <- !app_assoc. cbn [length].
    by rewrite Nat.add_succ_r.
Qed.

Lemma concat_sep_imap {A} (sep : string) (l : list A) : ∀ f : nat → A → string,
  String.concat "" (mjoin (imap (λ j x, [sep; f j x]) l))
  = String.concat "" ((λ y, sep +:+ y) <$> imap f l).
Proof.
  induction l as [|x l IH]; intros f; [done|].
  rewrite !imap_cons, fmap_cons, concat_empty_cons.
  change (mjoin (?h :: ?r)) with (h ++ mjoin r).
  rewrite concat_empty_app. cbn [String.concat].
  rewrite <- (IH (f ∘ S)). reflexivity.
Qed.

(** The value list of one row: the inner loop of [_plan_batch] started
    with [value_first] set. *)
Lemma values_text (column_types : list string) (sql : list string) index :
  ∃ sql' value_first,
    foldl value_turn (sql, true, index) column_types
    = (sql', value_first, index + length column_types)
    ∧ String.concat "" sql'
      = String.concat "" sql
        +:+ String.concat ", " (imap (λ j, placeholder (index + j)) column_types).
Proof.
  destruct column_types as [|t types].
  - exists sql, true. cbn. by rewrite Nat.add_0_r, append_nil_r.
  - cbn [foldl].
    change (value_turn (?a, true, ?i) ?c)
      with (a ++ ["$" +:+ pretty i +:+ "::" +:+ c], false, S i).
    rewrite values_loop. eexists _, _. split.
    + cbn [length]. by rewrite Nat.add_succ_r.
    + rewrite imap_cons, (concat_sep_cons ", "), !concat_empty_app.
      rewrite (concat_sep_imap ", " types (λ j, placeholder (S index + j))).
      cbn [String.concat]. rewrite Nat.add_0_r.
      rewrite (imap_ext (λ j, placeholder (S index + j))
                 ((λ j, placeholder (index + j)) ∘ S))
        by (intros j ty _; cbn; by rewrite Nat.add_succ_r).
      unfold placeholder. by rewrite ?append_assoc.
Qed.

Section Placeholders.
Context (column_types : list string).

(** One turn of [for i in range(batch_size)], at row [row]. *)
Lemma tuple_step (sql : list string) (first : bool) (row i : nat) :
  ∃ sql',
    row_turn column_types (sql, first, row * length column_types + 1) i
    = (sql', false, S row * length column_types + 1)
    ∧ String.concat "" sql'
      = String.concat "" sql +:+ (if first then "" else ", ")
        +:+ value_list column_types row.
Proof.
  destruct (values_text column_types
              ((if first then sql else sql ++ [", "]) ++ ["("])
              (row * length column_types + 1)) as (sql1 & vf & Hrun & Htext).
  unfold row_turn. rewrite Hrun.
  eexists. split.
  - f_equal. lia.
  - rewrite concat_empty_app, Htext, concat_empty_app. unfold value_list.
    rewrite (imap_ext (λ j, placeholder (row * length column_types + 1 + j))
               (λ j, placeholder (row * length column_types + j + 1)))
      by (intros j ty _; cbn; f_equal; lia).
    destruct first; rewrite ?concat_empty_app; cbn [String.concat];
      by rewrite ?append_nil_r, ?append_assoc.
Qed.

Lemma tuples_loop (l : list nat) : ∀ (sql : list string) (row : nat),
  ∃ sql' first index,
    foldl (row_turn column_types) (sql, false, row * length column_types + 1) l
    = (sql', first, index)
    ∧ String.concat "" sql'
      = String.concat "" sql
        +:+ String.concat ""
              ((λ y, ", " +:+ y)
                 <$> (value_list column_types <$> seq row (length l))).
Proof.
  induction l as [|i l IH]; intros sql row.
  - eexists _, _, _. split; [done|]. cbn. by rewrite append_nil_r.
  - cbn [foldl].
    destruct (tuple_step sql false row i) as (sql1 & -> & Htext).
    destruct (IH sql1 (S row)) as (sql2 & first & index & -> & Htext2).
    eexists _, _, _. split; [done|].
    rewrite Htext2, Htext. cbn [length seq]. rewrite !fmap_cons.
    by rewrite concat_empty_cons, ?append_assoc.
Qed.

(** X9. The text of a prepared batch INSERT: after the INSERT header,
    one value list per row, separated by commas; the place holders are
    numbered from 1 and run on from row to row, so that row [i] and
    column [j], both counted from 0, get [$(i * columns + j + 1)], and
    the type each one is cast to is the argument type at its number. *)
Theorem batch_insert_text_placeholders (insert_sql : string) (batch_size : nat) :
  batch_insert_text insert_sql column_types batch_size
  = insert_sql
    +:+ String.concat ", " (value_list column_types <$> seq 0 batch_size)
  ∧ ∀ i j column_type,
      i < batch_size → column_types !! j = Some column_type →
      plan_argtypes (batch_plan insert_sql column_types batch_size)
        !! (i * length column_types + j) = Some column_type.
Proof.
  split.
  - rewrite batch_insert_text_turns. destruct batch_size as [|n].
    + cbn. by rewrite append_nil_r.
    + cbn [seq foldl].
      destruct (tuple_step [insert_sql] true 0 0) as (sql1 & Hstep & Htext).
      change (0 * length column_types + 1) with 1 in Hstep.
      rewrite Hstep.
      destruct (tuples_loop (seq 1 n) sql1 1)
        as (sql2 & first & index & Hloop & Htext2).
      rewrite Hloop. cbn [fst]. rewrite Htext2, Htext, length_seq, fmap_cons.
      rewrite (concat_sep_cons ", "). cbn [String.concat].
      by rewrite ?append_nil_r, ?append_assoc.
  - intros i j ty Hi Hj. cbn [batch_plan plan_argtypes].
    revert i Hi. induction batch_size as [|n IH]; intros i Hi; [lia|].
    cbn [replicate]. change (mjoin (?h :: ?r)) with (h ++ mjoin r).
    destruct i as [|i].
    + cbn. apply lookup_app_l_Some. done.
    + rewrite lookup_app_r by (cbn; lia).
      replace (S i * length column_types + j - length column_types)
        with (i * length column_types + j) by (cbn; lia).
      apply IH. lia.
Qed.
End Placeholders.

Lemma batch_insert_text_placeholders_witness :
  batch_insert_text "insert into t values " ["int4"; "text"] 2
  = "insert into t values ($1::int4, $2::text), ($3::int4, $4::text)"
  ∧ plan_argtypes (batch_plan "insert into t values " ["int4"; "text"] 2)
      !! (1 * length ["int4"; "text"] + 1) = Some "text".
Proof.
  destruct (batch_insert_text_placeholders ["int4"; "text"]
              "insert into t values " 2) as [Htext Hargs].
  split.
  - rewrite Htext. vm_compute. reflexivity.
  - apply (Hargs 1 1 "text"); [lia|reflexivity].
Defined.

(** ** Edges of the batch loader *)

Section GeneratorFailure.
Context {db env : Type} (W : World db env) (Hok : accepts_batches W).
Context (insert_sql : string) (types : list string) (B : nat) (HB : 0 < B).

Lemma full_batch_plan_returns full_batch_plan (s : state db env) :
  (full_batch_plan = None
   ∨ full_batch_plan = Some (batch_plan insert_sql types B)) →
  ∃ s1 new,
    match full_batch_plan with
    | Some p => ret p
    | None => _plan_batch W insert_sql (PyStr <$> types) B
    end s = (inr (batch_plan insert_sql types B), s1)
    ∧ st_trace s1 = st_trace s ++ new ∧ plan_executions new = [].
Proof.
  intros [->| ->].
  - rewrite plan_batch_str by done.
    destruct (plpy_prepare_returns W Hok
                (batch_insert_text insert_sql types B)
                (mjoin (replicate B types)) s) as (p & s1 & Hp).
    pose proof Hp as Hp'. apply plpy_prepare_inr in Hp' as [-> Ht].
    exists s1, [EPrepare (batch_insert_text insert_sql types B)
                  (mjoin (replicate B types))].
    by rewrite Hp.
  - exists s, []. by rewrite app_nil_r.
Qed.

Lemma batch_insert_loop_raises rows e : ∀ batch full_batch_plan (s : state db env),
  length batch < B →
  (full_batch_plan = None
   ∨ full_batch_plan = Some (batch_plan insert_sql types B)) →
  ∃ s' new full rest,
    _batch_insert_loop W insert_sql (Z.of_nat B) (PyStr <$> types)
      (iter_then_raise rows e) full_batch_plan batch s = (inl e, s')
    ∧ st_trace s' = st_trace s ++ new
    ∧ plan_executions new
      = (λ b, (batch_plan insert_sql types B, mjoin b)) <$> full
    ∧ batch ++ rows = mjoin full ++ rest
    ∧ Forall (λ b, length b = B) full
    ∧ length rest < B.
Proof.
  induction rows as [|row rows IH]; intros batch fp s Hlen Hfp.
  - exists s, [], [], batch. cbn. rewrite !app_nil_r. split_and!; done.
  - cbn [iter_then_raise _batch_insert_loop]. case_bool_decide as Hfull.
    + assert (length (batch ++ [row]) = B) as HlenB.
      { rewrite length_app in *. simpl in *. lia. }
      rewrite HlenB.
      destruct (full_batch_plan_returns fp s Hfp) as (s1 & new1 & Hp & Ht1 & Hx1).
      unfold bind at 1. rewrite Hp.
      destruct (plpy_execute_plan_returns W Hok (batch_plan insert_sql types B)
                  (mjoin (batch ++ [row])) s1) as [s2 Hexec].
      unfold bind at 1. rewrite Hexec.
      apply plpy_execute_plan_inr in Hexec.
      destruct (IH [] (Some (batch_plan insert_sql types B)) s2)
        as (s' & new & full & rest & Hrun & Ht & Hx & Hrows & Hall & Hrest);
        [simpl; lia|by right|].
      exists s', (new1 ++ [EExecutePlan (batch_plan insert_sql types B)
                             (mjoin (batch ++ [row]))] ++ new),
        ((batch ++ [row]) :: full), rest.
      split_and!.
      * done.
      * rewrite Ht, Hexec, Ht1. by rewrite <- !app_assoc.
      * rewrite !plan_executions_app, Hx1, Hx. done.
      * simpl in *. rewrite <- !app_assoc. simpl. by rewrite Hrows.
      * by constructor.
      * done.
    + destruct (IH (batch ++ [row]) fp s)
        as (s' & new & full & rest & Hrun & Ht & Hx & Hrows & Hall & Hrest);
        [rewrite length_app in *; simpl in *; lia|done|].
      exists s', new, full, rest. split_and!; try done.
      by rewrite <- app_assoc in Hrows.
Qed.
End GeneratorFailure.

(** X10. When the row generator raises after it has yielded some rows,
    [_batch_insert] lets the exception through unchanged; the batches
    that were complete by then have been executed, and the rows still
    buffered, fewer than a batch, are never inserted. *)
Theorem batch_insert_generator_failure {db env} (W : World db env)
    (insert_sql : string) (batch_size : Z) (types : list string)
    (rows : list (list pyval)) (e : exn) (s : state db env) :
  (0 < batch_size)%Z → accepts_batches W →
  ∃ s' new full rest,
    _batch_insert W insert_sql batch_size (PyStr <$> types)
      (iter_then_raise rows e) s = (inl e, s')
    ∧ st_trace s' = st_trace s ++ new
    ∧ plan_executions new
      = (λ b, (batch_plan insert_sql types (Z.to_nat batch_size), mjoin b))
          <$> full
    ∧ rows = mjoin full ++ rest
    ∧ Forall (λ b, Z.of_nat (length b) = batch_size) full
    ∧ (Z.of_nat (length rest) < batch_size)%Z.
Proof.
  intros HB Hok. unfold _batch_insert.
  set (B := Z.to_nat batch_size).
  assert (batch_size = Z.of_nat B) as HBz by lia.
  destruct (batch_insert_loop_raises W Hok insert_sql types B ltac:(lia)
              rows e [] None s)
    as (s' & new & full & rest & Hrun & Ht & Hx & Hrows & Hall & Hrest);
    [simpl; lia|by left|].
  exists s', new, full, rest. rewrite HBz. unfold bind. rewrite Hrun.
  split_and!; try done.
  - eapply Forall_impl; [exact Hall|]. intros b Hb. simpl in Hb. lia.
  - lia.
Qed.

Lemma batch_insert_generator_failure_witness :
  ∃ s' (full : list (list (list pyval))),
    _batch_insert (Demo.world Demo.nothing_fails None) "insert into t values "
      2 (PyStr <$> ["int4"])
      (iter_then_raise [[PyInt 1]; [PyInt 2]; [PyInt 3]]
         (PrestoException "Query failed")) Demo.start
    = (inl (PrestoException "Query failed"), s')
    ∧ length (plan_executions (st_trace s')) = length full
    ∧ Forall (λ b, Z.of_nat (length b) = 2%Z) full.
Proof.
  destruct (batch_insert_generator_failure
              (Demo.world Demo.nothing_fails None) "insert into t values "
              2 ["int4"] [[PyInt 1]; [PyInt 2]; [PyInt 3]]
              (PrestoException "Query failed") Demo.start)
    as (s' & new & full & rest & Hrun & Ht & Hx & _ & Hall & _).
  - lia.
  - split; intros; simpl; eauto.
  - exists s', full. split_and!; [done| |done].
    rewrite Ht. cbn [Demo.start st_trace app]. rewrite Hx. by rewrite length_fmap.
Defined.

Lemma prepared_app t1 t2 : prepared (t1 ++ t2) = prepared t1 ++ prepared t2.
Proof. apply omap_app. Qed.

Section Prepares.
Context {db env : Type} (W : World db env).

Lemma plpy_prepare_trace sql types (s : state db env) :
  st_trace (plpy_prepare W sql types s).2
  = st_trace s ++ [EPrepare sql types].
Proof.
  unfold plpy_prepare, bind, log, modify. simpl.
  by destruct (spi_prepare W sql types (st_db s)).
Qed.

Lemma plpy_execute_plan_trace p args (s : state db env) :
  st_trace (plpy_execute_plan W p args s).2
  = st_trace s ++ [EExecutePlan p args].
Proof.
  unfold plpy_execute_plan, bind, log, modify. simpl.
  by destruct (spi_execute_plan W p args (st_db s)).
Qed.

Lemma plan_batch_prepares insert_sql column_types n (s : state db env) :
  ∃ new, st_trace (_plan_batch W insert_sql column_types n s).2
         = st_trace s ++ new
         ∧ length (prepared new) ≤ 1.
Proof.
  unfold _plan_batch. destruct (strings_of _) as [argtypes|].
  - rewrite plpy_prepare_trace. eexists. split; [done|]. cbn. lia.
  - exists []. cbn. rewrite app_nil_r. split; [done|lia].
Qed.

Lemma batch_insert_loop_prepares insert_sql batch_size column_types rows :
  ∀ full_batch_plan batch (s : state db env),
  ∃ new,
    st_trace (_batch_insert_loop W insert_sql batch_size column_types rows
                full_batch_plan batch s).2 = st_trace s ++ new
    ∧ length (prepared new) ≤ match full_batch_plan with Some _ => 0 | None => 1 end.
Proof.
  induction rows as [|e|row rows IH]; intros fp batch s.
  - exists []. cbn. rewrite app_nil_r. split; [done|]. destruct fp; lia.
  - exists []. cbn. rewrite app_nil_r. split; [done|]. destruct fp; lia.
  - cbn [_batch_insert_loop]. case_bool_decide as Hfull; [|apply IH].
    assert (∃ new1,
      st_trace (match fp with
                | Some p => ret p
                | None => _plan_batch W insert_sql column_types
                            (length (batch ++ [row]))
                end s).2 = st_trace s ++ new1
      ∧ length (prepared new1) ≤ match fp with Some _ => 0 | None => 1 end) as (new1 & Ht1 & Hn1).
    { destruct fp as [p|]; [|apply plan_batch_prepares].
      exists []. cbn. rewrite app_nil_r. split; [done|lia]. }
    unfold bind at 1.
    destruct (match fp with Some p => ret p | None => _ end s)
      as [[e|p] s1]; cbn [snd] in Ht1.
    { by exists new1. }
    unfold bind at 1.
    pose proof (plpy_execute_plan_trace p (mjoin (batch ++ [row])) s1) as Ht2.
    destruct (plpy_execute_plan W p (mjoin (batch ++ [row])) s1)
      as [[e|u] s2]; cbn [snd] in Ht2.
    { exists (new1 ++ [EExecutePlan p (mjoin (batch ++ [row]))]).
      cbn [snd]. rewrite Ht2, Ht1, <- app_assoc. split; [done|].
      rewrite prepared_app. cbn. rewrite length_app. cbn. lia. }
    destruct (IH (Some p) [] s2) as (new & Ht & Hn).
    exists (new1 ++ [EExecutePlan p (mjoin (batch ++ [row]))] ++ new).
    rewrite Ht, Ht2, Ht1, <- !app_assoc. split; [done|].
    rewrite !prepared_app, !length_app. cbn in *. lia.
Qed.

(** X11. However many rows there are, and whatever fails on the way,
    one call of [_batch_insert] prepares at most two statements: the
    one for full batches, prepared when the first batch fills up and
    used again for every later one, and the one for the rows left over
    at the end. *)
Theorem batch_insert_prepares_at_most_twice
    (insert_sql : string) (batch_size : Z) (column_types : list pyval)
    (rows : rows_iter) (s : state db env) :
  ∃ new,
    st_trace (_batch_insert W insert_sql batch_size column_types rows s).2
    = st_trace s ++ new
    ∧ length (prepared new) ≤ 2.
Proof.
  unfold _batch_insert.
  destruct (batch_insert_loop_prepares insert_sql batch_size column_types rows
              None [] s) as (new1 & Ht1 & Hn1).
  unfold bind at 1.
  destruct (_batch_insert_loop W insert_sql batch_size column_types rows
              None [] s) as [[e|batch] s1]; cbn [snd] in Ht1.
  { exists new1. split; [done|lia]. }
  destruct batch as [|r batch].
  { exists new1. split; [done|lia]. }
  destruct (plan_batch_prepares insert_sql column_types (length (r :: batch)) s1)
    as (new2 & Ht2 & Hn2).
  unfold bind.
  destruct (_plan_batch W insert_sql column_types (length (r :: batch)) s1)
    as [[e|p] s2]; cbn [snd] in Ht2.
  { exists (new1 ++ new2). cbn [snd]. rewrite Ht2, Ht1, <- app_assoc.
    split; [done|]. rewrite prepared_app, length_app. lia. }
  exists (new1 ++ new2 ++ [EExecutePlan p (mjoin (r :: batch))]).
  rewrite plpy_execute_plan_trace, Ht2, Ht1, <- !app_assoc. split; [done|].
  rewrite !prepared_app, !length_app. cbn. lia.
Qed.
End Prepares.

Section RowAtATime.
Context {db env : Type} (W : World db env) (Hok : accepts_batches W).
Context (insert_sql : string) (types : list string).
Context (batch_size : Z) (HB : (batch_size ≤ 1)%Z).

Lemma batch_insert_loop_row_at_a_time rows :
  ∀ full_batch_plan (s : state db env),
  (full_batch_plan = None
   ∨ full_batch_plan = Some (batch_plan insert_sql types 1)) →
  ∃ s' new,
    _batch_insert_loop W insert_sql batch_size (PyStr <$> types)
      (iter_of_list rows) full_batch_plan [] s = (inr [], s')
    ∧ st_trace s' = st_trace s ++ new
    ∧ plan_executions new
      = (λ row, (batch_plan insert_sql types 1, row)) <$> rows.
Proof.
  induction rows as [|row rows IH]; intros fp s Hfp.
  - exists s, []. cbn. by rewrite app_nil_r.
  - cbn [iter_of_list _batch_insert_loop app length].
    rewrite bool_decide_true by lia.
    destruct (full_batch_plan_returns W Hok insert_sql types 1 ltac:(lia)
                fp s Hfp) as (s1 & new1 & Hp & Ht1 & Hx1).
    unfold bind at 1. rewrite Hp.
    destruct (plpy_execute_plan_returns W Hok (batch_plan insert_sql types 1)
                (mjoin [row]) s1) as [s2 Hexec].
    unfold bind at 1. rewrite Hexec.
    apply plpy_execute_plan_inr in Hexec.
    destruct (IH (Some (batch_plan insert_sql types 1)) s2)
      as (s' & new & Hrun & Ht & Hx); [by right|].
    exists s', (new1 ++ [EExecutePlan (batch_plan insert_sql types 1)
                           (mjoin [row])] ++ new).
    split_and!; [done| |].
    + rewrite Ht, Hexec, Ht1. by rewrite <- !app_assoc.
    + rewrite !plan_executions_app, Hx1, Hx. cbn. by rewrite app_nil_r.
Qed.
End RowAtATime.

(** X12. With a batch size of one, zero or below, every row fills a
    batch: [_batch_insert] executes one single-row statement per row,
    in the order of the rows, all with the same prepared statement, and
    no row is left over. *)
Theorem batch_insert_row_at_a_time {db env} (W : World db env)
    (insert_sql : string) (batch_size : Z) (types : list string)
    (rows : list (list pyval)) (s : state db env) :
  (batch_size ≤ 1)%Z → accepts_batches W →
  ∃ s' new,
    _batch_insert W insert_sql batch_size (PyStr <$> types)
      (iter_of_list rows) s = (inr (), s')
    ∧ st_trace s' = st_trace s ++ new
    ∧ plan_executions new
      = (λ row, (batch_plan insert_sql types 1, row)) <$> rows.
Proof.
  intros HB Hok. unfold _batch_insert.
  destruct (batch_insert_loop_row_at_a_time W Hok insert_sql types batch_size
              HB rows None s) as (s' & new & Hrun & Ht & Hx); [by left|].
  exists s', new. unfold bind. by rewrite Hrun.
Qed.

Lemma batch_insert_row_at_a_time_witness :
  ∃ s',
    _batch_insert (Demo.world Demo.nothing_fails None) "insert into t values "
      0 (PyStr <$> ["int4"]) (iter_of_list [[PyInt 1]; [PyInt 2]]) Demo.start
    = (inr (), s')
    ∧ plan_executions (st_trace s')
      = [(batch_plan "insert into t values " ["int4"] 1, [PyInt 1]);
         (batch_plan "insert into t values " ["int4"] 1, [PyInt 2])].
Proof.
  destruct (batch_insert_row_at_a_time
              (Demo.world Demo.nothing_fails None) "insert into t values "
              0 ["int4"] [[PyInt 1]; [PyInt 2]] Demo.start)
    as (s' & new & Hrun & Ht & Hx).
  - lia.
  - split; intros; simpl; eauto.
  - exists s'. split; [done|].
    rewrite Ht. cbn [Demo.start st_trace app]. by rewrite Hx.
Defined.

(** ** Type names *)

(** X13. [_pg_convert_infoschema_type] never returns one of the four
    type names that CREATE TABLE refuses, whatever value it is given,
    and converting twice is converting once. *)
Theorem pg_convert_infoschema_type_usable (infoschema_type : pyval) :
  (∀ name, name ∈ infoschema_only_types →
           _pg_convert_infoschema_type infoschema_type ≠ PyStr name)
  ∧ _pg_convert_infoschema_type (_pg_convert_infoschema_type infoschema_type)
    = _pg_convert_infoschema_type infoschema_type.
Proof.
  unfold _pg_convert_infoschema_type, infoschema_only_types.
  destruct infoschema_type as [| | |s|]; cbn [py_eq];
    try (split; [intros name _; discriminate|reflexivity]).
  repeat case_bool_decide; subst; cbn [py_eq];
    rewrite ?bool_decide_false by done; (split; [|try reflexivity]).
  all: try (intros name Hin; repeat (apply elem_of_cons in Hin as [->|Hin]);
            [by intros [= ?]..|by apply elem_of_nil in Hin]).
Qed.

Section TypeNames.
Context {db env : Type} (W : World db env).
Implicit Types s : state db env.

Lemma plpy_execute_oids sql s :
  OidToTypeNameMapping (plpy_execute W sql s).2 = OidToTypeNameMapping s.
Proof.
  unfold plpy_execute, bind, log, modify. cbn.
  by destruct (spi_execute W sql (st_db s)) as [e|[r d]].
Qed.

(** X14. When the type name of every oid asked for is already known,
    [_load_oid_to_type_name_mapping] returns the table as it is and
    runs no statement. *)
Theorem load_oid_to_type_name_mapping_known (oids : list Z) s :
  Forall (λ oid, is_Some (OidToTypeNameMapping s !! oid)) oids →
  _load_oid_to_type_name_mapping W oids s = (inr (OidToTypeNameMapping s), s).
Proof.
  intros Hknown. unfold _load_oid_to_type_name_mapping, bind, get_state. cbn.
  assert (filter (λ oid, OidToTypeNameMapping s !! oid = None) oids = [])
    as ->; [|done].
  induction Hknown as [|oid oids [v Hv] _ IH]; [done|].
  rewrite filter_cons, decide_False by (by rewrite Hv). exact IH.
Qed.

Lemma load_row_oids_kept row s :
  oids_kept s
    ((typname <- row_item row "typname" ;;
      let type_name := _pg_convert_infoschema_type typname in
      oid_value <- row_item row "oid" ;;
      oid <- lift (py_int oid_value) ;;
      modify (λ s, set_OidToTypeNameMapping
                     (<[oid := type_name]> (OidToTypeNameMapping s)) s)) s).2.
Proof.
  unfold bind, row_item, lift, modify, ret, raise.
  destruct (row !! "typname") as [t|]; [|by intros x Hx].
  destruct (row !! "oid") as [o|]; [|by intros x Hx].
  destruct (py_int o) as [e|oid]; [by intros x Hx|].
  intros x Hx. cbn. destruct (decide (oid = x)) as [->|Hne].
  - rewrite lookup_insert_eq. by eexists.
  - by rewrite lookup_insert_ne.
Qed.

(** X15. [_load_oid_to_type_name_mapping] never forgets a type name:
    an oid that has an entry before the call has one after it, also
    when the call fails on the way. *)
Theorem load_oid_to_type_name_mapping_keeps_entries (oids : list Z) s :
  oids_kept s (_load_oid_to_type_name_mapping W oids s).2.
Proof.
  unfold _load_oid_to_type_name_mapping. unfold bind at 1, get_state at 1.
  match goal with
  | |- oids_kept s (bind ?m ?k s).2 =>
      assert (oids_kept s (m s).2) as Hinner;
        [|unfold bind at 1; by destruct (m s) as [[e|u] s1]]
  end.
  destruct (filter _ oids) as [|oid rest].
  { by intros x Hx. }
  unfold bind at 1.
  pose proof (plpy_execute_oids
    ("select oid, typname from pg_catalog.pg_type where oid in ("
     +:+ String.concat ", " (pretty <$> oid :: rest) +:+ ")") s) as Hsame.
  destruct (plpy_execute W _ s) as [[e|rows] s1]; cbn [snd] in Hsame.
  { intros x. cbn [snd]. by rewrite Hsame. }
  assert (oids_kept s s1) as Hstart by (intros x; by rewrite Hsame).
  clear Hsame. revert Hstart. generalize s1. clear s1.
  induction (res_rows rows) as [|row l IH]; intros s1 Hstart.
  { done. }
  cbn [for_each]. unfold bind at 1.
  pose proof (load_row_oids_kept row s1) as Hrow.
  match goal with
  | |- context [match ?m s1 with _ => _ end] =>
      change (oids_kept s1 (m s1).2) in Hrow; destruct (m s1) as [[e|[]] s2]
  end; cbn [snd] in Hrow.
  - intros x Hx. apply Hrow, Hstart, Hx.
  - apply IH. intros x Hx. apply Hrow, Hstart, Hx.
Qed.
End TypeNames.

Lemma load_oid_to_type_name_mapping_known_witness :
  let s := set_OidToTypeNameMapping {[23%Z := PyStr "int4"]} Demo.start in
  Forall (λ oid, is_Some (OidToTypeNameMapping s !! oid)) [23%Z; 23%Z]
  ∧ _load_oid_to_type_name_mapping (Demo.world Demo.nothing_fails None)
      [23%Z; 23%Z] s
    = (inr (OidToTypeNameMapping s), s).
Proof.
  intros s.
  assert (Forall (λ oid, is_Some (OidToTypeNameMapping s !! oid)) [23%Z; 23%Z])
    as Hknown.
  { repeat constructor; by eexists. }
  split; [exact Hknown|].
  exact (load_oid_to_type_name_mapping_known
           (Demo.world Demo.nothing_fails None) [23%Z; 23%Z] s Hknown).
Defined.

Lemma pg_convert_infoschema_type_usable_witness :
  "yes_or_no" ∈ infoschema_only_types
  ∧ _pg_convert_infoschema_type (PyStr "yes_or_no") ≠ PyStr "yes_or_no".
Proof.
  assert ("yes_or_no" ∈ infoschema_only_types) as Hin.
  { apply (bool_decide_unpack _). vm_compute. exact I. }
  split; [exact Hin|].
  exact (proj1 (pg_convert_infoschema_type_usable (PyStr "yes_or_no"))
           "yes_or_no" Hin).
Defined.

(** ** What a computation emits *)

Section Emits.
Context {db env : Type} (P : event → Prop).
Implicit Types s : state db env.

Lemma emits_same s s' : st_trace s' = st_trace s → emits P s s'.
Proof. intros H. exists []. by rewrite app_nil_r. Qed.

Lemma emits_refl s : emits P s s.
Proof. by apply emits_same. Qed.

Lemma emits_trans s1 s2 s3 : emits P s1 s2 → emits P s2 s3 → emits P s1 s3.
Proof.
  intros (n1 & H1 & F1) (n2 & H2 & F2). exists (n1 ++ n2).
  rewrite H2, H1, app_assoc. split; [done|]. by apply Forall_app.
Qed.

Lemma emits_ret {A} (a : A) : keeps (emits P) (ret (db:=db) (env:=env) a).
Proof. intros s. apply emits_refl. Qed.

Lemma emits_raise {A} e : keeps (emits P) (raise (db:=db) (env:=env) (A:=A) e).
Proof. intros s. apply emits_refl. Qed.

Lemma emits_lift {A} (r : exn + A) : keeps (emits P) (lift (db:=db) (env:=env) r).
Proof. intros s. apply emits_refl. Qed.

Lemma emits_get_state : keeps (emits P) (get_state (db:=db) (env:=env)).
Proof. intros s. apply emits_refl. Qed.

Lemma emits_bind {A B} (m : M db env A) (k : A → M db env B) :
  keeps (emits P) m → (∀ a, keeps (emits P) (k a)) → keeps (emits P) (bind m k).
Proof.
  intros Hm Hk s. unfold bind. specialize (Hm s).
  destruct (m s) as [[e|a] s1]; simpl in *; [done|].
  eapply emits_trans; [exact Hm|apply Hk].
Qed.

Lemma emits_try_except {A} (m : M db env A) c (h : exn → M db env A) :
  keeps (emits P) m → (∀ e, keeps (emits P) (h e))
  → keeps (emits P) (try_except m c h).
Proof.
  intros Hm Hh s. unfold try_except. specialize (Hm s).
  destruct (m s) as [[e|a] s1]; simpl in *; [|done].
  destruct (c e); [|done]. eapply emits_trans; [exact Hm|apply Hh].
Qed.

Lemma emits_for_each {A B} (xs : list A) (body : B → A → M db env B) acc :
  (∀ b x, keeps (emits P) (body b x)) → keeps (emits P) (for_each xs body acc).
Proof.
  intros Hb. revert acc. induction xs as [|x xs IH]; intros acc; simpl.
  - apply emits_ret.
  - apply emits_bind; [apply Hb|apply IH].
Qed.

Lemma emits_log ev : P ev → keeps (emits P) (log (db:=db) (env:=env) ev).
Proof. intros Hev s. exists [ev]. split; [done|]. by constructor. Qed.
End Emits.

Ltac emits_step :=
  lazymatch goal with
  | |- keeps _ (bind _ _) => apply emits_bind; [|intros ?]
  | |- keeps _ (ret _) => apply emits_ret
  | |- keeps _ (raise _) => apply emits_raise
  | |- keeps _ (lift _) => apply emits_lift
  | |- keeps _ get_state => apply emits_get_state
  | |- keeps _ (try_except _ _ _) => apply emits_try_except; [|intros ?]
  | |- keeps _ (for_each _ _ _) => apply emits_for_each; intros ? ?
  | |- keeps _ (log _) => apply emits_log; exact I
  | |- keeps _ (plpy_warning _) => apply emits_log; exact I
  | |- keeps _ (match ?x with _ => _ end) => destruct x
  end.

Section SessionOnly.
Context {db env : Type} (W : World db env).
Implicit Types s : state db env.

Lemma session_plpy_execute sql : keeps (emits session_event) (plpy_execute W sql).
Proof.
  unfold plpy_execute. apply emits_bind; [apply emits_log; exact I|].
  intros _ s. destruct (spi_execute W sql (st_db s)) as [e|[r d]]; simpl;
    by apply emits_same.
Qed.

Lemma session_plpy_prepare sql types :
  keeps (emits session_event) (plpy_prepare W sql types).
Proof.
  unfold plpy_prepare. apply emits_bind; [apply emits_log; exact I|].
  intros _ s. destruct (spi_prepare W sql types (st_db s)); by apply emits_same.
Qed.

Lemma session_plpy_execute_plan p args :
  keeps (emits session_event) (plpy_execute_plan W p args).
Proof.
  unfold plpy_execute_plan. apply emits_bind; [apply emits_log; exact I|].
  intros _ s. destruct (spi_execute_plan W p args (st_db s)) as [e|d]; simpl;
    by apply emits_same.
Qed.

Lemma session_rename_duplicated_column_names names :
  keeps (emits session_event) (_rename_duplicated_column_names W names).
Proof.
  unfold _rename_duplicated_column_names. repeat emits_step.
  unfold rename_one. destruct b. repeat emits_step.
Qed.

Lemma session_plan_batch insert_sql types n :
  keeps (emits session_event) (_plan_batch W insert_sql types n).
Proof.
  unfold _plan_batch. destruct (strings_of _); [|apply emits_raise].
  apply session_plpy_prepare.
Qed.

Lemma session_batch_insert_loop insert_sql batch_size types rows :
  ∀ full_batch_plan batch,
    keeps (emits session_event)
      (_batch_insert_loop W insert_sql batch_size types rows
         full_batch_plan batch).
Proof.
  induction rows as [| |row rows IH]; intros fp batch; simpl.
  - apply emits_ret.
  - apply emits_raise.
  - case_bool_decide; [|apply IH].
    apply emits_bind; [|intros p].
    + destruct fp; [apply emits_ret|apply session_plan_batch].
    + apply emits_bind; [apply session_plpy_execute_plan|intros _; apply IH].
Qed.

Lemma session_batch_insert insert_sql batch_size types rows :
  keeps (emits session_event) (_batch_insert W insert_sql batch_size types rows).
Proof.
  unfold _batch_insert.
  apply emits_bind; [apply session_batch_insert_loop|intros batch].
  destruct batch; [apply emits_ret|].
  apply emits_bind; [apply session_plan_batch|intros p].
  apply session_plpy_execute_plan.
Qed.

Lemma session_create_and_insert table names types rows :
  keeps (emits session_event) (create_and_insert W table names types rows).
Proof.
  unfold create_and_insert.
  apply emits_bind; [apply session_rename_duplicated_column_names|intros ?].
  apply emits_bind; [apply emits_lift|intros ?].
  apply emits_bind; [apply session_plpy_execute|intros ?].
  apply emits_bind; [apply session_plpy_execute|intros ?].
  apply session_batch_insert.
Qed.

Lemma session_first_value rows :
  keeps (emits session_event) (first_value (db:=db) (env:=env) rows).
Proof. unfold first_value. repeat emits_step. Qed.

Lemma session_get_session_time_zone :
  keeps (emits session_event) (_get_session_time_zone W).
Proof.
  unfold _get_session_time_zone.
  apply emits_bind; [apply session_plpy_execute|intros ?].
  apply session_first_value.
Qed.

Lemma session_get_session_search_path_array :
  keeps (emits session_event) (_get_session_search_path_array W).
Proof.
  unfold _get_session_search_path_array.
  apply emits_bind; [apply session_plpy_execute|intros ?].
  apply session_first_value.
Qed.

Lemma session_choose_schema schema search_path :
  keeps (emits session_event)
    (choose_schema (db:=db) (env:=env) schema search_path).
Proof.
  unfold choose_schema. destruct (negb _); [|apply emits_ret].
  apply emits_bind; [apply emits_lift|intros n].
  case_bool_decide; [apply emits_lift|apply emits_ret].
Qed.
End SessionOnly.

(** ** run_presto_as_temp_table as a whole *)

Section PrestoCall.
Context {db env : Type} (W : World db env).
Implicit Types s : state db env.


Lemma client_query_trace c sql s :
  st_trace (client_query W c sql s).2 = st_trace s ++ [EPrestoQuery c sql].
Proof.
  unfold client_query, bind, log, modify. cbn.
  by destruct (presto_submit W c sql (st_env s)) as [r e].
Qed.


End PrestoCall.

Section Blind.
Context {db env : Type} (W : World db env).
Context (entry : SchemaCache) (dicts : list (gmap string QueryResult)).
Implicit Types s : state db env.
#[local] Abbreviation f := (with_caches (db:=db) (env:=env) entry dicts).

Lemma blind_ret {A} (a : A) : blind_to f (ret a).
Proof. by intros s. Qed.
Lemma blind_raise {A} e : blind_to f (raise (A:=A) e).
Proof. by intros s. Qed.
Lemma blind_lift {A} (r : exn + A) : blind_to f (lift r).
Proof. by intros s. Qed.

Lemma blind_bind {A B} (m : M db env A) (k : A → M db env B) :
  blind_to f m → (∀ a, blind_to f (k a)) → blind_to f (bind m k).
Proof.
  intros Hm Hk s. unfold bind. rewrite Hm.
  destruct (m s) as [[e|a] s1]; cbn [fst snd]; [done|]. apply Hk.
Qed.

Lemma blind_for_each {A B} (xs : list A) (body : B → A → M db env B) :
  (∀ b x, blind_to f (body b x)) → ∀ acc, blind_to f (for_each xs body acc).
Proof.
  intros Hb. induction xs as [|x xs IH]; intros acc; cbn [for_each].
  - apply blind_ret.
  - apply blind_bind; [apply Hb|apply IH].
Qed.

Lemma blind_try_finally {A} (m : M db env A) (fin : M db env unit) :
  blind_to f m → blind_to f fin → blind_to f (try_finally m fin).
Proof.
  intros Hm Hf s. unfold try_finally. rewrite Hm.
  destruct (m s) as [r s1]; cbn [fst snd]. rewrite Hf.
  by destruct (fin s1) as [[e|u] s2].
Qed.

Lemma blind_try_except {A} (m : M db env A) c (h : exn → M db env A) :
  blind_to f m → (∀ e, blind_to f (h e)) → blind_to f (try_except m c h).
Proof.
  intros Hm Hh s. unfold try_except. rewrite Hm.
  destruct (m s) as [[e|a] s1]; cbn [fst snd]; [|done].
  destruct (c e); [apply Hh|done].
Qed.

Lemma blind_log ev : blind_to f (log ev).
Proof. by intros s. Qed.

Lemma blind_plpy_execute sql : blind_to f (plpy_execute W sql).
Proof.
  intros s. unfold plpy_execute, bind, log, modify. cbn.
  by destruct (spi_execute W sql (st_db s)) as [e|[r d]].
Qed.

Lemma blind_plpy_prepare sql types : blind_to f (plpy_prepare W sql types).
Proof.
  intros s. unfold plpy_prepare, bind, log, modify. cbn.
  by destruct (spi_prepare W sql types (st_db s)).
Qed.

Lemma blind_plpy_execute_plan p args :
  blind_to f (plpy_execute_plan W p args).
Proof.
  intros s. unfold plpy_execute_plan, bind, log, modify. cbn.
  by destruct (spi_execute_plan W p args (st_db s)) as [e|d].
Qed.

Lemma blind_client_query c sql : blind_to f (client_query W c sql).
Proof.
  intros s. unfold client_query, bind, log, modify. cbn.
  by destruct (presto_submit W c sql (st_env s)) as [r e].
Qed.

Lemma blind_first_value rows : blind_to f (first_value rows).
Proof.
  unfold first_value. destruct (res_rows rows); [apply blind_raise|].
  destruct (row_values _); [apply blind_raise|apply blind_ret].
Qed.

Lemma blind_rename_duplicated_column_names names :
  blind_to f (_rename_duplicated_column_names W names).
Proof.
  unfold _rename_duplicated_column_names.
  apply blind_bind; [|intros; apply blind_ret].
  apply blind_for_each. intros [renamed used] name. unfold rename_one.
  apply blind_bind; [|intros; apply blind_ret].
  case_bool_decide; [apply blind_log|apply blind_ret].
Qed.

Lemma blind_plan_batch insert_sql types n :
  blind_to f (_plan_batch W insert_sql types n).
Proof.
  unfold _plan_batch. destruct (strings_of _); [|apply blind_raise].
  apply blind_plpy_prepare.
Qed.

Lemma blind_batch_insert_loop insert_sql batch_size types rows :
  ∀ full_batch_plan batch,
    blind_to f (_batch_insert_loop W insert_sql batch_size types rows
                  full_batch_plan batch).
Proof.
  induction rows as [| |row rows IH]; intros fp batch; cbn [_batch_insert_loop].
  - apply blind_ret.
  - apply blind_raise.
  - case_bool_decide; [|apply IH].
    apply blind_bind; [|intros p].
    + destruct fp; [apply blind_ret|apply blind_plan_batch].
    + apply blind_bind; [apply blind_plpy_execute_plan|intros _; apply IH].
Qed.

Lemma blind_batch_insert insert_sql batch_size types rows :
  blind_to f (_batch_insert W insert_sql batch_size types rows).
Proof.
  unfold _batch_insert.
  apply blind_bind; [apply blind_batch_insert_loop|intros batch].
  destruct batch; [apply blind_ret|].
  apply blind_bind; [apply blind_plan_batch|intros p].
  apply blind_plpy_execute_plan.
Qed.

Lemma blind_create_and_insert table names types rows :
  blind_to f (create_and_insert W table names types rows).
Proof.
  unfold create_and_insert.
  apply blind_bind; [apply blind_rename_duplicated_column_names|intros ?].
  apply blind_bind; [apply blind_lift|intros ?].
  apply blind_bind; [apply blind_plpy_execute|intros ?].
  apply blind_bind; [apply blind_plpy_execute|intros ?].
  apply blind_batch_insert.
Qed.

Lemma blind_run_presto_as_temp_table
    server user catalog schema result_table query :
  blind_to f
    (run_presto_as_temp_table W server user catalog schema result_table query).
Proof.
  unfold run_presto_as_temp_table.
  apply blind_try_except.
  2:{ intros e. unfold set_module_and_reraise.
      apply blind_bind; [by intros s|intros _; apply blind_raise]. }
  apply blind_bind; [|intros search_path].
  { unfold _get_session_search_path_array.
    apply blind_bind; [apply blind_plpy_execute|intros ?].
    apply blind_first_value. }
  apply blind_bind; [|intros schema'].
  { unfold choose_schema. destruct (negb _); [|apply blind_ret].
    apply blind_bind; [apply blind_lift|intros n].
    case_bool_decide; [apply blind_lift|apply blind_ret]. }
  apply blind_bind; [|intros time_zone].
  { unfold _get_session_time_zone.
    apply blind_bind; [apply blind_plpy_execute|intros ?].
    apply blind_first_value. }
  apply blind_bind; [apply blind_client_query|intros q].
  apply blind_try_finally; [|apply blind_log].
  apply blind_bind; [apply blind_lift|intros columns].
  apply blind_create_and_insert.
Qed.
End Blind.

Section PrestoCaches.
Context {db env : Type} (W : World db env).
Implicit Types s : state db env.

Lemma emits_weaken (P Q : event → Prop) s s' :
  (∀ ev, P ev → Q ev) → emits P s s' → emits Q s s'.
Proof.
  intros HPQ (new & Ht & HP). exists new. split; [done|].
  eapply Forall_impl; [exact HP|exact HPQ].
Qed.

(** X17. [run_presto_as_temp_table] opens no subtransaction: none of
    the events of a call enters or leaves one, and the stack of open
    subtransactions is afterwards what it was. It neither reads nor
    writes the schema cache and the query cache: the entry and the dict
    objects are afterwards what they were, and with any other entry and
    any other dict objects in their place the call has the same outcome
    and ends in the same state, those put in place apart. *)
Theorem run_presto_leaves_caches_alone
    (server user catalog schema : pyval) (result_table query : string) s :
  let call :=
    run_presto_as_temp_table W server user catalog schema result_table query in
  (∃ new, st_trace (call s).2 = st_trace s ++ new
          ∧ Forall (λ ev, ¬ subxact_event ev) new)
  ∧ st_subxacts (call s).2 = st_subxacts s
  ∧ SchemaCacheEntry (call s).2 = SchemaCacheEntry s
  ∧ st_dicts (call s).2 = st_dicts s
  ∧ ∀ entry dicts,
      call (with_caches entry dicts s)
      = ((call s).1, with_caches entry dicts (call s).2).
Proof.
  cbn zeta.
  assert (∀ R : relation (state db env), Frame R →
            keeps R (run_presto_as_temp_table W server user catalog schema
                       result_table query)) as Hkeeps.
  { intros R HR. unfold run_presto_as_temp_table.
    apply keeps_try_except; [done| |intros e; by apply keeps_set_module_and_reraise].
    apply keeps_bind; [done|by apply keeps_get_session_search_path_array|intros sp].
    apply keeps_bind; [done| |intros schema'].
    { unfold choose_schema. keeps_auto. }
    apply keeps_bind; [done|by apply keeps_get_session_time_zone|intros tz].
    apply keeps_bind; [done|by apply keeps_client_query|intros q].
    apply keeps_try_finally; [done| |by apply keeps_q_close].
    apply keeps_bind; [done|by apply keeps_lift|intros columns].
    by apply keeps_create_and_insert. }
  split_and!.
  - assert (∀ s1 s2, emits session_event s1 s2
                     → emits (λ ev, ¬ subxact_event ev) s1 s2) as Hweak.
    { intros s1 s2. apply emits_weaken. intros ev Hs Hx. by destruct ev. }
    assert (keeps (emits (λ ev, ¬ subxact_event ev))
              (run_presto_as_temp_table W server user catalog schema
                 result_table query)) as Hemits; [|exact (Hemits s)].
    unfold run_presto_as_temp_table.
    apply emits_try_except.
    2:{ intros e s1. apply emits_same. done. }
    apply emits_bind; [|intros sp].
    { intros s1. apply Hweak, session_get_session_search_path_array. }
    apply emits_bind; [|intros schema'].
    { intros s1. apply Hweak, session_choose_schema. }
    apply emits_bind; [|intros tz].
    { intros s1. apply Hweak, session_get_session_time_zone. }
    apply emits_bind; [|intros q].
    { intros s1. exists [EPrestoQuery
                           {| Client_server := server; Client_user := user;
                              Client_catalog := catalog;
                              Client_schema := schema';
                              Client_time_zone := tz |} query].
      split; [apply client_query_trace|]. repeat constructor. by intros []. }
    intros s1. unfold try_finally.
    match goal with
    | |- context [match ?m s1 with _ => _ end] =>
        assert (emits session_event s1 (m s1).2) as Hbody;
          [|destruct (m s1) as [r s2]]
    end.
    { apply emits_bind; [apply emits_lift|intros columns].
      apply session_create_and_insert. }
    cbn [snd] in Hbody. apply Hweak in Hbody.
    eapply emits_trans; [exact Hbody|].
    exists [EPrestoClose]. unfold q_close, log, modify. cbn.
    split; [done|]. repeat constructor. by intros [].
  - apply (Hkeeps same_subxacts _ s).
  - apply (Hkeeps same_cache same_cache_frame s).
  - apply (Hkeeps same_cache same_cache_frame s).
  - intros entry dicts. apply blind_run_presto_as_temp_table.
Qed.
End PrestoCaches.

(** ** Inside and around the subtransaction *)

Section MirrorSuccess.
Context {db env : Type} (W : World db env).
Implicit Types s : state db env.

Lemma kept_by (R : relation (state db env)) {A} (m : M db env A) s r s' :
  keeps R m → m s = (r, s') → R s s'.
Proof. intros Hk Hrun. specialize (Hk s). by rewrite Hrun in Hk. Qed.

(** A successful run of the body of the subtransaction, cut at the
    statement that renames the database and at the store into the query
    cache; [R] holds across the steps in between. *)
Lemma mirror_and_query_inr (R : relation (state db env)) `{!Frame R}
    login_user query schema_names statements query_cache schema_name
    s captured s' :
  mirror_and_query W login_user query schema_names statements query_cache
    schema_name s = (inr captured, s') →
  ∃ names name s1 r s2 s3,
    schema_names = Some names
    ∧ from_option Some schema_name (last names) = Some name
    ∧ R s s1
    ∧ plpy_execute W (update_datname_sql W name) s1 = (inr r, s2)
    ∧ R s2 s3
    ∧ s' = set_dicts (alter (insert query (cached_result captured))
                        query_cache (st_dicts s3)) s3.
Proof.
  intros Hrun. unfold mirror_and_query in Hrun.
  apply bind_inr in Hrun as (u1 & t1 & H1 & Hrun).
  apply (kept_by R) in H1; [|by apply keeps_drop_listed_schemas].
  apply bind_inr in Hrun as (names & t2 & H2 & Hrun).
  destruct schema_names as [names'|]; [|done].
  injection H2 as -> <-.
  apply bind_inr in Hrun as (renamed & t3 & H3 & Hrun).
  destruct (rename_loop_never_raises W names (0, schema_name) t1)
    as (renamed' & t3' & sqls & H3' & _ & _ & Hlast).
  rewrite H3 in H3'. injection H3' as <- <-. cbn [snd] in Hlast.
  apply (kept_by R) in H3;
    [|apply keeps_for_each; [done|intros b x; by apply keeps_rename_schema_holder]].
  apply bind_inr in Hrun as (stmts & t4 & H4 & Hrun).
  destruct statements as [stmts'|]; [|done].
  injection H4 as -> <-.
  apply bind_inr in Hrun as (u5 & t5 & H5 & Hrun).
  apply (kept_by R) in H5; [|keeps_auto].
  apply bind_inr in Hrun as (u6 & t6 & H6 & Hrun).
  apply (kept_by R) in H6; [|by apply keeps_plpy_execute].
  apply bind_inr in Hrun as (u7 & t7 & H7 & Hrun).
  apply (kept_by R) in H7; [|by apply keeps_drop_listed_schemas].
  apply bind_inr in Hrun as (name & t8 & H8 & Hrun).
  destruct renamed.2 as [name'|] eqn:Hname; [|done].
  injection H8 as -> <-.
  apply bind_inr in Hrun as (r9 & t9 & H9 & Hrun).
  apply bind_inr in Hrun as (u10 & t10 & H10 & Hrun).
  apply (kept_by R) in H10; [|by apply keeps_plpy_execute].
  apply bind_inr in Hrun as (metadata & t11 & H11 & Hrun).
  apply (kept_by R) in H11; [|by apply keeps_plpy_execute].
  apply bind_inr in Hrun as (columns & t12 & H12 & Hrun).
  destruct (res_columns metadata) as [columns'|]; [|done].
  injection H12 as -> <-.
  apply bind_inr in Hrun as (oid_to_type_name & t13 & H13 & Hrun).
  apply (kept_by R) in H13; [|by apply keeps_load_oid_to_type_name_mapping].
  unfold bind, dict_set, modify, ret in Hrun. injection Hrun as <- <-.
  exists names, name, t7, r9, t9, t13. split_and!; try done.
  - eapply frame_trans; [exact H1|]. eapply frame_trans; [exact H3|].
    eapply frame_trans; [exact H5|]. eapply frame_trans; [exact H6|exact H7].
  - eapply frame_trans; [exact H10|]. eapply frame_trans; [exact H11|exact H13].
Qed.
End MirrorSuccess.

Section CacheHits.
Context {db env : Type} (W : World db env).
Implicit Types s : state db env.

(** X18. On success the body of the subtransaction has renamed the
    local database after the last entry of [schema_names], whichever
    schema the caller asked for and whether or not that entry's own
    rename succeeded; only without any entry is it the value the local
    [schema_name] had before. *)
Theorem mirror_names_database_after_last_schema
    login_user query schema_names statements query_cache schema_name
    s captured :
  (mirror_and_query W login_user query schema_names statements query_cache
     schema_name s).1 = inr captured →
  ∃ names name before after,
    schema_names = Some names
    ∧ from_option Some schema_name (last names) = Some name
    ∧ st_trace (mirror_and_query W login_user query schema_names statements
                  query_cache schema_name s).2
      = st_trace s ++ before ++ [EExecute (update_datname_sql W name)] ++ after.
Proof.
  destruct (mirror_and_query W login_user query schema_names statements
              query_cache schema_name s) as [r s'] eqn:Hrun.
  cbn [fst snd]. intros ->.
  destruct (mirror_and_query_inr W trace_extends _ _ _ _ _ _ _ _ _ Hrun)
    as (names & name & s1 & r9 & s2 & s3 & -> & Hname & [before Hb] & Hexec
        & [after Ha] & ->).
  exists names, name, before, after. split_and!; [done|done|].
  assert (st_trace s2 = st_trace s1 ++ [EExecute (update_datname_sql W name)])
    as Hupdate.
  { unfold plpy_execute, bind, log, modify in Hexec. cbn in Hexec.
    destruct (spi_execute W _ (st_db s1)) as [e|[r d]]; [done|].
    by injection Hexec as _ <-. }
  cbn. rewrite Ha, Hupdate, Hb. by rewrite <- !app_assoc.
Qed.


End CacheHits.

Section Captured.
Context {db env : Type} (W : World db env).
Implicit Types s : state db env.






End Captured.

Lemma mirror_names_database_after_last_schema_witness :
  ∃ names name before after,
    Demo.planned.1.1.1 = Some names
    ∧ from_option Some Demo.planned.2 (last names) = Some name
    ∧ st_trace (mirror_and_query Calls.world "bob" Calls.query
                  Demo.planned.1.1.1 Demo.planned.1.1.2 Demo.planned.1.2
                  Demo.planned.2 Demo.staged.2).2
      = st_trace Demo.staged.2 ++ before
        ++ [EExecute (update_datname_sql Calls.world name)] ++ after.
Proof.
  apply (mirror_names_database_after_last_schema Calls.world "bob" Calls.query
           Demo.planned.1.1.1 Demo.planned.1.1.2 Demo.planned.1.2
           Demo.planned.2 Demo.staged.2 Calls.captured).
  vm_compute. reflexivity.
Defined.



(** X21. While the schema cache is valid and names no schema to
    mirror, every call that is not answered from the query cache fails:
    on this path nothing binds the local [schema_name] before the
    database is renamed. *)
Theorem cached_plan_without_schemas_raises {db env} (W : World db env)
    (server user catalog schema : pyval)
    (login_user login_database result_table query : string)
    (s : state db env) :
  is_cached (SchemaCacheEntry s) server user catalog schema
    (time_time W (st_env s)).1 = true →
  self_schema_names (SchemaCacheEntry s) = Some [] →
  st_dicts s !! self_query_cache (SchemaCacheEntry s) ≫= (λ m, m !! query)
  = None →
  ∃ e, (run_system_catalog_as_temp_table W server user catalog schema
          login_user login_database result_table query s).1 = inl e.
Proof.
  intros Hhit Hnames Hempty.
  destruct (run_system_catalog_as_temp_table_session W server user catalog
              schema login_user login_database result_table query s)
    as (-> & _).
  rewrite run_system_catalog_as_temp_table_body_stages.
  destruct (plan_stage W server user catalog schema login_user s)
    as [[e|planned] s1] eqn:Hplan; [by eexists|].
  unfold plan_stage in Hplan.
  apply bind_inr in Hplan as (time_zone & s0 & Hzone & Hplan).
  apply get_session_time_zone_same_env in Hzone as (Henv & Hentry0 & Hdicts0).
  rewrite <- Henv, <- Hentry0 in Hhit.
  rewrite plan_or_cached_hit in Hplan by done.
  injection Hplan as <- <-. cbn [st_dicts set_env].
  rewrite Hentry0, Hdicts0, Hempty, Hnames.
  set (s1 := set_env _ s0).
  pose proof (mirror_in_subtransaction_reraises W login_user query (Some [])
                (self_statements (SchemaCacheEntry s))
                (self_query_cache (SchemaCacheEntry s)) None s1) as Hout.
  cbn zeta in Hout.
  destruct (mirror_and_query_unbound W login_user query
              (self_statements (SchemaCacheEntry s))
              (self_query_cache (SchemaCacheEntry s))
              (set_subxacts (st_db s1 :: st_subxacts s1)
                 (set_trace (st_trace s1 ++ [ESubxactEnter]) s1)))
    as [e He].
  rewrite He in Hout.
  destruct (mirror_in_subtransaction W login_user query (Some [])
              (self_statements (SchemaCacheEntry s))
              (self_query_cache (SchemaCacheEntry s)) None s1) as [r s2].
  cbn [fst] in Hout. subst r. by eexists.
Qed.

Lemma cached_plan_without_schemas_raises_witness :
  (SystemOnly.call Demo.start).1 = inr ()
  ∧ ∃ e, (SystemOnly.call SystemOnly.after_first_call).1 = inl e.
Proof.
  split; [vm_compute; reflexivity|].
  apply (cached_plan_without_schemas_raises SystemOnly.world
           (PyStr "presto:8080") (PyStr "bob") (PyStr "hive") PyNone
           "bob" "postgres" "t1" "select 1 as x, 2 as y"
           SystemOnly.after_first_call).
  - vm_compute. reflexivity.
  - vm_compute. reflexivity.
  - vm_compute. reflexivity.
Defined.

(** ** Placeholders and expiry *)

Section Holders.
Context {db env : Type} (W : World db env).
Implicit Types s : state db env.

Lemma executed_app t1 t2 : executed (t1 ++ t2) = executed t1 ++ executed t2.
Proof. apply omap_app. Qed.

Lemma plpy_execute_accepted sql s :
  accepts_statements W →
  ∃ r s', plpy_execute W sql s = (inr r, s')
          ∧ st_trace s' = st_trace s ++ [EExecute sql].
Proof.
  intros Hok. destruct (Hok sql (st_db s)) as (r & d & Hd).
  eexists _, _. by rewrite (plpy_execute_value W sql s r d Hd).
Qed.

(** X22. In a session that accepts them, the renames of the
    placeholder schemas use the placeholders in order: the schema at
    position [i] of [schema_names] takes placeholder [i], and the
    counter ends at the number of schemas. *)
Theorem rename_loop_assigns_holders_in_order
    (schema_names : list string) (schema_holder_id : nat)
    (schema_name : option string) s :
  (∀ i name d, ∃ r d',
      spi_execute W (rename_holder_sql W i name) d = inr (r, d')) →
  ∃ s',
    for_each schema_names (rename_schema_holder W)
      (schema_holder_id, schema_name) s
    = (inr (schema_holder_id + length schema_names,
            from_option Some schema_name (last schema_names)), s')
    ∧ st_trace s'
      = st_trace s
        ++ (EExecute <$> imap (λ i, rename_holder_sql W (schema_holder_id + i))
                           schema_names).
Proof.
  intros Hok. revert schema_holder_id schema_name s.
  induction schema_names as [|name names IH]; intros i sn s.
  - exists s. cbn. by rewrite Nat.add_0_r, app_nil_r.
  - cbn [for_each]. unfold bind. rewrite rename_schema_holder_value.
    destruct (Hok i name (st_db s)) as (r & d & ->).
    destruct (IH (i + 1) (Some name)
                (set_db d (set_trace
                   (st_trace s ++ [EExecute (rename_holder_sql W i name)]) s)))
      as (s' & -> & Ht).
    exists s'. split.
    + replace (i + length (name :: names)) with (i + 1 + length names)
        by (cbn; lia).
      assert (from_option Some (Some name) (last names)
              = from_option Some sn (last (name :: names))) as ->; [|done].
      destruct names as [|n names]; [done|]. rewrite last_cons_cons.
      destruct (last (n :: names)) eqn:Hl; [done|]. by apply last_None in Hl.
    + rewrite Ht. cbn [st_trace set_db set_trace]. rewrite <- app_assoc.
      f_equal. rewrite imap_cons, fmap_cons, Nat.add_0_r. cbn [app]. f_equal.
      f_equal. apply imap_ext. intros k x _. cbn. f_equal. lia.
Qed.

(** X23. In a session that accepts them, [create_schema_holders]
    drops and then creates each placeholder schema from number 0 up to
    [count - 1], in that order, and [create_table_holders] creates the
    placeholder tables with the same numbers; a count of zero or below
    runs no statement. *)
Theorem create_holders_statements (count : Z) s :
  accepts_statements W →
  (∃ s', create_schema_holders W count s = (inr (), s')
         ∧ st_trace s'
           = st_trace s
             ++ (EExecute
                   <$> (seq 0 (Z.to_nat count) ≫= schema_holder_statements)))
  ∧ (∃ s', create_table_holders W count s = (inr (), s')
           ∧ st_trace s'
             = st_trace s
               ++ (EExecute
                     <$> (table_holder_statement <$> seq 0 (Z.to_nat count)))).
Proof.
  intros Hok. unfold create_schema_holders, create_table_holders.
  generalize (seq 0 (Z.to_nat count)). intros l. split.
  - revert s. induction l as [|i l IH]; intros s.
    + exists s. cbn. by rewrite app_nil_r.
    + cbn [for_each]. unfold bind at 1. unfold bind at 1.
      destruct (plpy_execute_accepted
                  ("drop schema if exists prestogres_catalog_schema_holder_"
                   +:+ pretty i +:+ " cascade") s Hok) as (r1 & s1 & -> & Ht1).
      unfold bind at 1.
      destruct (plpy_execute_accepted
                  ("create schema prestogres_catalog_schema_holder_"
                   +:+ pretty i) s1 Hok) as (r2 & s2 & -> & Ht2).
      unfold ret at 1.
      destruct (IH s2) as (s' & -> & Ht). exists s'. split; [done|].
      rewrite Ht, Ht2, Ht1. cbn. by rewrite <- !app_assoc.
  - revert s. induction l as [|i l IH]; intros s.
    + exists s. cbn. by rewrite app_nil_r.
    + cbn [for_each]. unfold bind at 1. unfold bind at 1.
      destruct (plpy_execute_accepted
                  ("create table prestogres_catalog.table_holder_"
                   +:+ pretty i +:+ " ()") s Hok) as (r1 & s1 & -> & Ht1).
      unfold ret at 1.
      destruct (IH s1) as (s' & -> & Ht). exists s'. split; [done|].
      rewrite Ht, Ht1. cbn. by rewrite <- !app_assoc.
Qed.
End Holders.

(** X24. The validity of the schema cache ends at one point in time:
    an entry that is valid for a key at some time is valid for it at
    every earlier time, and an entry that has expired stays expired. *)
Theorem is_cached_until_expiry (self : SchemaCache)
    (server user catalog schema : pyval) (earlier later : Q) :
  (earlier <= later)%Q →
  is_cached self server user catalog schema later = true →
  is_cached self server user catalog schema earlier = true.
Proof.
  intros Hle. unfold is_cached. rewrite !andb_true_iff.
  intros (Hkey & Hlater). split; [done|].
  destruct (self_expire_time self) as [expire_time|]; [|done].
  apply Qltb_lt. apply Qltb_lt in Hlater.
  by eapply Qle_lt_trans.
Qed.

Lemma rename_loop_assigns_holders_in_order_witness :
  ∃ s',
    for_each ["marketing"; "sales"] (rename_schema_holder Calls.world)
      (0, None) Demo.start
    = (inr (2, Some "sales"), s')
    ∧ st_trace s'
      = [EExecute (rename_holder_sql Calls.world 0 "marketing");
         EExecute (rename_holder_sql Calls.world 1 "sales")].
Proof.
  apply (rename_loop_assigns_holders_in_order Calls.world
           ["marketing"; "sales"] 0 None Demo.start).
  intros i name d. by eexists _, _.
Defined.

Lemma create_holders_statements_witness :
  (∃ s', create_schema_holders Calls.world 2 Demo.start = (inr (), s')
         ∧ st_trace s'
           = EExecute <$> (schema_holder_statements 0
                           ++ schema_holder_statements 1))
  ∧ (∃ s', create_table_holders Calls.world 2 Demo.start = (inr (), s')
           ∧ st_trace s'
             = EExecute <$> [table_holder_statement 0; table_holder_statement 1]).
Proof.
  apply (create_holders_statements Calls.world 2 Demo.start).
  intros sql d. by eexists _, _.
Defined.

Lemma is_cached_until_expiry_witness :
  is_cached (SchemaCacheEntry Demo.after_first_call)
    (PyStr "presto:8080") (PyStr "bob") (PyStr "hive") PyNone (inject_Z 20)
  = true.
Proof.
  apply (is_cached_until_expiry (SchemaCacheEntry Demo.after_first_call)
           (PyStr "presto:8080") (PyStr "bob") (PyStr "hive") PyNone
           (inject_Z 20) (inject_Z 30)).
  - unfold Qle. cbn. lia.
  - vm_compute. reflexivity.
Defined.
